(** * PowerShell To Go: the command-interpretation core of [app.js]

    A shallow embedding of the path resolver, the virtual filesystem store,
    the history list, the variable expander, the safe arithmetic evaluator
    and the expression evaluator of [src/app.js], with the properties the
    specification states about them.

    Conventions of the embedding.
    - A JavaScript string is a sequence of 16-bit code units.  A [string]
      here is a sequence over 256 of them: the code units 0 to 255 except
      181 (the micro sign) and 255 (y with diaeresis), whose upper-case
      forms lie above 255; the values 181 and 255 of [ascii] stand for two
      code units above 255 that have no case forms and are neither white
      space nor word characters (U+2022 and U+2023).  [toUpperCase] and
      [toLowerCase] map the texts over this alphabet to texts over it, and
      on it the case conversions, the character classes of the regular
      expressions and [trim] are those of JavaScript.
    - The global objects [vfs] and [state.variables] are object literals
      used as string-keyed maps: each is the finite map ([gmap]) of its own
      keys, and its prototype is [Object.prototype].  The [in] operator and
      the reading of a property look a name that is no own key up there
      ([objectPrototypeNames]); [Object.keys], [delete] and the spread see
      the own keys only.
    - [state.cwd], [state.variables], [state.history] and [vfs] are globals
      in the source; here every function takes the parts of the state it
      reads as arguments and returns the parts it writes.  Writing to
      [localStorage] changes none of them and is left out.
    - [new Date().toISOString()] is the argument [now].
    - A JavaScript number is an IEEE-754 binary64 value: [spec_float] with
      [prec = 53] and [emax = 1024], with the operations of [SpecFloat]. *)

From Stdlib Require Import ZArith Ascii String List Bool Lia.
From Stdlib Require Import Floats.SpecFloat.
From stdpp Require Import gmap strings list.

Local Open Scope Z_scope.

(** ** Characters *)

Definition code (c : ascii) : N := N_of_ascii c.

Definition backslash : ascii := "\"%char.
Definition slash : ascii := "/"%char.
Definition colon : ascii := ":"%char.
Definition dquote : ascii := "034"%char.
Definition squote : ascii := "'"%char.

Definition between (lo hi : N) (c : ascii) : bool :=
  ((lo <=? code c) && (code c <=? hi))%N.

(** [\d], [[A-Za-z]], [\w] and [\s] of the regular expressions. *)
Definition isDigit (c : ascii) : bool := between 48 57 c.
Definition isLower (c : ascii) : bool := between 97 122 c.
Definition isUpper (c : ascii) : bool := between 65 90 c.
Definition isLetter (c : ascii) : bool := isLower c || isUpper c.
Definition isWord (c : ascii) : bool :=
  isLetter c || isDigit c || Ascii.eqb c "_".
Definition isSpace (c : ascii) : bool :=
  between 9 13 c || Ascii.eqb c " " || (code c =? 160)%N.
(** The characters the regular-expression dot does not match. *)
Definition isLineTerminator (c : ascii) : bool :=
  (code c =? 10)%N || (code c =? 13)%N.
Definition isQuote (c : ascii) : bool :=
  Ascii.eqb c dquote || Ascii.eqb c squote.
Definition isSep (c : ascii) : bool :=
  Ascii.eqb c slash || Ascii.eqb c backslash.

(** The case conversions on one code unit.  The letters with a case form
    are the ASCII letters and the letters from 192 to 254 (215 and 247, the
    multiplication and the division sign, are no letters); 223, the sharp
    s, is a small letter without a capital of its own.  [toUpperChar] is
    the upper-case form that is one code unit, [toUpperCase1 c] the text
    [c.toUpperCase()]: two letters for the sharp s. *)
Definition sharpS : ascii := "223"%char.

Definition toUpperChar (c : ascii) : ascii :=
  if isLower c || (between 224 254 c && negb (code c =? 247)%N)
  then ascii_of_N (code c - 32) else c.

Definition toUpperCase1 (c : ascii) : string :=
  if Ascii.eqb c sharpS then "SS" else String (toUpperChar c) "".

Definition toLowerChar (c : ascii) : ascii :=
  if isUpper c || (between 192 222 c && negb (code c =? 215)%N)
  then ascii_of_N (code c + 32) else c.

(** ** Strings *)

Fixpoint toLowerCase (s : string) : string :=
  match s with
  | "" => ""
  | String c s' => String (toLowerChar c) (toLowerCase s')
  end.

Fixpoint all_chars (P : ascii -> bool) (s : string) : bool :=
  match s with
  | "" => true
  | String c s' => P c && all_chars P s'
  end.

(** [s.slice(0, n)] for [0 <= n]. *)
Fixpoint take_str (n : nat) (s : string) : string :=
  match n, s with
  | S n', String c s' => String c (take_str n' s')
  | _, _ => ""
  end.

(** [s.slice(n)] for [0 <= n]. *)
Fixpoint drop_str (n : nat) (s : string) : string :=
  match n, s with
  | S n', String _ s' => drop_str n' s'
  | _, _ => s
  end.

(** [s.slice(0, -1)]. *)
Fixpoint drop_last (s : string) : string :=
  match s with
  | "" => ""
  | String c "" => ""
  | String c s' => String c (drop_last s')
  end.

Fixpoint last_char (s : string) : option ascii :=
  match s with
  | "" => None
  | String c "" => Some c
  | String _ s' => last_char s'
  end.

(** [s.endsWith(c)] for a one-character string [c]. *)
Definition endsWith_char (c : ascii) (s : string) : bool :=
  match last_char s with
  | Some a => Ascii.eqb a c
  | None => false
  end.

(** [s.startsWith(t)]. *)
Definition startsWith (t s : string) : bool := String.prefix t s.

(** [s.lastIndexOf(c)] for a one-character string [c]: the index of the
    last occurrence, or -1. *)
Fixpoint lastIndexOf (c : ascii) (s : string) : Z :=
  match s with
  | "" => -1
  | String a s' =>
      let r := lastIndexOf c s' in
      if 0 <=? r then r + 1
      else if Ascii.eqb a c then 0 else -1
  end.

(** [s.trimStart()], [s.trimEnd()] and [s.trim()]. *)
Fixpoint trimStart (s : string) : string :=
  match s with
  | "" => ""
  | String c s' => if isSpace c then trimStart s' else s
  end.

Fixpoint trimEnd (s : string) : string :=
  match s with
  | "" => ""
  | String c s' =>
      match trimEnd s' with
      | "" => if isSpace c then "" else String c ""
      | t => String c t
      end
  end.

Definition trim (s : string) : string := trimEnd (trimStart s).

(** The replacement of a leading and of a trailing quote character (single
    or double) by nothing: a quote at the very start is removed, and a quote
    at the very end is removed when it is not the character already
    removed. *)
Definition stripQuotes (s : string) : string :=
  let s1 := match s with
            | String c s' => if isQuote c then s' else s
            | "" => ""
            end in
  match last_char s1 with
  | Some c => if isQuote c then drop_last s1 else s1
  | None => s1
  end.

(** [s.split(/[/\\]/)]: the segments between separators, empty ones kept;
    [cur] is the segment being read. *)
Fixpoint split_go (cur : string) (s : string) : list string :=
  match s with
  | "" => [String.rev cur]
  | String c s' =>
      if isSep c then String.rev cur :: split_go "" s'
      else split_go (String c cur) s'
  end.

Definition splitPath (s : string) : list string := split_go "" s.

(** ** Path resolver *)

(** [p.replace(/\//g, '\\')]. *)
Fixpoint replaceSlashes (s : string) : string :=
  match s with
  | "" => ""
  | String c s' =>
      String (if Ascii.eqb c slash then backslash else c) (replaceSlashes s')
  end.

(** [p.replace(/\\+/g, '\\')]: of a run of backslashes only the last one is
    kept. *)
Fixpoint collapseBackslashes (s : string) : string :=
  match s with
  | "" => ""
  | String c s' =>
      match s' with
      | String c' _ =>
          if Ascii.eqb c backslash && Ascii.eqb c' backslash
          then collapseBackslashes s'
          else String c (collapseBackslashes s')
      | "" => String c ""
      end
  end.

Definition stripTrailing (p : string) : string :=
  if endsWith_char backslash p && (3 <? String.length p)%nat
  then drop_last p else p.

Definition upperDrive (p : string) : string :=
  match p with
  | String c0 (String c1 r) =>
      if Ascii.eqb c1 colon then toUpperCase1 c0 +:+ String c1 r else p
  | _ => p
  end.

Definition normPath (p : string) : string :=
  match p with
  | "" => ""
  | _ => upperDrive (stripTrailing (collapseBackslashes (replaceSlashes p)))
  end.

(** [/^[A-Za-z]:/.test(p)]. *)
Definition isAbsolute (p : string) : bool :=
  match p with
  | String c0 (String c1 _) => isLetter c0 && Ascii.eqb c1 colon
  | _ => false
  end.

(** One turn of the loop over the parts of a relative path. *)
Definition resolveStep (base part : string) : string :=
  if String.eqb part "" || String.eqb part "." then base
  else if String.eqb part ".." then
    let idx := lastIndexOf backslash base in
    if 2 <? idx then take_str (Z.to_nat idx) base else base
  else base +:+ "\" +:+ part.

(** [resolvePath(p)] with [state.cwd = cwd]. *)
Definition resolvePath (cwd p : string) : string :=
  if String.eqb p "" || String.eqb p "." then normPath cwd
  else
    let p := stripQuotes (trim p) in
    if isAbsolute p then normPath p
    else normPath (fold_left resolveStep (splitPath p) cwd).

(** ** The prototype of an object literal

    The names of the properties of [Object.prototype].  All of them but
    [__proto__] are functions; [__proto__] is an accessor, whose value is
    [Object.prototype] itself. *)
Definition objectPrototypeNames : list string :=
  ["constructor"; "__defineGetter__"; "__defineSetter__"; "hasOwnProperty";
   "__lookupGetter__"; "__lookupSetter__"; "isPrototypeOf";
   "propertyIsEnumerable"; "toString"; "valueOf"; "__proto__";
   "toLocaleString"].

Definition inherited (k : string) : bool :=
  bool_decide (k ∈ objectPrototypeNames).

(** The text of an inherited property, [String(v)]: [[object Object]] for
    the prototype itself, and for a function the text the engine gives a
    built-in function, here in the form of V8 (the standard fixes this
    text up to its white space).  The function under [constructor] is
    [Object]; the other functions have the name of their property. *)
Definition nativeText (name : string) : string :=
  "function " +:+ name +:+ "() { [native code] }".

Definition inheritedText (k : string) : option string :=
  if String.eqb k "__proto__" then Some "[object Object]"
  else if String.eqb k "constructor" then Some (nativeText "Object")
  else if inherited k then Some (nativeText k)
  else None.

(** ** Virtual filesystem

    [vfs] maps a path to a node [{ type, content?, created, modified }].
    The nodes [fsMkdir] and [fsWriteFile] make have a type and both
    stamps; the node [fsCopy] makes has the properties of the node it
    spreads, which are none when there is no such node, so each of [type],
    [content] and [created] can be missing.  Writing the store to
    [localStorage] ([saveFS]) does not change [vfs] and is left out. *)

Inductive nodeType : Set := Dir | File.

#[global] Instance nodeType_eq_dec : EqDecision nodeType.
Proof. solve_decision. Defined.

Record node : Set := mkNode {
  type : option nodeType;
  content : option string;
  created : option string;
  modified : string
}.

Abbreviation store := (gmap string node).

(** [k in vfs]. *)
Definition hasKey (k : string) (vfs : store) : bool :=
  bool_decide (is_Some (vfs !! k)) || inherited k.

(** [vfs[k] = n].  Under the key [__proto__], when it is no own key, the
    assignment reaches the accessor of [Object.prototype]: it adds no key
    and makes [n] the prototype of [vfs].  A [store] is an object whose
    prototype is [Object.prototype], so what comes after such an assignment
    is not described here: the own keys are as before, and the statements
    about a write leave this key out. *)
Definition assign (k : string) (n : node) (vfs : store) : store :=
  if decide (k = "__proto__" ∧ vfs !! k = None) then vfs
  else <[k := n]> vfs.

Definition fsExists (p : string) (vfs : store) : bool :=
  hasKey (normPath p) vfs.

(** [vfs[normPath(p)]?.type === 'dir']: an inherited property has no
    [type]. *)
Definition fsIsDir (p : string) (vfs : store) : bool :=
  match vfs !! normPath p with
  | Some n => bool_decide (type n = Some Dir)
  | None => false
  end.

Definition fsIsFile (p : string) (vfs : store) : bool :=
  match vfs !! normPath p with
  | Some n => bool_decide (type n = Some File)
  | None => false
  end.

(** The content of the node at [normPath(p)], or the empty string when
    there is no node or the node has no content. *)
Definition fsGetContent (p : string) (vfs : store) : string :=
  match vfs !! normPath p with
  | Some n => default "" (content n)
  | None => ""
  end.

(** [fsMkdir(p)].  [fsExists(p)] normalises the normalised [p] once
    more. *)
Definition fsMkdir (now : string) (p : string) (vfs : store) : bool * store :=
  let p := normPath p in
  if fsExists p vfs then (false, vfs)
  else (true, assign p (mkNode (Some Dir) None (Some now) now) vfs).

(** [n.content += c; n.modified = now].  A node without content reads as
    [undefined], which [+=] turns into the text undefined. *)
Definition appendContent (now c : string) (n : node) : node :=
  mkNode (type n) (Some (default "undefined" (content n) +:+ c))
         (created n) now.

(** [fsWriteFile(p, content, append)]: the store after the call.  The
    entry [fsIsFile(p)] looks at is [vfs[normPath(p)]] for the already
    normalised [p], and the entry updated is [vfs[p]].  When [normPath]
    changes the normalised [p], these are two entries, and the second one
    can be missing: the update [vfs[p].content += content] then throws a
    TypeError before anything is written ([fsWriteFileThrows]). *)
Definition fsWriteFile (now : string) (p c : string) (append : bool)
    (vfs : store) : store :=
  let p := normPath p in
  if append && fsIsFile p vfs then alter (appendContent now c) p vfs
  else
    assign p (mkNode (Some File) (Some c)
                (Some (default now (vfs !! p ≫= created))) now) vfs.

Definition fsWriteFileThrows (p : string) (append : bool) (vfs : store)
    : bool :=
  let p := normPath p in
  append && fsIsFile p vfs && bool_decide (vfs !! p = None).

(** The keys [fsDelete] removes for a directory [p]. *)
Definition underDir (p : string) (k : string) : Prop :=
  k = p ∨ startsWith (p +:+ "\") k = true.

#[global] Instance underDir_dec p k : Decision (underDir p k).
Proof. unfold underDir. apply _. Defined.

Definition fsDelete (p : string) (vfs : store) : bool * store :=
  let p := normPath p in
  if negb (fsExists p vfs) then (false, vfs)
  else if fsIsDir p vfs
  then (true, filter (λ kv, ¬ underDir p kv.1) vfs)
  else (true, delete p vfs).

(** [src.split('\\').pop()]: the text after the last backslash. *)
Definition baseName (s : string) : string :=
  drop_str (Z.to_nat (lastIndexOf backslash s + 1)) s.

(** [{ ...n, modified: now }] for the own entry [n = vfs[src]], if any:
    the spread of [undefined], and of an inherited property, adds
    nothing. *)
Definition touch (now : string) (n : option node) : node :=
  match n with
  | Some n => mkNode (type n) (content n) (created n) now
  | None => mkNode None None None now
  end.

(** [fsCopy(src, dst)].  [fsExists], [fsIsDir] and [fsIsFile] normalise the
    normalised paths once more; the node spread is [vfs[src]]. *)
Definition fsCopy (now : string) (src dst : string) (vfs : store)
    : bool * store :=
  let src := normPath src in
  let dst := normPath dst in
  if negb (fsExists src vfs) then (false, vfs)
  else
    let dst := if fsIsDir dst vfs then dst +:+ "\" +:+ baseName src else dst in
    if fsIsFile src vfs then (true, assign dst (touch now (vfs !! src)) vfs)
    else (false, vfs).

Definition fsMove (now : string) (src dst : string) (vfs : store)
    : bool * store :=
  let '(ok, vfs1) := fsCopy now src dst vfs in
  if negb ok then (false, vfs1)
  else (true, snd (fsDelete src vfs1)).

(** ** The initial filesystem

    [initFS()] when nothing is saved: the default directories and files,
    all stamped [now]. *)

Definition crlf : string := String "013" (String "010" "").
Definition dq : string := String dquote "".

Definition defaultDirs : list string :=
  ["C:"; "C:\Windows"; "C:\Windows\System32"; "C:\Program Files";
   "C:\Program Files (x86)"; "C:\Users"; "C:\Users\PSUser";
   "C:\Users\PSUser\Desktop"; "C:\Users\PSUser\Documents";
   "C:\Users\PSUser\Downloads"; "C:\Users\PSUser\Pictures"; "C:\Temp"].

Definition defaultFiles : list (string * string) :=
  [("C:\Users\PSUser\Desktop\readme.txt",
    "Welcome to PowerShell To Go!" +:+ crlf +:+
    "Type Get-Help to see available commands." +:+ crlf +:+
    "Use Tab for auto-completion." +:+ crlf +:+
    "Use Up/Down arrows for command history.");
   ("C:\Users\PSUser\Documents\notes.txt",
    "My PowerShell notes" +:+ crlf +:+ "-------------------" +:+ crlf +:+
    "Get-ChildItem  - list directory contents" +:+ crlf +:+
    "Set-Location   - change directory" +:+ crlf +:+
    "Get-Content    - read a file" +:+ crlf +:+
    "Set-Content    - write to a file");
   ("C:\Users\PSUser\Desktop\hello.ps1",
    "Write-Host " +:+ dq +:+ "Hello from PowerShell To Go!" +:+ dq +:+
    " -ForegroundColor Cyan" +:+ crlf +:+ "Get-Date");
   ("C:\Temp\sample.json",
    "{" +:+ crlf +:+
    "  " +:+ dq +:+ "name" +:+ dq +:+ ": " +:+ dq +:+ "PowerShell To Go" +:+ dq +:+ "," +:+ crlf +:+
    "  " +:+ dq +:+ "version" +:+ dq +:+ ": " +:+ dq +:+ "1.0" +:+ dq +:+ "," +:+ crlf +:+
    "  " +:+ dq +:+ "awesome" +:+ dq +:+ ": true" +:+ crlf +:+ "}")].

Definition initFS (now : string) : store :=
  let vfs :=
    fold_left (λ vfs d,
                 assign (normPath d) (mkNode (Some Dir) None (Some now) now) vfs)
              defaultDirs (∅ : store) in
  fold_left (λ vfs '(p, c),
               assign (normPath p)
                      (mkNode (Some File) (Some c) (Some now) now) vfs)
            defaultFiles vfs.

(** ** History *)

Definition HISTORY_MAX : nat := 200.

Record historyState : Set := mkHistory {
  history : list string;
  historyIndex : Z
}.

(** [addHistory(cmd)]; [shift()] drops the oldest entry. *)
Definition addHistory (cmd : string) (st : historyState) : historyState :=
  if String.eqb (trim cmd) "" then st
  else
    let h := filter (λ h, h ≠ cmd) (history st) ++ [cmd] in
    let h := if (HISTORY_MAX <? length h)%nat then tail h else h in
    mkHistory h (Z.of_nat (length h)).

(** ** Variable expansion *)

(** [str.replace(re, fn)] for a global regular expression that never matches
    the empty string.  [m s] is the match of [re] at the start of [s], if
    any: the replacement text and the number of characters matched.  The
    scan tries every position from left to right and resumes after a match;
    [skip] counts the characters of the last match still to be passed. *)
Fixpoint replaceAll (m : string -> option (string * nat)) (skip : nat)
    (s : string) : string :=
  match s with
  | "" => ""
  | String c s' =>
      match skip with
      | S k => replaceAll m k s'
      | O =>
          match m s with
          | Some (r, len) => r +:+ replaceAll m (len - 1) s'
          | None => String c (replaceAll m 0 s')
          end
      end
  end.

(** The characters before the first closing brace, when there is one. *)
Fixpoint untilBrace (s : string) : option string :=
  match s with
  | "" => None
  | String c s' =>
      if Ascii.eqb c "}" then Some ""
      else match untilBrace s' with
           | Some n => Some (String c n)
           | None => None
           end
  end.

(** The match of a dollar sign, an opening brace, one or more characters
    other than a closing brace, and a closing brace: the name between the
    braces. *)
Definition matchBraced (s : string) : option string :=
  match s with
  | String "$" (String "{" r) =>
      match untilBrace r with
      | Some (String c n) => Some (String c n)
      | _ => None
      end
  | _ => None
  end.

Fixpoint takeWhile_str (P : ascii -> bool) (s : string) : string :=
  match s with
  | "" => ""
  | String c s' => if P c then String c (takeWhile_str P s') else ""
  end.

Definition isIdentStart (c : ascii) : bool := isLetter c || Ascii.eqb c "_".

(** The match of a dollar sign followed by [[A-Za-z_]\w*]: the name. *)
Definition matchBare (s : string) : option string :=
  match s with
  | String "$" (String c r) =>
      if isIdentStart c then Some (String c (takeWhile_str isWord r))
      else None
  | _ => None
  end.

Abbreviation variables := (gmap string string).

(** [getBuiltinVar(name)] with [state.cwd = cwd]; [None] is [undefined]. *)
Definition getBuiltinVar (cwd : string) (name : string) : option string :=
  let n := toLowerCase name in
  if String.eqb n "null" then Some ""
  else if String.eqb n "true" then Some "True"
  else if String.eqb n "false" then Some "False"
  else if String.eqb n "psversiontable" then Some "Name:PSToGo Version:1.0"
  else if String.eqb n "env:username" || String.eqb n "username"
  then Some "PSUser"
  else if String.eqb n "env:computername" || String.eqb n "computername"
  then Some "PSTOGO-PC"
  else if String.eqb n "home" then Some "C:\Users\PSUser"
  else if String.eqb n "pwd" then Some cwd
  else None.

(** [state.variables[n]], as the text it is turned into: the own value,
    or the inherited property; [None] is [undefined]. *)
Definition variableText (vars : variables) (n : string) : option string :=
  match vars !! n with
  | Some v => Some v
  | None => inheritedText n
  end.

(** The two callbacks of [expandVariables]. *)
Definition bracedValue (vars : variables) (n : string) : string :=
  default "" (variableText vars n).

Definition bareValue (vars : variables) (cwd : string) (n : string) : string :=
  match getBuiltinVar cwd n with
  | Some builtin => builtin
  | None => default ("$" +:+ n) (variableText vars n)
  end.

Definition expandBraced (vars : variables) (s : string) : string :=
  replaceAll
    (λ t, match matchBraced t with
          | Some n => Some (bracedValue vars n, (String.length n + 3)%nat)
          | None => None
          end) 0 s.

Definition expandBare (vars : variables) (cwd : string) (s : string) : string :=
  replaceAll
    (λ t, match matchBare t with
          | Some n => Some (bareValue vars cwd n, (String.length n + 1)%nat)
          | None => None
          end) 0 s.

(** [expandVariables(str)] with [state.variables = vars] and
    [state.cwd = cwd]. *)
Definition expandVariables (vars : variables) (cwd : string) (str : string)
    : string :=
  expandBare vars cwd (expandBraced vars str).

(** ** Numbers *)

Definition prec : Z := 53.
Definition emax : Z := 1024.

Abbreviation num := spec_float.

Definition NaN : num := S754_nan.

Definition isNaN (x : num) : bool :=
  match x with
  | S754_nan => true
  | _ => false
  end.

(** [x !== 0] is false for both zeros. *)
Definition isZero (x : num) : bool :=
  match x with
  | S754_zero _ => true
  | _ => false
  end.

Definition num_of_Z (z : Z) : num := binary_normalize prec emax z 0 false.

Definition num_add : num -> num -> num := SFadd prec emax.
Definition num_sub : num -> num -> num := SFsub prec emax.
Definition num_mul : num -> num -> num := SFmul prec emax.
Definition num_div : num -> num -> num := SFdiv prec emax.
Definition num_neg : num -> num := SFopp.

(** [x % y]: the remainder of the truncating division, with the sign of
    [x]; it is computed exactly. *)
Definition num_rem (x y : num) : num :=
  match x, y with
  | S754_nan, _ | _, S754_nan => S754_nan
  | S754_infinity _, _ => S754_nan
  | _, S754_zero _ => S754_nan
  | S754_zero _, _ => x
  | _, S754_infinity _ => x
  | S754_finite sx mx ex, S754_finite sy my ey =>
      let e := Z.min ex ey in
      let a := Zpos mx * 2 ^ (ex - e) in
      let b := Zpos my * 2 ^ (ey - e) in
      binary_normalize prec emax (cond_Zopp sx (a mod b)) e sx
  end.

Definition num_lt (x y : num) : bool := SFltb x y.
Definition num_le (x y : num) : bool := SFleb x y.

(** The number nearest to [m * 10^e], for [0 <= m], with the sign [neg]. *)
Definition decimal (neg : bool) (m e : Z) : num :=
  match m with
  | Zpos p =>
      if 0 <=? e
      then binary_normalize prec emax (cond_Zopp neg (m * 10 ^ e)) 0 neg
      else SFdiv prec emax (S754_finite neg p 0)
                           (S754_finite false (Z.to_pos (10 ^ (- e))) 0)
  | _ => S754_zero neg
  end.

Definition dropWhile_str (P : ascii -> bool) (s : string) : string :=
  drop_str (String.length (takeWhile_str P s)) s.

Definition digitValue (c : ascii) : Z :=
  if isDigit c then Z.of_N (code c) - 48
  else if between 97 102 c then Z.of_N (code c) - 87
  else if between 65 70 c then Z.of_N (code c) - 55
  else 99.

(** The value of a string of digits in base [radix]. *)
Fixpoint digitsValue (radix : Z) (acc : Z) (s : string) : Z :=
  match s with
  | "" => acc
  | String c s' => digitsValue radix (acc * radix + digitValue c) s'
  end.

(** The longest prefix [digits], [digits.digits], [digits.] or [.digits]:
    the integer and fraction digits and the rest, when there is a digit. *)
Definition spanDecimal (s : string) : option (string * string * string) :=
  let ip := takeWhile_str isDigit s in
  let r := dropWhile_str isDigit s in
  match r with
  | String "." r' =>
      let fp := takeWhile_str isDigit r' in
      if String.eqb ip "" && String.eqb fp "" then None
      else Some (ip, fp, dropWhile_str isDigit r')
  | _ => if String.eqb ip "" then None else Some (ip, "", r)
  end.

(** [parseFloat(s)] on a string of digits and dots (all the tokenizer of
    [safeArith] passes): the value of the longest prefix that is a decimal
    literal, NaN when there is none. *)
Definition parseFloat (s : string) : num :=
  match spanDecimal s with
  | Some (ip, fp, _) =>
      decimal false (digitsValue 10 0 (ip +:+ fp)) (- Z.of_nat (String.length fp))
  | None => NaN
  end.

(** ** Safe arithmetic evaluator *)

Inductive token : Set :=
  | TNum (v : num)
  | TOp (c : ascii).

Definition isNumChar (c : ascii) : bool := isDigit c || Ascii.eqb c ".".

(** ['+-*/%()'.includes(c)]. *)
Definition isOpChar (c : ascii) : bool :=
  Ascii.eqb c "+" || Ascii.eqb c "-" || Ascii.eqb c "*" || Ascii.eqb c "/"
  || Ascii.eqb c "%" || Ascii.eqb c "(" || Ascii.eqb c ")".

(** The token of the numeric literal being read ([num], last character
    first), if any. *)
Definition flushNum (num : string) : list token :=
  match num with
  | "" => []
  | _ => [TNum (parseFloat (String.rev num))]
  end.

(** The tokenizer loop; [None] is the early [return NaN] on an unsupported
    character. *)
Fixpoint tokenize_go (num : string) (s : string) : option (list token) :=
  match s with
  | "" => Some (flushNum num)
  | String c s' =>
      if isSpace c then
        option_map (app (flushNum num)) (tokenize_go "" s')
      else if isNumChar c then tokenize_go (String c num) s'
      else if isOpChar c then
        option_map (λ ts, flushNum num ++ TOp c :: ts) (tokenize_go "" s')
      else None
  end.

Definition tokenize (expr : string) : option (list token) :=
  tokenize_go "" expr.

(** [peek() && peek().v === c]. *)
Definition peekIs (c : ascii) (toks : list token) : bool :=
  match toks with
  | TOp c' :: _ => Ascii.eqb c' c
  | _ => false
  end.

(** The recursive-descent parser.  The position [pos] in the token array is
    the list of the tokens not yet consumed; each function returns its value
    and the tokens left.  [fuel] bounds the depth of the calls, and [None]
    means that it ran out (it does not, see [parseExpr_total]). *)
Fixpoint parseExpr (fuel : nat) (toks : list token)
    : option (num * list token) :=
  match fuel with
  | O => None
  | S fuel =>
      match parseTerm fuel toks with
      | Some (lhs, toks) => exprLoop fuel lhs toks
      | None => None
      end
  end
with exprLoop (fuel : nat) (lhs : num) (toks : list token)
    : option (num * list token) :=
  match fuel with
  | O => None
  | S fuel =>
      match toks with
      | TOp op :: toks' =>
          if Ascii.eqb op "+" || Ascii.eqb op "-" then
            match parseTerm fuel toks' with
            | Some (rhs, toks'') =>
                exprLoop fuel
                  (if Ascii.eqb op "+" then num_add lhs rhs
                   else num_sub lhs rhs) toks''
            | None => None
            end
          else Some (lhs, toks)
      | _ => Some (lhs, toks)
      end
  end
with parseTerm (fuel : nat) (toks : list token)
    : option (num * list token) :=
  match fuel with
  | O => None
  | S fuel =>
      match parseFactor fuel toks with
      | Some (lhs, toks) => termLoop fuel lhs toks
      | None => None
      end
  end
with termLoop (fuel : nat) (lhs : num) (toks : list token)
    : option (num * list token) :=
  match fuel with
  | O => None
  | S fuel =>
      match toks with
      | TOp op :: toks' =>
          if Ascii.eqb op "*" || Ascii.eqb op "/" || Ascii.eqb op "%" then
            match parseFactor fuel toks' with
            | Some (rhs, toks'') =>
                termLoop fuel
                  (if Ascii.eqb op "*" then num_mul lhs rhs
                   else if Ascii.eqb op "/" then
                     if negb (isZero rhs) then num_div lhs rhs else NaN
                   else num_rem lhs rhs) toks''
            | None => None
            end
          else Some (lhs, toks)
      | _ => Some (lhs, toks)
      end
  end
with parseFactor (fuel : nat) (toks : list token)
    : option (num * list token) :=
  match fuel with
  | O => None
  | S fuel =>
      match toks with
      | [] => Some (NaN, toks)
      | TNum v :: toks' => Some (v, toks')
      | TOp c :: toks' =>
          if Ascii.eqb c "(" then
            match parseExpr fuel toks' with
            | Some (val, toks'') =>
                Some (val, if peekIs ")" toks'' then tail toks'' else toks'')
            | None => None
            end
          else if Ascii.eqb c "-" then
            match parseFactor fuel toks' with
            | Some (v, toks'') => Some (num_neg v, toks'')
            | None => None
            end
          else if Ascii.eqb c "+" then parseFactor fuel toks'
          else Some (NaN, toks)
      end
  end.

(** Enough fuel for a token list. *)
Definition fuelFor (toks : list token) : nat := 3 * length toks + 3.

(** [safeArith(expr)]. *)
Definition safeArith (expr : string) : num :=
  match tokenize expr with
  | None => NaN
  | Some tokens =>
      match parseExpr (fuelFor tokens) tokens with
      | Some (result, []) => if negb (isNaN result) then result else NaN
      | _ => NaN
      end
  end.

(** ** Expression evaluator *)

(** [Number(s)] for a string [s]: the numeric value of the whole trimmed
    text, NaN when it is not a numeric literal.  The literals are the
    decimal ones (sign, digits, fraction, exponent), [Infinity] with a sign,
    and the unsigned literals in base 16, 8 and 2. *)
Definition radixLiteral (radix : Z) (digits : string) : num :=
  match digits with
  | "" => NaN
  | _ =>
      if all_chars (λ c, digitValue c <? radix) digits
      then num_of_Z (digitsValue radix 0 digits)
      else NaN
  end.

(** The exponent part: nothing, or [e] or [E], a sign and digits. *)
Definition exponentPart (s : string) : option Z :=
  match s with
  | "" => Some 0
  | String c r =>
      if Ascii.eqb c "e" || Ascii.eqb c "E" then
        let '(neg, ds) :=
          match r with
          | String "-" ds => (true, ds)
          | String "+" ds => (false, ds)
          | _ => (false, r)
          end in
        match ds with
        | "" => None
        | _ =>
            if all_chars isDigit ds
            then Some (cond_Zopp neg (digitsValue 10 0 ds))
            else None
        end
      else None
  end.

Definition unsignedDecimal (neg : bool) (s : string) : num :=
  if String.eqb s "Infinity" then S754_infinity neg
  else
    match spanDecimal s with
    | Some (ip, fp, r) =>
        match exponentPart r with
        | Some e =>
            decimal neg (digitsValue 10 0 (ip +:+ fp))
                    (e - Z.of_nat (String.length fp))
        | None => NaN
        end
    | None => NaN
    end.

Definition Number (s : string) : num :=
  match trim s with
  | "" => S754_zero false
  | String "-" r => unsignedDecimal true r
  | String "+" r => unsignedDecimal false r
  | String "0" (String c r) as t =>
      if Ascii.eqb c "x" || Ascii.eqb c "X" then radixLiteral 16 r
      else if Ascii.eqb c "o" || Ascii.eqb c "O" then radixLiteral 8 r
      else if Ascii.eqb c "b" || Ascii.eqb c "B" then radixLiteral 2 r
      else unsignedDecimal false t
  | t => unsignedDecimal false t
  end.

(** [String(b)] for a boolean [b]. *)
Definition booleanToString (b : bool) : string :=
  if b then "true" else "false".

(** The built-in objects of JavaScript that [evalExpression] calls and that
    are outside this development: [new RegExp(pattern, 'i').test(subject)],
    with [None] for a pattern the constructor rejects (a SyntaxError), and
    [String(n)] for a number [n]. *)
Record builtins : Type := mkBuiltins {
  regExpTest : string -> string -> option bool;
  numberToString : num -> string
}.

Inductive cmpOp : Set :=
  | OpEq | OpNe | OpLt | OpGt | OpLe | OpGe
  | OpLike | OpNotLike | OpMatch | OpContains.

(** The alternatives of the operator group, in the order the regular
    expression tries them. *)
Definition cmpOps : list (string * cmpOp) :=
  [("-eq", OpEq); ("-ne", OpNe); ("-lt", OpLt); ("-gt", OpGt);
   ("-le", OpLe); ("-ge", OpGe); ("-like", OpLike); ("-notlike", OpNotLike);
   ("-match", OpMatch); ("-contains", OpContains)].

(** [t] is at the start of [s], letter case ignored ([t] in lower case). *)
Fixpoint startsWith_ci (t s : string) : bool :=
  match t, s with
  | "", _ => true
  | String a t', String b s' =>
      Ascii.eqb a (toLowerChar b) && startsWith_ci t' s'
  | _, "" => false
  end.

(** The end of the comparison pattern, after the operator: white space, as
    much as possible, then one or more characters other than line
    terminators up to the end of the text.  When only white space is left,
    its last character is the right operand. *)
Definition matchRight (after : string) : option string :=
  match trimStart after with
  | "" =>
      match last_char after with
      | Some c => if isLineTerminator c then None else Some (String c "")
      | None => None
      end
  | r => if all_chars (λ c, negb (isLineTerminator c)) r then Some r else None
  end.

Fixpoint tryOps (ops : list (string * cmpOp)) (s : string)
    : option (cmpOp * string) :=
  match ops with
  | [] => None
  | (name, op) :: ops' =>
      if startsWith_ci name s then
        match matchRight (drop_str (String.length name) s) with
        | Some r => Some (op, r)
        | None => tryOps ops' s
        end
      else tryOps ops' s
  end.

(** The match of the comparison pattern: a shortest non-empty left operand
    without line terminators, white space, an operator, white space and the
    right operand.  [l] is the left operand read so far, last character
    first. *)
Fixpoint cmpMatch_go (l : string) (s : string)
    : option (string * cmpOp * string) :=
  match tryOps cmpOps (trimStart s) with
  | Some (op, r) => Some (String.rev l, op, r)
  | None =>
      match s with
      | "" => None
      | String c s' =>
          if isLineTerminator c then None
          else cmpMatch_go (String c l) s'
      end
  end.

Definition cmpMatch (s : string) : option (string * cmpOp * string) :=
  match s with
  | "" => None
  | String c s' =>
      if isLineTerminator c then None else cmpMatch_go (String c "") s'
  end.

(** The test of the arithmetic pattern: one or more digits, white space,
    operators, dots and parentheses, and nothing else. *)
Definition isArithChar (c : ascii) : bool :=
  isDigit c || isSpace c || isOpChar c || Ascii.eqb c ".".

Definition isArithText (s : string) : bool :=
  negb (String.eqb s "") && all_chars isArithChar s.

(** [s.includes(t)]. *)
Fixpoint includes (t s : string) : bool :=
  startsWith t s ||
  match s with
  | "" => false
  | String _ s' => includes t s'
  end.

(** The pattern of [-like]: a star becomes a dot and a star, a question mark
    a dot, between the anchors. *)
Fixpoint globBody (s : string) : string :=
  match s with
  | "" => ""
  | String c s' =>
      (if Ascii.eqb c "*" then ".*"
       else if Ascii.eqb c "?" then "."
       else String c "") +:+ globBody s'
  end.

Definition globPattern (rv : string) : string := "^" +:+ globBody rv +:+ "$".

(** The operand of a comparison: trimmed, one leading and one trailing quote
    removed. *)
Definition operand (s : string) : string := stripQuotes (trim s).

Definition evalComparison (B : builtins) (op : cmpOp) (lv rv : string)
    : option string :=
  match op with
  | OpEq => Some (booleanToString (String.eqb lv rv))
  | OpNe => Some (booleanToString (negb (String.eqb lv rv)))
  | OpLt => Some (booleanToString (num_lt (Number lv) (Number rv)))
  | OpGt => Some (booleanToString (num_lt (Number rv) (Number lv)))
  | OpLe => Some (booleanToString (num_le (Number lv) (Number rv)))
  | OpGe => Some (booleanToString (num_le (Number rv) (Number lv)))
  | OpLike => booleanToString <$> regExpTest B (globPattern rv) lv
  | OpNotLike => (λ b, booleanToString (negb b)) <$> regExpTest B (globPattern rv) lv
  | OpMatch => booleanToString <$> regExpTest B rv lv
  | OpContains => Some (booleanToString (includes rv lv))
  end.

(** [evalExpression(expr)]; [None] is the SyntaxError of a rejected
    pattern. *)
Definition evalExpression (B : builtins) (vars : variables) (cwd : string)
    (expr : string) : option string :=
  let expr := expandVariables vars cwd (trim expr) in
  let n := safeArith expr in
  if isArithText expr && negb (isNaN n) then Some (numberToString B n)
  else
    match cmpMatch expr with
    | Some (l, op, r) => evalComparison B op (operand l) (operand r)
    | None => Some expr
    end.

(** ** The grammar of the arithmetic evaluator, as the specification gives it

    [expr := term (('+'|'-') term)*], [term := factor (('*'|'/'|'%') factor)*],
    [factor := NUMBER | '(' expr ')' | ('-'|'+') factor], written as the
    derivation trees of the grammar, with their value (the operators of one
    level applied from left to right) and their tokens. *)

Inductive addOp : Set := Plus | Minus.
Inductive mulOp : Set := Times | Divide | Modulo.

Inductive gExpr : Set :=
  | GExpr (t : gTerm) (ts : gAddTail)
with gAddTail : Set :=
  | GAddNil
  | GAddCons (op : addOp) (t : gTerm) (ts : gAddTail)
with gTerm : Set :=
  | GTerm (f : gFactor) (fs : gMulTail)
with gMulTail : Set :=
  | GMulNil
  | GMulCons (op : mulOp) (f : gFactor) (fs : gMulTail)
with gFactor : Set :=
  | GNum (v : num)
  | GParen (e : gExpr)
  | GNeg (f : gFactor)
  | GPos (f : gFactor).

Definition addOpChar (op : addOp) : ascii :=
  match op with Plus => "+" | Minus => "-" end.

Definition mulOpChar (op : mulOp) : ascii :=
  match op with Times => "*" | Divide => "/" | Modulo => "%" end.

Definition applyAdd (op : addOp) (x y : num) : num :=
  match op with
  | Plus => num_add x y
  | Minus => num_sub x y
  end.

(** A division by zero (of either sign) is NaN. *)
Definition applyMul (op : mulOp) (x y : num) : num :=
  match op with
  | Times => num_mul x y
  | Divide => if isZero y then NaN else num_div x y
  | Modulo => num_rem x y
  end.

Fixpoint valueExpr (e : gExpr) : num :=
  match e with
  | GExpr t ts => valueAddTail (valueTerm t) ts
  end
with valueAddTail (acc : num) (ts : gAddTail) : num :=
  match ts with
  | GAddNil => acc
  | GAddCons op t ts' => valueAddTail (applyAdd op acc (valueTerm t)) ts'
  end
with valueTerm (t : gTerm) : num :=
  match t with
  | GTerm f fs => valueMulTail (valueFactor f) fs
  end
with valueMulTail (acc : num) (fs : gMulTail) : num :=
  match fs with
  | GMulNil => acc
  | GMulCons op f fs' => valueMulTail (applyMul op acc (valueFactor f)) fs'
  end
with valueFactor (f : gFactor) : num :=
  match f with
  | GNum v => v
  | GParen e => valueExpr e
  | GNeg f' => num_neg (valueFactor f')
  | GPos f' => valueFactor f'
  end.

Fixpoint tokensExpr (e : gExpr) : list token :=
  match e with
  | GExpr t ts => tokensTerm t ++ tokensAddTail ts
  end
with tokensAddTail (ts : gAddTail) : list token :=
  match ts with
  | GAddNil => []
  | GAddCons op t ts' => TOp (addOpChar op) :: tokensTerm t ++ tokensAddTail ts'
  end
with tokensTerm (t : gTerm) : list token :=
  match t with
  | GTerm f fs => tokensFactor f ++ tokensMulTail fs
  end
with tokensMulTail (fs : gMulTail) : list token :=
  match fs with
  | GMulNil => []
  | GMulCons op f fs' => TOp (mulOpChar op) :: tokensFactor f ++ tokensMulTail fs'
  end
with tokensFactor (f : gFactor) : list token :=
  match f with
  | GNum v => [TNum v]
  | GParen e => TOp "(" :: tokensExpr e ++ [TOp ")"]
  | GNeg f' => TOp "-" :: tokensFactor f'
  | GPos f' => TOp "+" :: tokensFactor f'
  end.

(** A division whose right operand is zero occurs in the evaluation. *)
Fixpoint divByZeroExpr (e : gExpr) : bool :=
  match e with
  | GExpr t ts => divByZeroTerm t || divByZeroAddTail ts
  end
with divByZeroAddTail (ts : gAddTail) : bool :=
  match ts with
  | GAddNil => false
  | GAddCons _ t ts' => divByZeroTerm t || divByZeroAddTail ts'
  end
with divByZeroTerm (t : gTerm) : bool :=
  match t with
  | GTerm f fs => divByZeroFactor f || divByZeroMulTail fs
  end
with divByZeroMulTail (fs : gMulTail) : bool :=
  match fs with
  | GMulNil => false
  | GMulCons op f fs' =>
      match op with
      | Divide => isZero (valueFactor f)
      | _ => false
      end || divByZeroFactor f || divByZeroMulTail fs'
  end
with divByZeroFactor (f : gFactor) : bool :=
  match f with
  | GNum _ => false
  | GParen e => divByZeroExpr e
  | GNeg f' => divByZeroFactor f'
  | GPos f' => divByZeroFactor f'
  end.

(** * Further parts of [app.js]

    The listing of a directory, the escaping of markup, the parsers of a
    command line, the steps through the history, some cmdlets of the
    filesystem and the command executor. *)

(** ** Listing a directory *)

(** An item of [fsListDir]: the key, the name below the directory and the
    node. *)
Record listEntry : Set := mkEntry {
  entry_path : string;
  entry_name : string;
  entry_node : node
}.

(** The prefix of the keys below [dir]. *)
Definition listPrefix (dir : string) : string :=
  let dir := normPath dir in
  if endsWith_char backslash dir then dir else dir +:+ "\".

(** The filter of [fsListDir]: the key starts with [prefix] and what follows
    is not empty and has no backslash. *)
Definition isChildKey (prefix k : string) : bool :=
  startsWith prefix k &&
  let rest := drop_str (String.length prefix) k in
  (0 <? String.length rest)%nat &&
  all_chars (λ c, negb (Ascii.eqb c backslash)) rest.

(** [fsListDir(dir)].  The items come in the order of [Object.keys(vfs)] in
    the source; here they come in the order of [map_to_list], and the
    statements about the listing are about what it contains. *)
Definition fsListDir (dir : string) (vfs : store) : list listEntry :=
  let prefix := listPrefix dir in
  (λ kn, mkEntry kn.1 (drop_str (String.length prefix) kn.1) kn.2) <$>
    filter (λ kn, isChildKey prefix kn.1 = true) (map_to_list vfs).

(** ** Escaping for HTML *)

(** [s.replace(/c/g, r)] for a character [c]. *)
Fixpoint replaceChar (c : ascii) (r : string) (s : string) : string :=
  match s with
  | "" => ""
  | String a s' =>
      (if Ascii.eqb a c then r else String a "") +:+ replaceChar c r s'
  end.

(** [escHtml(s)] for a string [s]: the five replacements, the ampersand
    first. *)
Definition escHtml (s : string) : string :=
  replaceChar squote "&#39;"
    (replaceChar dquote "&quot;"
       (replaceChar ">" "&gt;"
          (replaceChar "<" "&lt;"
             (replaceChar "&" "&amp;" s)))).

(** ** Token and argument parser *)

(** [if (cur) args.push(cur)]; [cur] is kept last character first. *)
Definition pushArg (cur : string) : list string :=
  match cur with
  | "" => []
  | _ => [String.rev cur]
  end.

(** The loop of [parseArgs] from the state [inSingle], [inDouble], [cur]. *)
Fixpoint parseArgs_go (inSingle inDouble : bool) (cur : string) (s : string)
    : list string :=
  match s with
  | "" => pushArg cur
  | String c s' =>
      if Ascii.eqb c squote && negb inDouble
      then parseArgs_go (negb inSingle) inDouble cur s'
      else if Ascii.eqb c dquote && negb inSingle
      then parseArgs_go inSingle (negb inDouble) cur s'
      else if Ascii.eqb c " " && negb inSingle && negb inDouble
      then pushArg cur ++ parseArgs_go inSingle inDouble "" s'
      else parseArgs_go inSingle inDouble (String c cur) s'
  end.

Definition parseArgs (str : string) : list string :=
  parseArgs_go false false "" str.

(** The value of a named parameter: a text, or [true] for a switch. *)
Inductive paramValue : Set :=
  | PTrue
  | PText (s : string).

#[global] Instance paramValue_eq_dec : EqDecision paramValue.
Proof. solve_decision. Defined.

Abbreviation params := (gmap string paramValue).

(** [s.indexOf(c)] for a one-character string [c]. *)
Fixpoint indexOf (c : ascii) (s : string) : Z :=
  match s with
  | "" => -1
  | String a s' =>
      if Ascii.eqb a c then 0
      else let r := indexOf c s' in if 0 <=? r then r + 1 else -1
  end.

Definition startsWithDash (a : string) : bool := startsWith "-" a.

(** [params[name.toLowerCase()] = val].  [params] is an object literal, so
    the key [__proto__] is the accessor of [Object.prototype]: assigning a
    text or [true] to it adds no key and changes nothing. *)
Definition setParam (name : string) (val : paramValue) (ps : params)
    : params :=
  let key := toLowerCase name in
  if String.eqb key "__proto__" then ps else <[key := val]> ps.

(** The loop of [parseNamedParams]: the parameters and the positional
    arguments read so far, and the arguments from index [i] on. *)
Fixpoint parseNamedParams_go (ps : params) (positional : list string)
    (args : list string) : params * list string :=
  match args with
  | [] => (ps, positional)
  | a :: rest =>
      if startsWithDash a then
        let colonIdx := indexOf colon a in
        if 0 <? colonIdx then
          parseNamedParams_go
            (setParam (drop_str 1 (take_str (Z.to_nat colonIdx) a))
                      (PText (drop_str (Z.to_nat (colonIdx + 1)) a)) ps)
            positional rest
        else
          match rest with
          | v :: rest' =>
              if negb (startsWithDash v)
              then parseNamedParams_go
                     (setParam (drop_str 1 a) (PText v) ps) positional rest'
              else parseNamedParams_go
                     (setParam (drop_str 1 a) PTrue ps) positional rest
          | [] =>
              parseNamedParams_go
                (setParam (drop_str 1 a) PTrue ps) positional rest
          end
      else parseNamedParams_go ps (positional ++ [a]) rest
  end.

Definition parseNamedParams (args : list string) : params * list string :=
  parseNamedParams_go ∅ [] args.

(** ** Pipeline and statement splitting *)

(** [segments.filter(Boolean)]. *)
Definition nonEmpty (l : list string) : list string :=
  filter (λ s, s ≠ "") l.

(** The loop of [parsePipeline]: the segments pushed from here on. *)
Fixpoint parsePipeline_go (inSingle inDouble : bool) (cur : string)
    (s : string) : list string :=
  match s with
  | "" => [trim (String.rev cur)]
  | String c s' =>
      if Ascii.eqb c squote && negb inDouble
      then parsePipeline_go (negb inSingle) inDouble (String c cur) s'
      else if Ascii.eqb c dquote && negb inSingle
      then parsePipeline_go inSingle (negb inDouble) (String c cur) s'
      else if Ascii.eqb c "|" && negb inSingle && negb inDouble
      then trim (String.rev cur) :: parsePipeline_go inSingle inDouble "" s'
      else parsePipeline_go inSingle inDouble (String c cur) s'
  end.

Definition parsePipeline (line : string) : list string :=
  nonEmpty (parsePipeline_go false false "" line).

(** The loop of [splitStatements]; [depth] counts the open braces and goes
    below zero on a closing brace too many. *)
Fixpoint splitStatements_go (inS inD : bool) (depth : Z) (cur : string)
    (s : string) : list string :=
  match s with
  | "" =>
      match trim (String.rev cur) with
      | "" => []
      | t => [t]
      end
  | String c s' =>
      if Ascii.eqb c squote && negb inD
      then splitStatements_go (negb inS) inD depth (String c cur) s'
      else if Ascii.eqb c dquote && negb inS
      then splitStatements_go inS (negb inD) depth (String c cur) s'
      else if Ascii.eqb c "{" && negb inS && negb inD
      then splitStatements_go inS inD (depth + 1) (String c cur) s'
      else if Ascii.eqb c "}" && negb inS && negb inD
      then splitStatements_go inS inD (depth - 1) (String c cur) s'
      else if Ascii.eqb c ";" && negb inS && negb inD && (depth =? 0)
      then trim (String.rev cur) :: splitStatements_go inS inD depth "" s'
      else splitStatements_go inS inD depth (String c cur) s'
  end.

Definition splitStatements (line : string) : list string :=
  nonEmpty (splitStatements_go false false 0 "" line).


(** ** The prompt line

    The markup [writePrompt(cmd)] sets as the [innerHTML] of the line it
    appends, with [state.cwd = cwd]. *)
Definition promptHtml (cwd cmd : string) : string :=
  "<span class=" +:+ dq +:+ "prompt-path" +:+ dq +:+ ">PS " +:+
  escHtml cwd +:+ "</span>" +:+
  "<span class=" +:+ dq +:+ "prompt-arrow" +:+ dq +:+ "> &gt; </span>" +:+
  "<span class=" +:+ dq +:+ "ps-cmdlet" +:+ dq +:+ ">" +:+
  escHtml cmd +:+ "</span>".

(** ** Going through the history

    The handlers of the ArrowUp and ArrowDown keys, when no list of
    suggestions is shown: the state of the history and the text of the
    input field afterwards.  [state.history[i] ?? ''] is the entry at [i],
    or the empty text when there is none. *)
Definition historyAt (h : list string) (i : Z) : string :=
  if i <? 0 then "" else default "" (h !! Z.to_nat i).

Definition historyUp (st : historyState) (input : string)
    : historyState * string :=
  if 0 <? historyIndex st then
    let i := historyIndex st - 1 in
    (mkHistory (history st) i, historyAt (history st) i)
  else (st, input).

Definition historyDown (st : historyState) (input : string)
    : historyState * string :=
  if historyIndex st <? Z.of_nat (length (history st)) - 1 then
    let i := historyIndex st + 1 in
    (mkHistory (history st) i, historyAt (history st) i)
  else (mkHistory (history st) (Z.of_nat (length (history st))), "").

(** ** The state of the interpreter

    [writeLine(text, cls)] appends a line to the output element; the output
    is the list of the lines appended, each with its class.  The state of
    the interpreter is [state.cwd], [state.variables], [vfs] and the
    output. *)

Record outLine : Set := mkLine {
  line_cls : string;
  line_text : string
}.

Record world : Type := mkWorld {
  w_cwd : string;
  w_variables : variables;
  w_vfs : store;
  w_output : list outLine
}.

Definition writeLine (text cls : string) (w : world) : world :=
  mkWorld (w_cwd w) (w_variables w) (w_vfs w)
          (w_output w ++ [mkLine cls text]).

Definition writeError (msg : string) (w : world) : world :=
  writeLine ("ERROR: " +:+ msg) "line-error" w.

Definition setCwd (p : string) (w : world) : world :=
  mkWorld p (w_variables w) (w_vfs w) (w_output w).

Definition setVfs (vfs : store) (w : world) : world :=
  mkWorld (w_cwd w) (w_variables w) vfs (w_output w).

(** [state.variables[name] = value] for a text [value]: the key
    [__proto__] is the accessor of [Object.prototype], and assigning a text
    to it changes nothing. *)
Definition setVariable (name value : string) (w : world) : world :=
  if String.eqb name "__proto__" then w
  else mkWorld (w_cwd w) (<[name := value]> (w_variables w)) (w_vfs w)
               (w_output w).

(** ** Cmdlets

    What the executor and the cmdlets below return and are given as the
    piped value: [null], a text, a number, an array of texts, or the
    property of [Object.prototype] of some name, which the executor can
    read through [state.variables]. *)
Inductive value : Set :=
  | VNull
  | VText (s : string)
  | VNum (n : num)
  | VArray (l : list string)
  | VInherited (name : string).

(** A cmdlet [(args, params, pipe) => ...] reads and writes the state;
    [None] is an exception thrown (a TypeError). *)
Abbreviation handler :=
  (list string → params → value → world → option (value * world)).

(** [a ?? b] where neither is [null]: [None] is [undefined]. *)
Definition orElse {A} (a b : option A) : option A :=
  match a with
  | Some _ => a
  | None => b
  end.

(** [args[i]]. *)
Definition argAt (args : list string) (i : nat) : option paramValue :=
  PText <$> args !! i.

(** [resolvePath(p)] for an argument that may be missing or the [true] of
    a switch: a missing argument is the working directory, and on [true]
    the call of [trim] throws. *)
Definition resolveArg (w : world) (p : option paramValue) : option string :=
  match p with
  | None => Some (normPath (w_cwd w))
  | Some (PText p) => Some (resolvePath (w_cwd w) p)
  | Some PTrue => None
  end.

(** The text of an argument in a concatenation. *)
Definition paramText (v : paramValue) : string :=
  match v with
  | PTrue => "true"
  | PText s => s
  end.

(** [s.slice(0, i)] for [-1 <= i]: with -1 the last character is
    dropped. *)
Definition sliceTo (i : Z) (s : string) : string :=
  if 0 <=? i then take_str (Z.to_nat i) s else drop_last s.

(** [Set-Location]. *)
Definition cmdSetLocation : handler := λ args ps _ w,
  let target :=
    default (PText (w_cwd w))
      (orElse (ps !! "path") (orElse (ps !! "literalpath") (argAt args 0))) in
  let target :=
    if decide (target = PText "~") then PText "C:\Users\PSUser" else target in
  let target :=
    if decide (target = PText "-") then PText (w_cwd w) else target in
  match resolveArg w (Some target) with
  | None => None
  | Some resolved =>
      if negb (fsExists resolved (w_vfs w)) then
        Some (VNull,
              writeError ("Cannot find path '" +:+ resolved +:+
                          "' because it does not exist.") w)
      else if negb (fsIsDir resolved (w_vfs w)) then
        Some (VNull, writeError ("'" +:+ resolved +:+ "' is not a directory.") w)
      else Some (VText resolved, setCwd resolved w)
  end.

(** [Remove-Item]. *)
Definition cmdRemoveItem : handler := λ args ps _ w,
  match resolveArg w (orElse (ps !! "path")
                        (orElse (ps !! "literalpath") (argAt args 0))) with
  | None => None
  | Some p =>
      if negb (fsExists p (w_vfs w)) then
        Some (VNull, writeError ("Cannot find path '" +:+ p +:+ "'.") w)
      else
        let recurse :=
          bool_decide (ps !! "recurse" = Some PTrue) ||
          bool_decide (ps !! "r" = Some PTrue) in
        if fsIsDir p (w_vfs w) && negb recurse &&
           (0 <? length (fsListDir p (w_vfs w)))%nat
        then
          Some (VNull,
                writeError ("Directory '" +:+ p +:+
                            "' is not empty. Use -Recurse to remove all items.")
                           w)
        else
          Some (VNull,
                writeLine ("Removed: " +:+ p) "line-success"
                  (setVfs (snd (fsDelete p (w_vfs w))) w))
  end.

(** [Rename-Item]. *)
Definition cmdRenameItem (now : string) : handler := λ args ps _ w,
  match resolveArg w (orElse (ps !! "path") (argAt args 0)) with
  | None => None
  | Some src =>
      match orElse (ps !! "newname") (argAt args 1) with
      | None | Some (PText "") =>
          Some (VNull, writeError "NewName parameter is required." w)
      | Some newName =>
          let parentDir := sliceTo (lastIndexOf backslash src) src in
          let dst := normPath (parentDir +:+ "\" +:+ paramText newName) in
          let '(ok, vfs') := fsMove now src dst (w_vfs w) in
          if negb ok then
            Some (VNull,
                  writeError ("Rename failed. '" +:+ src +:+ "' not found.") w)
          else
            Some (VNull,
                  writeLine ("Renamed to: " +:+ dst) "line-success"
                    (setVfs vfs' w))
      end
  end.

(** ** The command executor *)

(** The match of the assignment pattern: a dollar sign, an identifier,
    white space, an equals sign, white space, and the rest of the line,
    which has no line terminator: the name and the rest. *)
Definition assignMatch (line : string) : option (string * string) :=
  match matchBare line with
  | None => None
  | Some name =>
      match trimStart (drop_str (S (String.length name)) line) with
      | String "=" rest =>
          let expr := trimStart rest in
          if all_chars (λ c, negb (isLineTerminator c)) expr
          then Some (name, expr) else None
      | _ => None
      end
  end.

(** The test of the line before the arithmetic evaluator: a digit or an
    opening parenthesis first, and arithmetic characters only. *)
Definition arithLine (line : string) : bool :=
  match line with
  | String c _ => (isDigit c || Ascii.eqb c "(") && isArithText line
  | "" => false
  end.

(** [CMDLETS], the cmdlets by name in lower case, and [reg(names, fn)],
    for a list of names (none of the names of the source is
    [__proto__]). *)
Abbreviation registry := (gmap string handler).

Definition reg (names : list string) (fn : handler) (CMDLETS : registry)
    : registry :=
  fold_left (λ r n, <[toLowerCase n := fn]> r) names CMDLETS.

(** [state.variables[varName] ?? getBuiltinVar(varName)]: the value and
    its text [String(val)]; [None] is [undefined]. *)
Definition variableOrBuiltin (w : world) (varName : string)
    : option (value * string) :=
  match w_variables w !! varName with
  | Some v => Some (VText v, v)
  | None =>
      match inheritedText varName with
      | Some t => Some (VInherited varName, t)
      | None => (λ v, (VText v, v)) <$> getBuiltinVar (w_cwd w) varName
      end
  end.

(** The loop over the segments of a pipeline, from the piped value
    [pipeValue].  [CMDLETS] is an object literal: for a name that is no key
    of it, [CMDLETS[name]] is looked up in [Object.prototype], and of the
    names there two are in lower case: [constructor], which is the function
    [Object] and returns its first argument, the array of the positional
    arguments, and [__proto__], which is an object and no function, so
    that the call throws. *)
Fixpoint runSegments (CMDLETS : registry) (segments : list string)
    (pipeValue : value) (w : world) : option (value * world) :=
  match segments with
  | [] => Some (pipeValue, w)
  | s :: segments' =>
      let seg := trim (expandVariables (w_variables w) (w_cwd w) s) in
      if String.eqb seg "" then runSegments CMDLETS segments' pipeValue w
      else
        match parseArgs seg with
        | [] => runSegments CMDLETS segments' pipeValue w
        | raw0 :: restArgs =>
            let cmdName := toLowerCase raw0 in
            let '(ps, positional) := parseNamedParams restArgs in
            match CMDLETS !! cmdName with
            | Some fn =>
                match fn positional ps pipeValue w with
                | Some (v, w') => runSegments CMDLETS segments' v w'
                | None => None
                end
            | None =>
                if String.eqb cmdName "constructor" then
                  runSegments CMDLETS segments' (VArray positional) w
                else if String.eqb cmdName "__proto__" then None
                else
                let val :=
                  if startsWith "$" cmdName
                  then variableOrBuiltin w (drop_str 1 cmdName)
                  else None in
                match val with
                | Some (val, text) =>
                    runSegments CMDLETS segments' val
                      (writeLine text "line-output" w)
                | None =>
                    Some (VNull,
                          writeError
                            "Type 'Get-Help' for a list of available commands."
                            (writeError
                               ("The term '" +:+ raw0 +:+
                                "' is not recognized as a cmdlet, function, or operable program.")
                               w))
                end
            end
        end
  end.

(** [executeCommand(line)]; [None] is an exception thrown. *)
Definition executeCommand (B : builtins) (CMDLETS : registry)
    (line : string) (w : world) : option (value * world) :=
  if String.eqb (trim line) "" then Some (VNull, w)
  else
    let line := trim line in
    if startsWith "#" line then Some (VNull, w)
    else
      match assignMatch line with
      | Some (name, expr) =>
          match evalExpression B (w_variables w) (w_cwd w)
                  (expandVariables (w_variables w) (w_cwd w)
                     (stripQuotes (trim expr))) with
          | Some value => Some (VText value, setVariable name value w)
          | None => None
          end
      | None =>
          let n := safeArith line in
          if arithLine line && negb (isNaN n)
          then Some (VNum n, writeLine (numberToString B n) "line-output" w)
          else runSegments CMDLETS (parsePipeline line) VNull w
      end.


(** * Notions used in the statements *)

(** A fact about one character is checked on the 256 characters. *)
Ltac ascii_cases c := destruct c as [[] [] [] [] [] [] [] []].


(** No forward slash, and no two backslashes in a row. *)
Definition noSlash (s : string) : bool :=
  all_chars (λ c, negb (Ascii.eqb c slash)) s.

Fixpoint noDouble (s : string) : bool :=
  match s with
  | "" => true
  | String c s' =>
      match s' with
      | String c' _ =>
          negb (Ascii.eqb c backslash && Ascii.eqb c' backslash) && noDouble s'
      | "" => true
      end
  end.

(** The trailing separator is gone, or the text has at most three
    characters. *)
Definition trailingOk (s : string) : bool :=
  negb (endsWith_char backslash s && (3 <? String.length s)%nat).

(** The shape of a path in normal form. *)
Record normalForm (p : string) : Prop := {
  nf_noSlash : noSlash p = true;
  nf_noDouble : noDouble p = true;
  nf_trailing : trailingOk p = true;
  nf_drive : upperDrive p = p
}.

(** The root of a drive named by the sharp s: a path of three characters
    that becomes one of four when its drive letter is put in upper case. *)
Definition sharpRoot : string := String sharpS ":\".

(** The relative path of [n + 1] parent segments. *)
Fixpoint dotdots (n : nat) : string :=
  match n with
  | O => ".."
  | S n' => "..\" +:+ dotdots n'
  end.

(** The characters of a chain of parent segments. *)
Definition isDotOrSep (c : ascii) : bool :=
  Ascii.eqb c "." || Ascii.eqb c backslash.

(** The history without the entries equal to [cmd]. *)
Definition others (cmd : string) (h : list string) : list string :=
  filter (λ x, x ≠ cmd) h.

(** An identifier: a letter or an underscore, then word characters. *)
Definition isIdentifier (s : string) : bool :=
  match s with
  | String c r => isIdentStart c && all_chars isWord r
  | "" => false
  end.

(** A parse that returns, with tokens left that are no more than its
    input. *)
Definition returns (r : option (num * list token)) (toks : list token)
    : Prop :=
  ∃ v rest, r = Some (v, rest) ∧ (length rest ≤ length toks)%nat.

(** Induction over the derivation trees. *)
Scheme gExpr_mind := Induction for gExpr Sort Prop
  with gAddTail_mind := Induction for gAddTail Sort Prop
  with gTerm_mind := Induction for gTerm Sort Prop
  with gMulTail_mind := Induction for gMulTail Sort Prop
  with gFactor_mind := Induction for gFactor Sort Prop.

Combined Scheme grammar_mutind from
  gExpr_mind, gAddTail_mind, gTerm_mind, gMulTail_mind, gFactor_mind.

(** The next token does not continue a term, or an expression. *)
Definition stopsMul (rest : list token) : bool :=
  match rest with
  | TOp c :: _ => negb (Ascii.eqb c "*" || Ascii.eqb c "/" || Ascii.eqb c "%")
  | _ => true
  end.

Definition stopsAdd (rest : list token) : bool :=
  match rest with
  | TOp c :: _ => negb (Ascii.eqb c "+" || Ascii.eqb c "-")
  | _ => true
  end.

(** The four numeric comparison operators. *)
Definition isNumericCmp (op : cmpOp) : bool :=
  match op with
  | OpLt | OpGt | OpLe | OpGe => true
  | _ => false
  end.

(** The name of a comparison operator, in lower case. *)
Definition cmpOpName (op : cmpOp) : string :=
  match op with
  | OpEq => "-eq" | OpNe => "-ne" | OpLt => "-lt" | OpGt => "-gt"
  | OpLe => "-le" | OpGe => "-ge" | OpLike => "-like"
  | OpNotLike => "-notlike" | OpMatch => "-match" | OpContains => "-contains"
  end.

(** A word: one or more letters, digits and underscores. *)
Definition isWordText (s : string) : bool :=
  negb (String.eqb s "") && all_chars isWord s.

(** A factor that is a number literal, and a term that is one factor. *)
Definition gLit (z : Z) : gFactor := GNum (num_of_Z z).
Definition gOne (f : gFactor) : gTerm := GTerm f GMulNil.

(** The derivation trees of [2 + 3 * 4], [(1+2)*3] and [10 / 0]. *)
Definition tree_2_plus_3_times_4 : gExpr :=
  GExpr (gOne (gLit 2))
        (GAddCons Plus (GTerm (gLit 3) (GMulCons Times (gLit 4) GMulNil))
                  GAddNil).

Definition tree_1_plus_2_times_3 : gExpr :=
  GExpr (GTerm (GParen (GExpr (gOne (gLit 1))
                              (GAddCons Plus (gOne (gLit 2)) GAddNil)))
               (GMulCons Times (gLit 3) GMulNil))
        GAddNil.

Definition tree_10_div_0 : gExpr :=
  GExpr (GTerm (gLit 10) (GMulCons Divide (gLit 0) GMulNil)) GAddNil.

(** A time stamp, and one choice of the built-ins, for the closed
    statements; a numeric comparison consults neither of the built-ins. *)
Definition sampleNow : string := "2024-01-01T00:00:00.000Z".

Definition sampleBuiltins : builtins :=
  mkBuiltins (λ _ _, None) (λ _, "").

(** ** Notions used in the further statements *)

(** Every key of the store is a path in normal form: the text [normPath]
    gives for it is the key itself. *)
Definition allKeysNormal (vfs : store) : Prop :=
  ∀ k, is_Some (vfs !! k) → normPath k = k.

(** A name of one path segment: not empty, and without a separator. *)
Definition noBackslash (s : string) : bool :=
  all_chars (λ c, negb (Ascii.eqb c backslash)) s.

Definition isSegment (s : string) : bool :=
  negb (String.eqb s "") && all_chars (λ c, negb (isSep c)) s.

(** A plain name: a segment without a space, a quote or a colon, other than
    the two dot segments. *)
Definition isPlainChar (c : ascii) : bool :=
  negb (isSep c || isSpace c || isQuote c || Ascii.eqb c colon).

Definition isPlainName (s : string) : bool :=
  negb (String.eqb s "") && negb (String.eqb s ".") &&
  negb (String.eqb s "..") && all_chars isPlainChar s.

(** The key [fsCopy] writes. *)
Definition copyTarget (src dst : string) (vfs : store) : string :=
  if fsIsDir (normPath dst) vfs
  then normPath dst +:+ "\" +:+ baseName (normPath src)
  else normPath dst.

(** A bare word of a command line: not empty, without a space and without
    a quote. *)
Definition isBareChar (c : ascii) : bool :=
  negb (Ascii.eqb c " " || isQuote c).

Definition isBareWord (s : string) : bool :=
  negb (String.eqb s "") && all_chars isBareChar s.

(** The text has none of the character. *)
Definition lacks (c : ascii) (s : string) : bool :=
  all_chars (λ a, negb (Ascii.eqb a c)) s.

(** The text has no quote, and no quote and no brace. *)
Definition noQuote (s : string) : bool :=
  all_chars (λ c, negb (isQuote c)) s.

Definition noQuoteOrBrace (s : string) : bool :=
  all_chars (λ c, negb (isQuote c || Ascii.eqb c "{" || Ascii.eqb c "}")) s.

(** A key that comes from a dash argument: it is in lower case, it is not
    [__proto__], and some argument, in lower case, is a dash, the key and
    possibly more. *)
Definition keyOf (k : string) (args : list string) : Prop :=
  toLowerCase k = k ∧ k ≠ "__proto__" ∧
  ∃ a, a ∈ args ∧ startsWith ("-" +:+ k) (toLowerCase a) = true.

(** The entity of one character, and the text with every character
    replaced by its entity in one pass. *)
Definition escapeChar (c : ascii) : string :=
  if Ascii.eqb c "&" then "&amp;"
  else if Ascii.eqb c "<" then "&lt;"
  else if Ascii.eqb c ">" then "&gt;"
  else if Ascii.eqb c dquote then "&quot;"
  else if Ascii.eqb c squote then "&#39;"
  else String c "".

Fixpoint escapeAll (s : string) : string :=
  match s with
  | "" => ""
  | String c s' => escapeChar c +:+ escapeAll s'
  end.

(** The characters that open or close markup or an attribute value. *)
Definition isMarkupChar (c : ascii) : bool :=
  Ascii.eqb c "<" || Ascii.eqb c ">" || isQuote c.

(** The number of places of a text where a character satisfies [P]. *)
Fixpoint countChars (P : ascii → bool) (s : string) : nat :=
  match s with
  | "" => O
  | String c s' => ((if P c then 1 else 0) + countChars P s')%nat
  end.

(** A simple word of a command line: not empty, without white space, a
    quote, a dollar sign or a pipe. *)
Definition isSimpleChar (c : ascii) : bool :=
  negb (isSpace c || isQuote c || Ascii.eqb c "$" || Ascii.eqb c "|").

Definition isSimpleWord (s : string) : bool :=
  negb (String.eqb s "") && all_chars isSimpleChar s.

(** The characters of a line of simple words. *)
Definition isLineChar (c : ascii) : bool := isSimpleChar c || Ascii.eqb c " ".

(** The name of a command: a simple word that does not start like a comment
    or like an arithmetic expression. *)
Definition isCommandWord (s : string) : bool :=
  match s with
  | String c _ =>
      negb (isDigit c || Ascii.eqb c "(" || Ascii.eqb c "#") && isSimpleWord s
  | "" => false
  end.

(** The two lines written for a name that is no cmdlet. *)
Definition notRecognized (name : string) (w : world) : world :=
  writeError "Type 'Get-Help' for a list of available commands."
    (writeError ("The term '" +:+ name +:+
                 "' is not recognized as a cmdlet, function, or operable program.")
                w).

(** The registry of the cmdlets embedded here, registered as in the
    source, for the closed statements. *)
Definition sampleRegistry : registry :=
  reg ["Rename-Item"; "ren"; "rni"] (cmdRenameItem sampleNow)
    (reg ["Remove-Item"; "rm"; "del"; "ri"] cmdRemoveItem
       (reg ["Set-Location"; "cd"; "sl"] cmdSetLocation ∅)).

(** A state for the closed statements: the initial store, no variables and
    no output, in the home directory. *)
Definition sampleWorld : world :=
  mkWorld "C:\Users\PSUser" ∅ (initFS sampleNow) [].

(** * Examples *)

Example normPath_ex1 : normPath "c:/Users//PSUser/" = "C:\Users\PSUser".
Proof. reflexivity. Qed.
Example normPath_ex2 : normPath "C:\" = "C:\".
Proof. reflexivity. Qed.
Example toUpperCase1_ex :
  toUpperCase1 "c" = "C" ∧ toUpperCase1 "233" = String "201" "" ∧
  toUpperCase1 sharpS = "SS".
Proof. by vm_compute. Qed.
Example toLowerCase_ex : toLowerCase (String "201" "COLE") = String "233" "cole".
Proof. reflexivity. Qed.
Example normPath_ex3 : normPath (String sharpS ":\x\") = "SS:\x".
Proof. reflexivity. Qed.
Example resolvePath_ex1 :
  resolvePath "C:\Users\PSUser\Desktop" "..\Documents\.\notes.txt"
  = "C:\Users\PSUser\Documents\notes.txt".
Proof. reflexivity. Qed.
Example resolvePath_ex2 : resolvePath "C:\Users" ".." = "C:\Users".
Proof. reflexivity. Qed.

Example addHistory_ex :
  history (addHistory "ls" (mkHistory ["ls"; "pwd"; "ls"; "cd .."] 4))
  = ["pwd"; "cd .."; "ls"].
Proof. reflexivity. Qed.

Example expandVariables_ex :
  expandVariables {["x" := "1"]} "C:\Users" "a ${x} $x ${y} $y $pwd ${pwd}"
  = "a 1 1  $y C:\Users ".
Proof. reflexivity. Qed.

Example tokenize_ex :
  tokenize "2+(3)" = Some [TNum (num_of_Z 2); TOp "+"; TOp "(";
                           TNum (num_of_Z 3); TOp ")"].
Proof. reflexivity. Qed.

(** A parenthesis left open is accepted, a second number is not. *)
Example safeArith_ex1 : safeArith "(1+2" = num_of_Z 3.
Proof. reflexivity. Qed.
Example safeArith_ex2 : safeArith "2 3" = NaN.
Proof. reflexivity. Qed.
Example safeArith_ex3 : safeArith "- 7 % 3" = num_of_Z (-1).
Proof. reflexivity. Qed.

Example Number_ex :
  map Number ["12"; " 0x1F "; ""; "-0"; "abc"; "1e"; "12px"]
  = [num_of_Z 12; num_of_Z 31; S754_zero false; S754_zero true;
     NaN; NaN; NaN].
Proof. reflexivity. Qed.

Example cmpMatch_ex :
  cmpMatch "a -eq b -lt c" = Some ("a", OpEq, "b -lt c").
Proof. reflexivity. Qed.

Example evalExpression_ex :
  evalExpression sampleBuiltins ∅ "C:\Users" "5 -gt 3" = Some "true".
Proof. reflexivity. Qed.

(** * Properties *)

(** ** Strings *)

Section StringFacts.

Implicit Types (s t u : string) (c a : ascii).

Lemma str_app_nil_l s : "" +:+ s = s.
Proof. reflexivity. Qed.

Lemma str_app_cons c s t : String c s +:+ t = String c (s +:+ t).
Proof. reflexivity. Qed.

Lemma str_app_nil_r s : s +:+ "" = s.
Proof. induction s as [|c s IH]; [done|]. by rewrite str_app_cons, IH. Qed.

Lemma str_app_assoc s t u : (s +:+ t) +:+ u = s +:+ t +:+ u.
Proof. induction s as [|c s IH]; [done|]. by rewrite !str_app_cons, IH. Qed.

Lemma str_length_app s t :
  String.length (s +:+ t) = (String.length s + String.length t)%nat.
Proof. induction s as [|c s IH]; [done|]. rewrite str_app_cons. simpl. lia. Qed.

Lemma eqb_refl_true s : String.eqb s s = true.
Proof. apply String.eqb_refl. Qed.

Lemma startsWith_app t u : startsWith t (t +:+ u) = true.
Proof.
  unfold startsWith. induction t as [|c t IH]; simpl.
  - by destruct u.
  - destruct (ascii_dec c c); [apply IH|done].
Qed.

Lemma startsWith_inv t s : startsWith t s = true → ∃ u, s = t +:+ u.
Proof.
  unfold startsWith. revert s. induction t as [|c t IH]; intros s H.
  - by exists s.
  - destruct s as [|a s]; simpl in H; [done|].
    destruct (ascii_dec c a) as [->|]; [|done].
    destruct (IH _ H) as [u ->]. by exists u.
Qed.


Lemma startsWith_refl s : startsWith s s = true.
Proof. rewrite <- (str_app_nil_r s) at 2. apply startsWith_app. Qed.

Lemma take_str_app s t : take_str (String.length s) (s +:+ t) = s.
Proof.
  induction s as [|c s IH]; simpl.
  - by destruct t.
  - by rewrite IH.
Qed.

Lemma take_str_prefix n s : startsWith (take_str n s) s = true.
Proof.
  unfold startsWith. revert s. induction n as [|n IH]; intros [|c s]; simpl; try done.
  destruct (ascii_dec c c); [apply IH|done].
Qed.


Lemma all_chars_app P s t :
  all_chars P (s +:+ t) = all_chars P s && all_chars P t.
Proof.
  induction s as [|c s IH]; [done|].
  rewrite str_app_cons. simpl. by rewrite IH, andb_assoc.
Qed.

Lemma all_chars_impl (P Q : ascii → bool) s :
  (∀ c, P c = true → Q c = true) → all_chars P s = true → all_chars Q s = true.
Proof.
  intros HPQ. induction s as [|c s IH]; simpl; [done|].
  intros [? ?]%andb_true_iff. rewrite HPQ, IH; done.
Qed.

(** [lastIndexOf] *)

Lemma lastIndexOf_lower c s : -1 ≤ lastIndexOf c s.
Proof.
  induction s as [|a s IH]; simpl; [lia|].
  destruct (0 <=? lastIndexOf c s) eqn:E; [apply Z.leb_le in E; lia|].
  destruct (Ascii.eqb a c); lia.
Qed.


Lemma lastIndexOf_app c s t :
  lastIndexOf c (s +:+ t) =
    if 0 <=? lastIndexOf c t
    then Z.of_nat (String.length s) + lastIndexOf c t
    else lastIndexOf c s.
Proof.
  induction s as [|a s IH].
  - rewrite str_app_nil_l. simpl.
    destruct (0 <=? lastIndexOf c t) eqn:E; [lia|].
    apply Z.leb_gt in E. pose proof (lastIndexOf_lower c t). lia.
  - rewrite str_app_cons. simpl lastIndexOf. rewrite IH.
    destruct (0 <=? lastIndexOf c t) eqn:E.
    + apply Z.leb_le in E.
      replace (0 <=? Z.of_nat (String.length s) + lastIndexOf c t) with true
        by (symmetry; apply Z.leb_le; lia).
      simpl String.length. lia.
    + done.
Qed.


End StringFacts.

(** ** Path normalisation *)

Section NormPath.

Implicit Types (s t p : string) (c : ascii).

Lemma replaceSlashes_noSlash s : noSlash (replaceSlashes s) = true.
Proof.
  induction s as [|c s IH]; simpl; [done|].
  apply andb_true_iff; split; [|apply IH].
  destruct (Ascii.eqb c slash) eqn:E; [done|]. by rewrite E.
Qed.

Lemma replaceSlashes_id s : noSlash s = true → replaceSlashes s = s.
Proof.
  induction s as [|c s IH]; simpl; [done|].
  intros [Hc Hs]%andb_true_iff. rewrite IH by done.
  by destruct (Ascii.eqb c slash).
Qed.

Lemma collapse_head c s :
  ∃ t, collapseBackslashes (String c s) = String c t.
Proof.
  revert c. induction s as [|c' s IH]; intros c; simpl; [by eexists|].
  destruct (Ascii.eqb c backslash && Ascii.eqb c' backslash) eqn:E.
  - apply andb_true_iff in E as [->%Ascii.eqb_eq ->%Ascii.eqb_eq].
    apply (IH backslash).
  - by eexists.
Qed.

Lemma collapse_noSlash s :
  noSlash s = true → noSlash (collapseBackslashes s) = true.
Proof.
  induction s as [|c s IH]; [done|].
  intros H. pose proof H as [Hc Hs]%andb_true_iff.
  destruct s as [|c' s]; [done|].
  change (collapseBackslashes (String c (String c' s))) with
    (if Ascii.eqb c backslash && Ascii.eqb c' backslash
     then collapseBackslashes (String c' s)
     else String c (collapseBackslashes (String c' s))).
  destruct (Ascii.eqb c backslash && Ascii.eqb c' backslash); [by apply IH|].
  change (negb (Ascii.eqb c slash) && noSlash (collapseBackslashes (String c' s)) = true).
  by rewrite Hc, IH.
Qed.

Lemma collapse_noDouble s : noDouble (collapseBackslashes s) = true.
Proof.
  induction s as [|c s IH]; [done|].
  destruct s as [|c' s]; [done|].
  change (collapseBackslashes (String c (String c' s))) with
    (if Ascii.eqb c backslash && Ascii.eqb c' backslash
     then collapseBackslashes (String c' s)
     else String c (collapseBackslashes (String c' s))).
  destruct (Ascii.eqb c backslash && Ascii.eqb c' backslash) eqn:E; [done|].
  destruct (collapse_head c' s) as [t Ht]. rewrite Ht in IH |- *.
  change (negb (Ascii.eqb c backslash && Ascii.eqb c' backslash)
          && noDouble (String c' t) = true).
  by rewrite E, IH.
Qed.

Lemma collapse_id s : noDouble s = true → collapseBackslashes s = s.
Proof.
  induction s as [|c s IH]; [done|].
  destruct s as [|c' s]; [done|].
  change (noDouble (String c (String c' s))) with
    (negb (Ascii.eqb c backslash && Ascii.eqb c' backslash)
     && noDouble (String c' s)).
  intros [E H]%andb_true_iff. apply negb_true_iff in E.
  change (collapseBackslashes (String c (String c' s))) with
    (if Ascii.eqb c backslash && Ascii.eqb c' backslash
     then collapseBackslashes (String c' s)
     else String c (collapseBackslashes (String c' s))).
  by rewrite E, IH.
Qed.

Lemma collapse_nonempty c s : collapseBackslashes (String c s) ≠ "".
Proof. by destruct (collapse_head c s) as [t ->]. Qed.

Lemma drop_last_noSlash s : noSlash s = true → noSlash (drop_last s) = true.
Proof.
  induction s as [|c s IH]; [done|].
  intros [Hc Hs]%andb_true_iff. destruct s as [|c' s]; [done|].
  change (negb (Ascii.eqb c slash) && noSlash (drop_last (String c' s)) = true).
  by rewrite Hc, IH.
Qed.

Lemma drop_last_noDouble s : noDouble s = true → noDouble (drop_last s) = true.
Proof.
  induction s as [|c s IH]; [done|].
  destruct s as [|c' s]; [done|].
  change (noDouble (String c (String c' s))) with
    (negb (Ascii.eqb c backslash && Ascii.eqb c' backslash)
     && noDouble (String c' s)).
  intros [E H]%andb_true_iff.
  destruct s as [|c'' s]; [done|].
  change (drop_last (String c (String c' (String c'' s)))) with
    (String c (String c' (drop_last (String c'' s)))).
  change (negb (Ascii.eqb c backslash && Ascii.eqb c' backslash)
          && noDouble (String c' (drop_last (String c'' s))) = true).
  rewrite E. by apply IH.
Qed.

(** After the last character of a text without doubled backslashes that
    ends in a backslash is dropped, the text does not end in a backslash. *)
Lemma drop_last_trailing s :
  noDouble s = true → endsWith_char backslash s = true →
  endsWith_char backslash (drop_last s) = false.
Proof.
  unfold endsWith_char.
  induction s as [|c s IH]; [done|].
  destruct s as [|c' s]; [done|].
  change (noDouble (String c (String c' s))) with
    (negb (Ascii.eqb c backslash && Ascii.eqb c' backslash)
     && noDouble (String c' s)).
  intros [E H]%andb_true_iff. apply negb_true_iff in E.
  destruct s as [|c'' s].
  - simpl. intros Hc'. rewrite Hc' in E. by rewrite andb_true_r in E.
  - intros Hl. by apply IH.
Qed.

Lemma stripTrailing_ok s :
  noDouble s = true → trailingOk (stripTrailing s) = true.
Proof.
  intros H. unfold stripTrailing, trailingOk.
  destruct (endsWith_char backslash s && (3 <? String.length s)%nat) eqn:E.
  - apply andb_true_iff in E as [E _].
    by rewrite drop_last_trailing.
  - by rewrite E.
Qed.

Lemma stripTrailing_id s : trailingOk s = true → stripTrailing s = s.
Proof.
  unfold stripTrailing, trailingOk. intros H%negb_true_iff. by rewrite H.
Qed.

Lemma stripTrailing_noSlash s :
  noSlash s = true → noSlash (stripTrailing s) = true.
Proof.
  unfold stripTrailing. intros.
  destruct (_ && _); [by apply drop_last_noSlash|done].
Qed.

Lemma stripTrailing_noDouble s :
  noDouble s = true → noDouble (stripTrailing s) = true.
Proof.
  unfold stripTrailing. intros.
  destruct (_ && _); [by apply drop_last_noDouble|done].
Qed.


(** The case map and the separators. *)
Lemma toUpperChar_idem c : toUpperChar (toUpperChar c) = toUpperChar c.
Proof. by ascii_cases c. Qed.

Lemma toUpperChar_slash c :
  Ascii.eqb (toUpperChar c) slash = Ascii.eqb c slash.
Proof. by ascii_cases c. Qed.

Lemma toUpperChar_backslash c :
  Ascii.eqb (toUpperChar c) backslash = Ascii.eqb c backslash.
Proof. by ascii_cases c. Qed.

Lemma toUpperChar_sharpS c :
  Ascii.eqb (toUpperChar c) sharpS = Ascii.eqb c sharpS.
Proof. by ascii_cases c. Qed.

Lemma upperDrive_cons c0 c1 r :
  upperDrive (String c0 (String c1 r)) =
    if Ascii.eqb c1 colon then
      if Ascii.eqb c0 sharpS then String "S" (String "S" (String c1 r))
      else String (toUpperChar c0) (String c1 r)
    else String c0 (String c1 r).
Proof.
  unfold upperDrive, toUpperCase1.
  by destruct (Ascii.eqb c1 colon), (Ascii.eqb c0 sharpS).
Qed.

Lemma upperDrive_idem s : upperDrive (upperDrive s) = upperDrive s.
Proof.
  destruct s as [|c0 [|c1 r]]; try done. rewrite upperDrive_cons.
  destruct (Ascii.eqb c1 colon) eqn:E.
  - destruct (Ascii.eqb c0 sharpS) eqn:E0; [done|].
    by rewrite upperDrive_cons, E, toUpperChar_sharpS, E0, toUpperChar_idem.
  - by rewrite upperDrive_cons, E.
Qed.

Lemma upperDrive_noSlash s : noSlash (upperDrive s) = noSlash s.
Proof.
  destruct s as [|c0 [|c1 r]]; try done. rewrite upperDrive_cons.
  destruct (Ascii.eqb c1 colon); [|done].
  destruct (Ascii.eqb c0 sharpS) eqn:E0.
  - apply Ascii.eqb_eq in E0 as ->. done.
  - unfold noSlash. cbn [all_chars]. by rewrite toUpperChar_slash.
Qed.

Lemma upperDrive_noDouble s : noDouble (upperDrive s) = noDouble s.
Proof.
  destruct s as [|c0 [|c1 r]]; try done. rewrite upperDrive_cons.
  destruct (Ascii.eqb c1 colon) eqn:E; [|done].
  destruct (Ascii.eqb c0 sharpS) eqn:E0.
  - apply Ascii.eqb_eq in E0 as ->. apply Ascii.eqb_eq in E as ->. done.
  - cbn [noDouble]. by rewrite toUpperChar_backslash.
Qed.

(** The upper-case form of the sharp s makes the text longer by one
    character: a text of three characters that ends in a backslash becomes
    one of four. *)
Lemma upperDrive_trailingOk s :
  trailingOk s = true → upperDrive s ≠ "SS:\" →
  trailingOk (upperDrive s) = true.
Proof.
  destruct s as [|c0 [|c1 r]]; try done. rewrite upperDrive_cons.
  destruct (Ascii.eqb c1 colon) eqn:E; [|done].
  destruct (Ascii.eqb c0 sharpS) eqn:E0; [|done].
  apply Ascii.eqb_eq in E as ->.
  destruct r as [|c2 [|c3 r]]; try done.
  intros _ Hne. unfold trailingOk, endsWith_char. simpl.
  destruct (Ascii.eqb c2 backslash) eqn:E2; [|done].
  apply Ascii.eqb_eq in E2 as ->. done.
Qed.


(** What [normPath] gives has no slash and no doubled backslash, and its
    drive letter is in upper case. *)
Lemma normPath_noSlash p : noSlash (normPath p) = true.
Proof.
  destruct p as [|c p]; [done|]. unfold normPath.
  rewrite upperDrive_noSlash.
  apply stripTrailing_noSlash, collapse_noSlash, replaceSlashes_noSlash.
Qed.

Lemma normPath_noDouble p : noDouble (normPath p) = true.
Proof.
  destruct p as [|c p]; [done|]. unfold normPath.
  rewrite upperDrive_noDouble.
  apply stripTrailing_noDouble, collapse_noDouble.
Qed.

Lemma normPath_drive p : upperDrive (normPath p) = normPath p.
Proof. destruct p as [|c p]; [done|]. apply upperDrive_idem. Qed.

(** It is in normal form unless it is the text [SS:\], which comes from
    the sharp s as a drive letter before a colon and a backslash. *)
Lemma normPath_normalForm p : normPath p ≠ "SS:\" → normalForm (normPath p).
Proof.
  intros Hp. split.
  - apply normPath_noSlash.
  - apply normPath_noDouble.
  - destruct p as [|c p]; [done|]. unfold normPath in *.
    apply upperDrive_trailingOk; [|done].
    apply stripTrailing_ok, collapse_noDouble.
  - apply normPath_drive.
Qed.

Lemma normalForm_fixed p : normalForm p → normPath p = p.
Proof.
  intros [H1 H2 H3 H4]. destruct p as [|c p]; [done|].
  unfold normPath.
  by rewrite replaceSlashes_id, collapse_id, stripTrailing_id.
Qed.

Lemma normPath_fixed_normalForm p : normPath p = p → normalForm p.
Proof.
  intros H. rewrite <- H. apply normPath_normalForm.
  rewrite H. intros ->. discriminate H.
Qed.

Lemma normPath_idem p :
  normPath p ≠ "SS:\" → normPath (normPath p) = normPath p.
Proof. intros. by apply normalForm_fixed, normPath_normalForm. Qed.



End NormPath.

(** ** Path resolution *)

Section ResolvePath.

Implicit Types (s t base cwd : string) (c : ascii).

Lemma resolveStep_dotdot base :
  resolveStep base ".." =
    if 2 <? lastIndexOf backslash base
    then take_str (Z.to_nat (lastIndexOf backslash base)) base
    else base.
Proof. reflexivity. Qed.

Lemma resolveStep_a base : resolveStep base "a" = base +:+ "\a".
Proof. reflexivity. Qed.

Lemma lastIndexOf_pushed base :
  lastIndexOf backslash (base +:+ "\a") = Z.of_nat (String.length base).
Proof. rewrite lastIndexOf_app. simpl. lia. Qed.

(** Appending a segment and popping it gives the base back when the base has
    more than two characters, and pops nothing otherwise. *)
Lemma resolve_push_pop cwd :
  resolvePath cwd "a\.." =
    if (2 <? String.length cwd)%nat then normPath cwd
    else normPath (cwd +:+ "\a").
Proof.
  change (resolvePath cwd "a\..")
    with (normPath (resolveStep (resolveStep cwd "a") "..")).
  rewrite resolveStep_a, resolveStep_dotdot, lastIndexOf_pushed.
  destruct (2 <? String.length cwd)%nat eqn:E.
  - apply Nat.ltb_lt in E.
    replace (2 <? Z.of_nat (String.length cwd)) with true
      by (symmetry; apply Z.ltb_lt; lia).
    by rewrite Nat2Z.id, take_str_app.
  - apply Nat.ltb_ge in E.
    replace (2 <? Z.of_nat (String.length cwd)) with false
      by (symmetry; apply Z.ltb_ge; lia).
    done.
Qed.








(** The text of [dotdots n] goes through the preparation of [resolvePath]
    unchanged, and splits into [n + 1] parent segments. *)
Lemma dotdots_chars n : all_chars isDotOrSep (dotdots n) = true.
Proof. induction n as [|n IH]; [done|]. simpl. exact IH. Qed.

Lemma last_char_all P s c :
  all_chars P s = true → last_char s = Some c → P c = true.
Proof.
  induction s as [|a s IH]; [done|].
  intros [Ha Hs]%andb_true_iff.
  destruct s as [|a' s]; [by intros [= <-]|].
  intros Hl. by apply IH.
Qed.

Lemma trimEnd_id s :
  all_chars (λ c, negb (isSpace c)) s = true → trimEnd s = s.
Proof.
  induction s as [|c s IH]; [done|].
  intros [Hc Hs]%andb_true_iff. simpl. rewrite IH by done.
  apply negb_true_iff in Hc. rewrite Hc. by destruct s.
Qed.

Lemma trim_id c s :
  isSpace c = false → all_chars (λ c, negb (isSpace c)) s = true →
  trim (String c s) = String c s.
Proof.
  intros Hc Hs. unfold trim. simpl trimStart. rewrite Hc.
  apply trimEnd_id. simpl. by rewrite Hc.
Qed.

Lemma stripQuotes_id c s :
  isQuote c = false → all_chars (λ c, negb (isQuote c)) s = true →
  stripQuotes (String c s) = String c s.
Proof.
  intros Hc Hs. unfold stripQuotes. rewrite Hc.
  destruct (last_char (String c s)) as [a|] eqn:E; [|done].
  assert (negb (isQuote a) = true) as Ha.
  { eapply (last_char_all (λ c, negb (isQuote c))); [|exact E].
    simpl. by rewrite Hc. }
  apply negb_true_iff in Ha. by rewrite Ha.
Qed.

Lemma splitPath_dotdots n : splitPath (dotdots n) = repeat ".." (S n).
Proof.
  unfold splitPath. induction n as [|n IH]; [done|].
  change (split_go "" (dotdots (S n))) with (".." :: split_go "" (dotdots n)).
  by rewrite IH.
Qed.

Lemma prepare_dotdots n : stripQuotes (trim (dotdots n)) = dotdots n.
Proof.
  assert (∃ s, dotdots n = String "." s ∧
               all_chars isDotOrSep s = true) as (s & -> & Hall).
  { pose proof (dotdots_chars n) as H. destruct n; simpl in *; eauto. }
  rewrite trim_id, stripQuotes_id; try done.
  all: eapply all_chars_impl; [|exact Hall].
  all: intros c; by ascii_cases c.
Qed.

Lemma resolvePath_dotdots cwd n :
  resolvePath cwd (dotdots n) =
    normPath (fold_left resolveStep (repeat ".." (S n)) cwd).
Proof.
  unfold resolvePath.
  assert (String.eqb (dotdots n) "" || String.eqb (dotdots n) "." = false) as ->.
  { destruct n; done. }
  rewrite prepare_dotdots.
  assert (isAbsolute (dotdots n) = false) as -> by (by destruct n).
  by rewrite splitPath_dotdots.
Qed.


End ResolvePath.

(** ** Virtual filesystem *)

Section Vfs.

Implicit Types (vfs : store) (p k src dst now : string) (n : node).

(** The names of the prototype are made of letters and underscores: a
    key with a backslash or a colon is none of them. *)
Lemma inherited_word k : inherited k = true → all_chars isWord k = true.
Proof.
  unfold inherited. rewrite bool_decide_eq_true. unfold objectPrototypeNames.
  rewrite !elem_of_cons, elem_of_nil.
  intros H. repeat (destruct H as [->|H]; [done|]). done.
Qed.

Lemma inheritedText_None k : inheritedText k = None ↔ inherited k = false.
Proof.
  unfold inheritedText.
  destruct (String.eqb k "__proto__") eqn:E1.
  { apply String.eqb_eq in E1 as ->. done. }
  destruct (String.eqb k "constructor") eqn:E2.
  { apply String.eqb_eq in E2 as ->. done. }
  by destruct (inherited k).
Qed.

(** [k in vfs] and [vfs[k] = n]. *)
Lemma hasKey_own k vfs : is_Some (vfs !! k) → hasKey k vfs = true.
Proof. intros H. unfold hasKey. by rewrite bool_decide_eq_true_2. Qed.

Lemma hasKey_false k vfs :
  hasKey k vfs = false ↔ vfs !! k = None ∧ inherited k = false.
Proof.
  unfold hasKey. rewrite orb_false_iff, bool_decide_eq_false.
  by rewrite <- eq_None_not_Some.
Qed.

Lemma hasKey_true k vfs :
  hasKey k vfs = true ↔ is_Some (vfs !! k) ∨ inherited k = true.
Proof. unfold hasKey. by rewrite orb_true_iff, bool_decide_eq_true. Qed.

Lemma assign_ne k n vfs : k ≠ "__proto__" → assign k n vfs = <[k := n]> vfs.
Proof. intros H. unfold assign. rewrite decide_False; [done|]. tauto. Qed.

Lemma assign_own k n vfs :
  is_Some (vfs !! k) → assign k n vfs = <[k := n]> vfs.
Proof.
  intros [m Hm]. unfold assign. rewrite decide_False; [done|].
  rewrite Hm. by intros [_ ?].
Qed.

Lemma assign_fresh k n vfs :
  hasKey k vfs = false → assign k n vfs = <[k := n]> vfs.
Proof.
  intros [_ H]%hasKey_false. apply assign_ne. intros ->. done.
Qed.

Lemma lookup_assign_ne k k' n vfs :
  k' ≠ k → assign k n vfs !! k' = vfs !! k'.
Proof.
  intros H. unfold assign. destruct (decide _); [done|].
  by rewrite lookup_insert_ne.
Qed.


(** The lookups of the already normalised path, when [normPath] leaves
    it as it is. *)
Lemma fsExists_norm p vfs :
  normPath (normPath p) = normPath p →
  fsExists (normPath p) vfs = fsExists p vfs.
Proof. intros H. unfold fsExists. by rewrite H. Qed.

Lemma fsIsDir_norm p vfs :
  normPath (normPath p) = normPath p →
  fsIsDir (normPath p) vfs = fsIsDir p vfs.
Proof. intros H. unfold fsIsDir. by rewrite H. Qed.

Lemma fsIsFile_norm p vfs :
  normPath (normPath p) = normPath p →
  fsIsFile (normPath p) vfs = fsIsFile p vfs.
Proof. intros H. unfold fsIsFile. by rewrite H. Qed.

Lemma fsExists_true p vfs :
  fsExists p vfs = true ↔
  is_Some (vfs !! normPath p) ∨ inherited (normPath p) = true.
Proof. apply hasKey_true. Qed.

Lemma fsExists_false p vfs :
  fsExists p vfs = false ↔
  vfs !! normPath p = None ∧ inherited (normPath p) = false.
Proof. apply hasKey_false. Qed.

Lemma fsExists_own p vfs : is_Some (vfs !! normPath p) → fsExists p vfs = true.
Proof. apply hasKey_own. Qed.

Lemma fsIsFile_true p vfs :
  fsIsFile p vfs = true ↔ ∃ n, vfs !! normPath p = Some n ∧ type n = Some File.
Proof.
  unfold fsIsFile. destruct (vfs !! normPath p) as [n|].
  - rewrite bool_decide_eq_true. split; [eauto|]. by intros (? & [= <-] & ?).
  - split; [done|]. by intros (? & ? & ?).
Qed.

Lemma fsIsDir_true p vfs :
  fsIsDir p vfs = true ↔ ∃ n, vfs !! normPath p = Some n ∧ type n = Some Dir.
Proof.
  unfold fsIsDir. destruct (vfs !! normPath p) as [n|].
  - rewrite bool_decide_eq_true. split; [eauto|]. by intros (? & [= <-] & ?).
  - split; [done|]. by intros (? & ? & ?).
Qed.

(** *** Writing *)

Lemma fsWriteFile_replace now p c vfs :
  fsWriteFile now p c false vfs =
    assign (normPath p)
      (mkNode (Some File) (Some c)
         (Some (default now (vfs !! normPath p ≫= created))) now) vfs.
Proof. reflexivity. Qed.

Lemma fsWriteFile_append_file now p c vfs n :
  normPath (normPath p) = normPath p →
  vfs !! normPath p = Some n → type n = Some File →
  fsWriteFile now p c true vfs =
    <[normPath p := appendContent now c n]> vfs.
Proof.
  intros Hp Hn Ht. unfold fsWriteFile.
  rewrite fsIsFile_norm by done.
  assert (fsIsFile p vfs = true) as -> by (apply fsIsFile_true; eauto).
  simpl. apply map_eq. intros k.
  destruct (decide (k = normPath p)) as [->|Hk].
  - by rewrite lookup_alter_eq, lookup_insert_eq, Hn.
  - by rewrite lookup_alter_ne, lookup_insert_ne.
Qed.

Lemma fsWriteFile_append_other now p c vfs :
  fsIsFile (normPath p) vfs = false →
  fsWriteFile now p c true vfs = fsWriteFile now p c false vfs.
Proof. intros H. unfold fsWriteFile. by rewrite H. Qed.

Lemma read_after_write now p x vfs :
  normPath p ≠ "__proto__" →
  fsGetContent p (fsWriteFile now p x false vfs) = x.
Proof.
  intros Hp. rewrite fsWriteFile_replace, assign_ne by done.
  unfold fsGetContent. by rewrite lookup_insert_eq.
Qed.

Lemma read_after_append now1 now2 p x y vfs :
  normPath (normPath p) = normPath p → normPath p ≠ "__proto__" →
  fsGetContent p (fsWriteFile now2 p y true (fsWriteFile now1 p x false vfs))
  = x +:+ y.
Proof.
  intros Hst Hp. rewrite fsWriteFile_replace, assign_ne by done.
  erewrite fsWriteFile_append_file;
    [|done|apply lookup_insert_eq|done].
  unfold fsGetContent. by rewrite lookup_insert_eq.
Qed.

(** *** Deleting *)

Lemma fsDelete_missing p vfs :
  fsExists (normPath p) vfs = false → fsDelete p vfs = (false, vfs).
Proof. intros H. unfold fsDelete. by rewrite H. Qed.

Lemma fsDelete_dir p vfs :
  normPath (normPath p) = normPath p → fsIsDir p vfs = true →
  fsDelete p vfs = (true, filter (λ kv, ¬ underDir (normPath p) kv.1) vfs).
Proof.
  intros Hp H. unfold fsDelete.
  rewrite fsExists_norm, fsIsDir_norm, H by done.
  assert (fsExists p vfs = true) as ->; [|done].
  apply fsExists_own. apply fsIsDir_true in H as (n & -> & _). eauto.
Qed.

Lemma fsDelete_file p vfs :
  normPath (normPath p) = normPath p →
  fsExists p vfs = true → fsIsDir p vfs = false →
  fsDelete p vfs = (true, delete (normPath p) vfs).
Proof.
  intros Hp H1 H2. unfold fsDelete.
  by rewrite fsExists_norm, fsIsDir_norm, H1, H2.
Qed.

Lemma lookup_delete_dir d vfs k :
  filter (λ kv : string * node, ¬ underDir d kv.1) vfs !! k =
    if decide (underDir d k) then None else vfs !! k.
Proof.
  rewrite map_lookup_filter. destruct (vfs !! k) as [n|] eqn:E; simpl.
  - destruct (decide (underDir d k)).
    + rewrite option_guard_False; [done|]. simpl. tauto.
    + by rewrite option_guard_True.
  - by destruct (decide (underDir d k)).
Qed.

(** *** Copying and moving *)

Lemma fsIsFile_exists p vfs : fsIsFile p vfs = true → fsExists p vfs = true.
Proof. intros (n & Hn & _)%fsIsFile_true. apply fsExists_own. eauto. Qed.

Lemma fsCopy_fails now src dst vfs :
  fst (fsCopy now src dst vfs) = false ↔ fsIsFile (normPath src) vfs = false.
Proof.
  unfold fsCopy.
  destruct (fsIsFile (normPath src) vfs) eqn:Hf.
  - rewrite (fsIsFile_exists _ _ Hf). done.
  - by destruct (negb _).
Qed.

Lemma fsCopy_failed_store now src dst vfs :
  fst (fsCopy now src dst vfs) = false → snd (fsCopy now src dst vfs) = vfs.
Proof.
  unfold fsCopy. destruct (negb _); [done|].
  by destruct (fsIsFile _ _).
Qed.

Lemma fsIsFile_false p vfs :
  fsExists p vfs = false ∨ fsIsDir p vfs = true → fsIsFile p vfs = false.
Proof.
  unfold fsIsFile, fsIsDir.
  intros [[H _]%fsExists_false|H]; [by rewrite H|].
  destruct (vfs !! normPath p) as [n|]; [|done].
  apply bool_decide_eq_true in H. apply bool_decide_eq_false. by rewrite H.
Qed.

End Vfs.

(** ** History *)

Section History.

Implicit Types (cmd : string) (h l : list string) (st : historyState).

Lemma others_not_elem cmd h : cmd ∉ others cmd h.
Proof. unfold others. rewrite list_elem_of_filter. by intros [? _]. Qed.

Lemma others_length cmd h : (length (others cmd h) ≤ length h)%nat.
Proof. apply length_filter. Qed.

Lemma others_length_present cmd h :
  cmd ∈ h → (length (others cmd h) < length h)%nat.
Proof. intros H. eapply length_filter_lt; [exact H|]. by intros []. Qed.

Lemma others_sublist cmd h : others cmd h `sublist_of` h.
Proof. apply sublist_filter. Qed.

Lemma tail_snoc l cmd : l ≠ [] → tail (l ++ [cmd]) = tail l ++ [cmd].
Proof. by destruct l. Qed.

Lemma addHistory_blank cmd st : trim cmd = "" → addHistory cmd st = st.
Proof. intros H. unfold addHistory. by rewrite H. Qed.

Lemma addHistory_history cmd st :
  trim cmd ≠ "" →
  history (addHistory cmd st) =
    (if (HISTORY_MAX <? length (others cmd (history st) ++ [cmd]))%nat
     then tail (others cmd (history st) ++ [cmd])
     else others cmd (history st) ++ [cmd]).
Proof.
  intros H. unfold addHistory.
  destruct (String.eqb (trim cmd) "") eqn:E; [by apply String.eqb_eq in E|].
  done.
Qed.

Lemma addHistory_shape cmd st :
  (length (history st) ≤ HISTORY_MAX)%nat → trim cmd ≠ "" →
  ∃ l, history (addHistory cmd st) = l ++ [cmd] ∧
       (l = others cmd (history st) ∨ l = tail (others cmd (history st))) ∧
       (length l < HISTORY_MAX)%nat.
Proof.
  intros Hlen Hcmd. rewrite addHistory_history by done.
  pose proof (others_length cmd (history st)) as Hle.
  rewrite length_app. simpl length.
  destruct (HISTORY_MAX <? _)%nat eqn:E.
  - apply Nat.ltb_lt in E.
    destruct (others cmd (history st)) as [|x l] eqn:Ho.
    { unfold HISTORY_MAX in *. simpl in E. lia. }
    exists l. split_and!; [done|by right|simpl in *; lia].
  - apply Nat.ltb_ge in E.
    exists (others cmd (history st)). split_and!; [done|by left|lia].
Qed.

End History.

(** ** Variable expansion *)

Section Expand.

Implicit Types (s t name : string) (c : ascii) (vars : variables).

Lemma replaceAll_skip m s skip :
  (String.length s ≤ skip)%nat → replaceAll m skip s = "".
Proof.
  revert skip. induction s as [|c s IH]; intros skip H; [done|].
  simpl in H. destruct skip as [|k]; [lia|]. simpl. apply IH. lia.
Qed.

Lemma replaceAll_step m c s :
  replaceAll m 0 (String c s) =
    match m (String c s) with
    | Some (r, len) => r +:+ replaceAll m (len - 1) s
    | None => String c (replaceAll m 0 s)
    end.
Proof. reflexivity. Qed.

Lemma replaceAll_no_match m s (P : ascii → bool) :
  (∀ c t, P c = true → m (String c t) = None) →
  all_chars P s = true → replaceAll m 0 s = s.
Proof.
  intros Hm. induction s as [|c s IH]; [done|].
  intros [Hc Hs]%andb_true_iff.
  by rewrite replaceAll_step, (Hm _ _ Hc), IH.
Qed.

Lemma untilBrace_app name t :
  all_chars (λ c, negb (Ascii.eqb c "}")) name = true →
  untilBrace (name +:+ String "}" t) = Some name.
Proof.
  induction name as [|c name IH]; [done|].
  intros [Hc Hs]%andb_true_iff. apply negb_true_iff in Hc.
  rewrite str_app_cons. simpl. by rewrite Hc, IH.
Qed.

Lemma takeWhile_all P s : all_chars P s = true → takeWhile_str P s = s.
Proof.
  induction s as [|c s IH]; [done|].
  intros [Hc Hs]%andb_true_iff. simpl. by rewrite Hc, IH.
Qed.

Lemma isWord_not_brace c : isWord c = true → negb (Ascii.eqb c "}") = true.
Proof. by ascii_cases c. Qed.

Lemma isWord_not_dollar c : isWord c = true → negb (Ascii.eqb c "$") = true.
Proof. by ascii_cases c. Qed.

Lemma isIdentStart_isWord c : isIdentStart c = true → isWord c = true.
Proof. by ascii_cases c. Qed.

Lemma isIdentStart_not_lbrace c : isIdentStart c = true → c ≠ "{"%char.
Proof. by ascii_cases c. Qed.

Lemma identifier_word s : isIdentifier s = true → all_chars isWord s = true.
Proof.
  destruct s as [|c r]; [done|]. simpl.
  intros [Hc Hr]%andb_true_iff. by rewrite (isIdentStart_isWord _ Hc), Hr.
Qed.

(** The braced form of a name without a closing brace. *)
Lemma expandBraced_braced vars name :
  name ≠ "" →
  all_chars (λ c, negb (Ascii.eqb c "}")) name = true →
  expandBraced vars ("${" +:+ name +:+ "}") = bracedValue vars name.
Proof.
  intros Hne Hname. unfold expandBraced.
  change ("${" +:+ name +:+ "}") with (String "$" (String "{" (name +:+ "}"))).
  rewrite replaceAll_step. unfold matchBraced at 1.
  rewrite untilBrace_app by done.
  destruct name as [|c name]; [done|].
  rewrite replaceAll_skip.
  - apply str_app_nil_r.
  - simpl. rewrite str_length_app. simpl. lia.
Qed.

(** A text without a dollar sign has no braced and no bare reference. *)
Lemma expandBraced_no_dollar vars s :
  all_chars (λ c, negb (Ascii.eqb c "$")) s = true → expandBraced vars s = s.
Proof.
  apply replaceAll_no_match. intros c t Hc.
  destruct (Ascii.eqb_spec c "$") as [->|Hne]; [done|].
  unfold matchBraced.
  ascii_cases c; try done.
Qed.

Lemma expandBare_no_dollar vars cwd s :
  all_chars (λ c, negb (Ascii.eqb c "$")) s = true → expandBare vars cwd s = s.
Proof.
  apply replaceAll_no_match. intros c t Hc.
  destruct (Ascii.eqb_spec c "$") as [->|Hne]; [done|].
  unfold matchBare.
  ascii_cases c; try done.
Qed.

(** The bare form of an identifier. *)
Lemma expandBraced_bare vars name :
  isIdentifier name = true →
  expandBraced vars ("$" +:+ name) = "$" +:+ name.
Proof.
  intros Hid. pose proof (identifier_word _ Hid) as Hw.
  destruct name as [|c r]; [done|].
  apply andb_true_iff in Hid as [Hc Hr].
  unfold expandBraced.
  change ("$" +:+ String c r) with (String "$" (String c r)).
  rewrite replaceAll_step.
  assert (matchBraced (String "$" (String c r)) = None) as ->.
  { pose proof (isIdentStart_not_lbrace _ Hc).
    unfold matchBraced.
    ascii_cases c; try done. }
  f_equal.
  apply (replaceAll_no_match _ _ (λ c, negb (Ascii.eqb c "$"))).
  - intros a t Ha. unfold matchBraced.
    ascii_cases a; try done.
  - eapply all_chars_impl; [|exact Hw]. apply isWord_not_dollar.
Qed.

Lemma expandBare_bare vars cwd name :
  isIdentifier name = true →
  expandBare vars cwd ("$" +:+ name) = bareValue vars cwd name.
Proof.
  intros Hid. destruct name as [|c r]; [done|].
  apply andb_true_iff in Hid as [Hc Hr].
  unfold expandBare.
  change ("$" +:+ String c r) with (String "$" (String c r)).
  rewrite replaceAll_step. unfold matchBare at 1. rewrite Hc.
  rewrite takeWhile_all by done.
  rewrite replaceAll_skip.
  - apply str_app_nil_r.
  - simpl. lia.
Qed.

Lemma expandBare_empty vars cwd : expandBare vars cwd "" = "".
Proof. reflexivity. Qed.

(** The two forms of a reference to an identifier [name]. *)
Lemma expandVariables_braced vars cwd name :
  isIdentifier name = true →
  expandVariables vars cwd ("${" +:+ name +:+ "}") =
    expandBare vars cwd (bracedValue vars name).
Proof.
  intros Hid. unfold expandVariables. rewrite expandBraced_braced; [done| |].
  - by destruct name.
  - eapply all_chars_impl; [|by apply identifier_word]. apply isWord_not_brace.
Qed.

Lemma expandVariables_bare vars cwd name :
  isIdentifier name = true →
  expandVariables vars cwd ("$" +:+ name) = bareValue vars cwd name.
Proof.
  intros Hid. unfold expandVariables.
  by rewrite expandBraced_bare, expandBare_bare.
Qed.

End Expand.

(** ** Safe arithmetic evaluator *)

Section Parser.

Implicit Types (toks rest : list token) (fuel : nat) (v lhs : num).

(** One unfolding of each function of the parser. *)
Lemma parseExpr_S fuel toks :
  parseExpr (S fuel) toks =
    match parseTerm fuel toks with
    | Some (lhs, toks) => exprLoop fuel lhs toks
    | None => None
    end.
Proof. reflexivity. Qed.

Lemma exprLoop_S fuel lhs toks :
  exprLoop (S fuel) lhs toks =
    match toks with
    | TOp op :: toks' =>
        if Ascii.eqb op "+" || Ascii.eqb op "-" then
          match parseTerm fuel toks' with
          | Some (rhs, toks'') =>
              exprLoop fuel
                (if Ascii.eqb op "+" then num_add lhs rhs
                 else num_sub lhs rhs) toks''
          | None => None
          end
        else Some (lhs, toks)
    | _ => Some (lhs, toks)
    end.
Proof. reflexivity. Qed.

Lemma parseTerm_S fuel toks :
  parseTerm (S fuel) toks =
    match parseFactor fuel toks with
    | Some (lhs, toks) => termLoop fuel lhs toks
    | None => None
    end.
Proof. reflexivity. Qed.

Lemma termLoop_S fuel lhs toks :
  termLoop (S fuel) lhs toks =
    match toks with
    | TOp op :: toks' =>
        if Ascii.eqb op "*" || Ascii.eqb op "/" || Ascii.eqb op "%" then
          match parseFactor fuel toks' with
          | Some (rhs, toks'') =>
              termLoop fuel
                (if Ascii.eqb op "*" then num_mul lhs rhs
                 else if Ascii.eqb op "/" then
                   if negb (isZero rhs) then num_div lhs rhs else NaN
                 else num_rem lhs rhs) toks''
          | None => None
          end
        else Some (lhs, toks)
    | _ => Some (lhs, toks)
    end.
Proof. reflexivity. Qed.

Lemma parseFactor_S fuel toks :
  parseFactor (S fuel) toks =
    match toks with
    | [] => Some (NaN, toks)
    | TNum v :: toks' => Some (v, toks')
    | TOp c :: toks' =>
        if Ascii.eqb c "(" then
          match parseExpr fuel toks' with
          | Some (val, toks'') =>
              Some (val, if peekIs ")" toks'' then tail toks'' else toks'')
          | None => None
          end
        else if Ascii.eqb c "-" then
          match parseFactor fuel toks' with
          | Some (v, toks'') => Some (num_neg v, toks'')
          | None => None
          end
        else if Ascii.eqb c "+" then parseFactor fuel toks'
        else Some (NaN, toks)
    end.
Proof. reflexivity. Qed.

Lemma length_tail_le {A} (l : list A) : (length (tail l) ≤ length l)%nat.
Proof. destruct l; simpl; lia. Qed.

(** The parser returns on every token list, given fuel for its length. *)
Lemma parser_total fuel :
  ∀ toks,
    ((3 * length toks + 3 ≤ fuel)%nat → returns (parseExpr fuel toks) toks) ∧
    ((3 * length toks + 2 ≤ fuel)%nat →
       ∀ lhs, returns (exprLoop fuel lhs toks) toks) ∧
    ((3 * length toks + 2 ≤ fuel)%nat → returns (parseTerm fuel toks) toks) ∧
    ((3 * length toks + 1 ≤ fuel)%nat →
       ∀ lhs, returns (termLoop fuel lhs toks) toks) ∧
    ((3 * length toks + 1 ≤ fuel)%nat → returns (parseFactor fuel toks) toks).
Proof.
  induction fuel as [|fuel IH]; intros toks.
  { split_and!; intros; lia. }
  split_and!.
  - intros Hf. rewrite parseExpr_S.
    destruct (IH toks) as (_ & _ & HT & _).
    destruct HT as (l & t1 & -> & Hl1); [lia|].
    destruct (IH t1) as (_ & HL & _).
    destruct (HL ltac:(lia) l) as (v & rest & -> & Hl2).
    exists v, rest. split; [done|lia].
  - intros Hf lhs. rewrite exprLoop_S.
    destruct toks as [|[v|op] toks']; try (by eexists _, _).
    destruct (Ascii.eqb op "+" || Ascii.eqb op "-"); [|by eexists _, _].
    simpl in Hf.
    destruct (IH toks') as (_ & _ & HT & _).
    destruct HT as (r & t1 & -> & Hl1); [lia|].
    destruct (IH t1) as (_ & HL & _).
    destruct (HL ltac:(lia) (if Ascii.eqb op "+" then num_add lhs r
                             else num_sub lhs r)) as (v & rest & -> & Hl2).
    exists v, rest. split; [done|simpl; lia].
  - intros Hf. rewrite parseTerm_S.
    destruct (IH toks) as (_ & _ & _ & _ & HF).
    destruct HF as (l & t1 & -> & Hl1); [lia|].
    destruct (IH t1) as (_ & _ & _ & HL & _).
    destruct (HL ltac:(lia) l) as (v & rest & -> & Hl2).
    exists v, rest. split; [done|lia].
  - intros Hf lhs. rewrite termLoop_S.
    destruct toks as [|[v|op] toks']; try (by eexists _, _).
    destruct (Ascii.eqb op "*" || Ascii.eqb op "/" || Ascii.eqb op "%");
      [|by eexists _, _].
    simpl in Hf.
    destruct (IH toks') as (_ & _ & _ & _ & HF).
    destruct HF as (r & t1 & -> & Hl1); [lia|].
    destruct (IH t1) as (_ & _ & _ & HL & _).
    destruct (HL ltac:(lia)
                (if Ascii.eqb op "*" then num_mul lhs r
                 else if Ascii.eqb op "/" then
                   if negb (isZero r) then num_div lhs r else NaN
                 else num_rem lhs r)) as (v & rest & -> & Hl2).
    exists v, rest. split; [done|simpl; lia].
  - intros Hf. rewrite parseFactor_S.
    destruct toks as [|[v|c] toks']; try (by eexists _, _).
    { eexists _, _. split; [done|simpl; lia]. }
    simpl in Hf.
    destruct (Ascii.eqb c "(").
    { destruct (IH toks') as (HE & _).
      destruct HE as (v & t1 & -> & Hl1); [lia|].
      eexists _, _. split; [done|].
      destruct (peekIs ")" t1); [pose proof (length_tail_le t1)|]; simpl; lia. }
    destruct (IH toks') as (_ & _ & _ & _ & HF).
    destruct HF as (v & t1 & E & Hl1); [lia|].
    destruct (Ascii.eqb c "-").
    { rewrite E. eexists _, _. split; [done|simpl; lia]. }
    destruct (Ascii.eqb c "+").
    { rewrite E. eexists _, _. split; [done|simpl; lia]. }
    eexists _, _. split; [done|simpl; lia].
Qed.

Lemma parseExpr_total toks :
  ∃ v rest, parseExpr (fuelFor toks) toks = Some (v, rest).
Proof.
  destruct (parser_total (fuelFor toks) toks) as (H & _).
  destruct H as (v & rest & E & _); [unfold fuelFor; lia|]. eauto.
Qed.

(** More fuel does not change a result. *)
Lemma parser_mono fuel :
  (∀ toks r, parseExpr fuel toks = Some r → parseExpr (S fuel) toks = Some r) ∧
  (∀ lhs toks r,
     exprLoop fuel lhs toks = Some r → exprLoop (S fuel) lhs toks = Some r) ∧
  (∀ toks r, parseTerm fuel toks = Some r → parseTerm (S fuel) toks = Some r) ∧
  (∀ lhs toks r,
     termLoop fuel lhs toks = Some r → termLoop (S fuel) lhs toks = Some r) ∧
  (∀ toks r,
     parseFactor fuel toks = Some r → parseFactor (S fuel) toks = Some r).
Proof.
  induction fuel as [|fuel (IHE & IHEL & IHT & IHTL & IHF)].
  { split_and!; intros; discriminate. }
  split_and!.
  - intros toks r. rewrite (parseExpr_S (S fuel)), (parseExpr_S fuel).
    destruct (parseTerm fuel toks) as [[l t1]|] eqn:E; [|done].
    rewrite (IHT _ _ E). apply IHEL.
  - intros lhs toks r. rewrite (exprLoop_S (S fuel)), (exprLoop_S fuel).
    destruct toks as [|[v|op] toks']; try done.
    destruct (_ || _); [|done].
    destruct (parseTerm fuel toks') as [[l t1]|] eqn:E; [|done].
    rewrite (IHT _ _ E). apply IHEL.
  - intros toks r. rewrite (parseTerm_S (S fuel)), (parseTerm_S fuel).
    destruct (parseFactor fuel toks) as [[l t1]|] eqn:E; [|done].
    rewrite (IHF _ _ E). apply IHTL.
  - intros lhs toks r. rewrite (termLoop_S (S fuel)), (termLoop_S fuel).
    destruct toks as [|[v|op] toks']; try done.
    destruct (_ || _); [|done].
    destruct (parseFactor fuel toks') as [[l t1]|] eqn:E; [|done].
    rewrite (IHF _ _ E). apply IHTL.
  - intros toks r. rewrite (parseFactor_S (S fuel)), (parseFactor_S fuel).
    destruct toks as [|[v|c] toks']; try done.
    destruct (Ascii.eqb c "(").
    { destruct (parseExpr fuel toks') as [[l t1]|] eqn:E; [|done].
      by rewrite (IHE _ _ E). }
    destruct (Ascii.eqb c "-").
    { destruct (parseFactor fuel toks') as [[l t1]|] eqn:E; [|done].
      by rewrite (IHF _ _ E). }
    destruct (Ascii.eqb c "+"); [apply IHF|done].
Qed.

Lemma mono_le (f : nat → option (num * list token)) :
  (∀ n r, f n = Some r → f (S n) = Some r) →
  ∀ n m r, (n ≤ m)%nat → f n = Some r → f m = Some r.
Proof.
  intros Hf n m r Hle. induction Hle as [|m Hle IH]; [done|].
  intros H. apply Hf. by apply IH.
Qed.

Lemma parseExpr_mono fuel fuel' toks r :
  (fuel ≤ fuel')%nat → parseExpr fuel toks = Some r →
  parseExpr fuel' toks = Some r.
Proof.
  apply (mono_le (λ n, parseExpr n toks)).
  intros n. apply (parser_mono n).
Qed.

Lemma exprLoop_mono fuel fuel' lhs toks r :
  (fuel ≤ fuel')%nat → exprLoop fuel lhs toks = Some r →
  exprLoop fuel' lhs toks = Some r.
Proof.
  apply (mono_le (λ n, exprLoop n lhs toks)).
  intros n. apply (parser_mono n).
Qed.

Lemma parseTerm_mono fuel fuel' toks r :
  (fuel ≤ fuel')%nat → parseTerm fuel toks = Some r →
  parseTerm fuel' toks = Some r.
Proof.
  apply (mono_le (λ n, parseTerm n toks)).
  intros n. apply (parser_mono n).
Qed.

Lemma termLoop_mono fuel fuel' lhs toks r :
  (fuel ≤ fuel')%nat → termLoop fuel lhs toks = Some r →
  termLoop fuel' lhs toks = Some r.
Proof.
  apply (mono_le (λ n, termLoop n lhs toks)).
  intros n. apply (parser_mono n).
Qed.

Lemma parseFactor_mono fuel fuel' toks r :
  (fuel ≤ fuel')%nat → parseFactor fuel toks = Some r →
  parseFactor fuel' toks = Some r.
Proof.
  apply (mono_le (λ n, parseFactor n toks)).
  intros n. apply (parser_mono n).
Qed.

End Parser.

(** ** The parser and the grammar *)

Section Grammar.

Implicit Types (toks rest : list token) (fuel : nat) (v lhs acc : num).

Lemma stopsMul_addTail ts rest :
  stopsMul rest = true → stopsMul (tokensAddTail ts ++ rest) = true.
Proof. destruct ts as [|[] t ts]; done. Qed.

Lemma exprLoop_stop lhs rest :
  stopsAdd rest = true → exprLoop 1 lhs rest = Some (lhs, rest).
Proof.
  rewrite exprLoop_S. destruct rest as [|[v|c] rest]; try done.
  simpl. intros H%negb_true_iff. by rewrite H.
Qed.

Lemma termLoop_stop lhs rest :
  stopsMul rest = true → termLoop 1 lhs rest = Some (lhs, rest).
Proof.
  rewrite termLoop_S. destruct rest as [|[v|c] rest]; try done.
  simpl. intros H%negb_true_iff. by rewrite H.
Qed.

Lemma exprLoop_op fuel op lhs toks :
  exprLoop (S fuel) lhs (TOp (addOpChar op) :: toks) =
    match parseTerm fuel toks with
    | Some (rhs, toks') => exprLoop fuel (applyAdd op lhs rhs) toks'
    | None => None
    end.
Proof. rewrite exprLoop_S. by destruct op. Qed.

Lemma termLoop_op fuel op lhs toks :
  termLoop (S fuel) lhs (TOp (mulOpChar op) :: toks) =
    match parseFactor fuel toks with
    | Some (rhs, toks') => termLoop fuel (applyMul op lhs rhs) toks'
    | None => None
    end.
Proof.
  rewrite termLoop_S. destruct op; simpl; try done.
  destruct (parseFactor fuel toks) as [[rhs toks']|]; [|done].
  by destruct (isZero rhs).
Qed.

(** On the tokens of a derivation tree the parser returns the value of the
    tree and consumes exactly these tokens. *)
Lemma parser_grammar :
  (∀ e rest, stopsAdd rest = true → stopsMul rest = true →
     ∃ fuel, parseExpr fuel (tokensExpr e ++ rest) = Some (valueExpr e, rest)) ∧
  (∀ ts lhs rest, stopsAdd rest = true → stopsMul rest = true →
     ∃ fuel, exprLoop fuel lhs (tokensAddTail ts ++ rest)
             = Some (valueAddTail lhs ts, rest)) ∧
  (∀ t rest, stopsMul rest = true →
     ∃ fuel, parseTerm fuel (tokensTerm t ++ rest) = Some (valueTerm t, rest)) ∧
  (∀ fs lhs rest, stopsMul rest = true →
     ∃ fuel, termLoop fuel lhs (tokensMulTail fs ++ rest)
             = Some (valueMulTail lhs fs, rest)) ∧
  (∀ f rest,
     ∃ fuel, parseFactor fuel (tokensFactor f ++ rest)
             = Some (valueFactor f, rest)).
Proof.
  apply grammar_mutind.
  - intros t IHt ts IHts rest Ha Hm. simpl. rewrite <- app_assoc.
    destruct (IHt (tokensAddTail ts ++ rest)) as [n1 H1];
      [by apply stopsMul_addTail|].
    destruct (IHts (valueTerm t) rest Ha Hm) as [n2 H2].
    exists (S (n1 `max` n2)). rewrite parseExpr_S.
    rewrite (parseTerm_mono n1 (n1 `max` n2) _ _ ltac:(lia) H1).
    apply (exprLoop_mono n2); [lia|done].
  - intros lhs rest Ha _. exists 1%nat. by apply exprLoop_stop.
  - intros op t IHt ts IHts lhs rest Ha Hm. simpl. rewrite <- app_assoc.
    destruct (IHt (tokensAddTail ts ++ rest)) as [n1 H1];
      [by apply stopsMul_addTail|].
    destruct (IHts (applyAdd op lhs (valueTerm t)) rest Ha Hm) as [n2 H2].
    exists (S (n1 `max` n2)). rewrite exprLoop_op.
    rewrite (parseTerm_mono n1 (n1 `max` n2) _ _ ltac:(lia) H1).
    apply (exprLoop_mono n2); [lia|done].
  - intros f IHf fs IHfs rest Hm. simpl. rewrite <- app_assoc.
    destruct (IHf (tokensMulTail fs ++ rest)) as [n1 H1].
    destruct (IHfs (valueFactor f) rest Hm) as [n2 H2].
    exists (S (n1 `max` n2)). rewrite parseTerm_S.
    rewrite (parseFactor_mono n1 (n1 `max` n2) _ _ ltac:(lia) H1).
    apply (termLoop_mono n2); [lia|done].
  - intros lhs rest Hm. exists 1%nat. by apply termLoop_stop.
  - intros op f IHf fs IHfs lhs rest Hm. simpl. rewrite <- app_assoc.
    destruct (IHf (tokensMulTail fs ++ rest)) as [n1 H1].
    destruct (IHfs (applyMul op lhs (valueFactor f)) rest Hm) as [n2 H2].
    exists (S (n1 `max` n2)). rewrite termLoop_op.
    rewrite (parseFactor_mono n1 (n1 `max` n2) _ _ ltac:(lia) H1).
    apply (termLoop_mono n2); [lia|done].
  - intros v rest. by exists 1%nat.
  - intros e IHe rest. simpl. rewrite <- app_assoc. simpl.
    destruct (IHe (TOp ")" :: rest)) as [n H]; [done..|].
    exists (S n). rewrite parseFactor_S. simpl. by rewrite H.
  - intros f IHf rest. destruct (IHf rest) as [n H].
    exists (S n). simpl tokensFactor. rewrite <- app_comm_cons.
    rewrite parseFactor_S. simpl. by rewrite H.
  - intros f IHf rest. destruct (IHf rest) as [n H].
    exists (S n). simpl tokensFactor. rewrite <- app_comm_cons.
    rewrite parseFactor_S. simpl. by rewrite H.
Qed.

Lemma parseExpr_grammar e :
  parseExpr (fuelFor (tokensExpr e)) (tokensExpr e) = Some (valueExpr e, []).
Proof.
  destruct parser_grammar as (HE & _).
  destruct (HE e [] eq_refl eq_refl) as [n H]. rewrite app_nil_r in H.
  destruct (parseExpr_total (tokensExpr e)) as (v & rest & E).
  pose proof (parseExpr_mono n (n `max` fuelFor (tokensExpr e)) _ _
                ltac:(lia) H) as H1.
  pose proof (parseExpr_mono (fuelFor (tokensExpr e))
                (n `max` fuelFor (tokensExpr e)) _ _ ltac:(lia) E) as H2.
  rewrite E. congruence.
Qed.

Lemma isNaN_eq v : isNaN v = true → v = NaN.
Proof. by destruct v. Qed.

Lemma safeArith_grammar s e :
  tokenize s = Some (tokensExpr e) → safeArith s = valueExpr e.
Proof.
  intros H. unfold safeArith. rewrite H, parseExpr_grammar.
  destruct (isNaN (valueExpr e)) eqn:E; [|done].
  simpl. symmetry. by apply isNaN_eq.
Qed.

(** *** Not-a-number *)

Lemma applyAdd_nan_l op x y : isNaN x = true → isNaN (applyAdd op x y) = true.
Proof. intros ->%isNaN_eq. by destruct op, y. Qed.

Lemma applyAdd_nan_r op x y : isNaN y = true → isNaN (applyAdd op x y) = true.
Proof. intros ->%isNaN_eq. by destruct op, x. Qed.

Lemma applyMul_nan_l op x y : isNaN x = true → isNaN (applyMul op x y) = true.
Proof. intros ->%isNaN_eq. by destruct op, y. Qed.

Lemma applyMul_nan_r op x y : isNaN y = true → isNaN (applyMul op x y) = true.
Proof. intros ->%isNaN_eq. by destruct op, x. Qed.

Lemma applyMul_div_zero x y : isZero y = true → applyMul Divide x y = NaN.
Proof. intros H. simpl. by rewrite H. Qed.

Lemma num_neg_nan x : isNaN x = true → isNaN (num_neg x) = true.
Proof. by intros ->%isNaN_eq. Qed.

(** A division by zero anywhere in a derivation tree makes its value NaN. *)
Lemma divByZero_nan :
  (∀ e, divByZeroExpr e = true → isNaN (valueExpr e) = true) ∧
  (∀ ts acc, isNaN acc = true ∨ divByZeroAddTail ts = true →
     isNaN (valueAddTail acc ts) = true) ∧
  (∀ t, divByZeroTerm t = true → isNaN (valueTerm t) = true) ∧
  (∀ fs acc, isNaN acc = true ∨ divByZeroMulTail fs = true →
     isNaN (valueMulTail acc fs) = true) ∧
  (∀ f, divByZeroFactor f = true → isNaN (valueFactor f) = true).
Proof.
  apply grammar_mutind.
  - intros t IHt ts IHts. simpl. intros [H|H]%orb_true_iff.
    + apply IHts. left. by apply IHt.
    + apply IHts. by right.
  - intros acc [H|H]; done.
  - intros op t IHt ts IHts acc. simpl. intros [H|[H|H]%orb_true_iff].
    + apply IHts. left. by apply applyAdd_nan_l.
    + apply IHts. left. apply applyAdd_nan_r. by apply IHt.
    + apply IHts. by right.
  - intros f IHf fs IHfs. simpl. intros [H|H]%orb_true_iff.
    + apply IHfs. left. by apply IHf.
    + apply IHfs. by right.
  - intros acc [H|H]; done.
  - intros op f IHf fs IHfs acc.
    cbn [divByZeroMulTail valueMulTail].
    intros [H|[[H|H]%orb_true_iff|H]%orb_true_iff].
    + apply IHfs. left. by apply applyMul_nan_l.
    + apply IHfs. left. destruct op; try done.
      by rewrite applyMul_div_zero.
    + apply IHfs. left. apply applyMul_nan_r. by apply IHf.
    + apply IHfs. by right.
  - done.
  - intros e IHe. exact IHe.
  - intros f IHf H. simpl. apply num_neg_nan. by apply IHf.
  - intros f IHf. exact IHf.
Qed.

(** *** The tokenizer *)

Lemma tokenize_go_none num s :
  tokenize_go num s = None ↔ all_chars isArithChar s = false.
Proof.
  revert num. induction s as [|c s IH]; intros num; [done|].
  simpl. unfold isArithChar at 1.
  destruct (isSpace c) eqn:Hs.
  { rewrite orb_true_r. simpl. rewrite <- (IH "").
    destruct (tokenize_go "" s); done. }
  destruct (isNumChar c) eqn:Hn.
  { assert (isDigit c || Ascii.eqb c "." = true) as Hd by exact Hn.
    apply orb_true_iff in Hd as [->| ->]; simpl; rewrite ?orb_true_r; apply IH. }
  apply orb_false_iff in Hn as [-> ->].
  destruct (isOpChar c) eqn:Ho; simpl.
  - rewrite <- (IH ""). destruct (tokenize_go "" s); done.
  - done.
Qed.

Lemma safeArith_unsupported s :
  all_chars isArithChar s = false → safeArith s = NaN.
Proof.
  intros H. unfold safeArith, tokenize.
  by apply (tokenize_go_none "") in H as ->.
Qed.

Lemma safeArith_leftover s toks v t rest :
  tokenize s = Some toks →
  parseExpr (fuelFor toks) toks = Some (v, t :: rest) →
  safeArith s = NaN.
Proof. intros H1 H2. unfold safeArith. by rewrite H1, H2. Qed.

End Grammar.

(** ** Expression evaluator *)

Section EvalExpression.

Implicit Types (s t l r : string) (c : ascii) (op : cmpOp) (B : builtins).

Lemma lower_letter_not_arith c :
  isLower (toLowerChar c) = true → isArithChar c = false.
Proof. by ascii_cases c. Qed.

Lemma startsWith_ci_not_arith a b t s :
  isLower b = true → startsWith_ci (String a (String b t)) s = true →
  all_chars isArithChar s = false.
Proof.
  intros Hb. destruct s as [|c0 [|c1 s]]; simpl; try done.
  { by rewrite andb_false_r. }
  intros [_ [Hc _]%andb_true_iff]%andb_true_iff.
  apply Ascii.eqb_eq in Hc. subst b.
  by rewrite (lower_letter_not_arith c1 Hb), andb_false_r.
Qed.

Lemma tryOps_not_arith s op r :
  tryOps cmpOps s = Some (op, r) → all_chars isArithChar s = false.
Proof.
  unfold cmpOps. cbn [tryOps].
  repeat match goal with
  | |- context [startsWith_ci ?n s] =>
      destruct (startsWith_ci n s) eqn:?;
      [intros _; eapply startsWith_ci_not_arith; [|eassumption]; done|]
  end.
  done.
Qed.

Lemma all_chars_trimStart P s :
  all_chars P s = true → all_chars P (trimStart s) = true.
Proof.
  induction s as [|c s IH]; [done|]. simpl.
  intros H. pose proof H as [Hc Hs]%andb_true_iff.
  destruct (isSpace c); [by apply IH|done].
Qed.

Lemma cmpMatch_go_not_arith l s res :
  cmpMatch_go l s = Some res → all_chars isArithChar s = false.
Proof.
  revert l. induction s as [|c s IH]; intros l.
  - simpl. destruct (tryOps cmpOps "") as [[op r]|] eqn:E; [|done].
    by apply tryOps_not_arith in E.
  - cbn [cmpMatch_go].
    destruct (tryOps cmpOps (trimStart (String c s))) as [[op r]|] eqn:E.
    + intros _. apply tryOps_not_arith in E.
      destruct (all_chars isArithChar (String c s)) eqn:Ha; [|done].
      by rewrite (all_chars_trimStart _ _ Ha) in E.
    + destruct (isLineTerminator c); [done|].
      intros H%IH. simpl. by rewrite H, andb_false_r.
Qed.

Lemma cmpMatch_not_arith s res :
  cmpMatch s = Some res → isArithText s = false.
Proof.
  unfold cmpMatch, isArithText. destruct s as [|c s]; [done|].
  destruct (isLineTerminator c); [done|].
  intros H%cmpMatch_go_not_arith. simpl. by rewrite H, andb_false_r.
Qed.

(** An expression that matches the comparison pattern is evaluated as that
    comparison. *)
Lemma evalExpression_comparison B vars cwd expr l op r :
  cmpMatch (expandVariables vars cwd (trim expr)) = Some (l, op, r) →
  evalExpression B vars cwd expr = evalComparison B op (operand l) (operand r).
Proof.
  intros H. unfold evalExpression.
  by rewrite (cmpMatch_not_arith _ _ H), H.
Qed.

Lemma num_lt_nan x y : isNaN x = true ∨ isNaN y = true → num_lt x y = false.
Proof. intros [->%isNaN_eq| ->%isNaN_eq]; [done|by destruct x]. Qed.

Lemma num_le_nan x y : isNaN x = true ∨ isNaN y = true → num_le x y = false.
Proof. intros [->%isNaN_eq| ->%isNaN_eq]; [done|by destruct x]. Qed.

Lemma evalComparison_nan B op lv rv :
  isNumericCmp op = true →
  isNaN (Number lv) = true ∨ isNaN (Number rv) = true →
  evalComparison B op lv rv = Some "false".
Proof.
  intros Hop Hnan. destruct op; try done; simpl.
  - by rewrite num_lt_nan.
  - rewrite num_lt_nan; [done|tauto].
  - by rewrite num_le_nan.
  - rewrite num_le_nan; [done|tauto].
Qed.

(** *** A comparison of two words *)

Lemma rev_app_rev_app w acc t :
  String.rev_app (String.rev_app w acc) t = String.rev_app acc (w +:+ t).
Proof.
  revert acc t. induction w as [|a w IH]; intros acc t; [done|].
  simpl. by rewrite IH.
Qed.

Lemma last_char_app s c t :
  last_char (s +:+ String c t) = last_char (String c t).
Proof.
  induction s as [|a s IH]; [done|].
  rewrite str_app_cons. cbn [last_char]. rewrite IH.
  by destruct s.
Qed.

Lemma last_char_cons c s : ∃ x, last_char (String c s) = Some x.
Proof.
  revert c. induction s as [|a s IH]; intros c; [by exists c|].
  destruct (IH a) as [x Hx]. by exists x.
Qed.

Lemma trimEnd_last s c :
  last_char s = Some c → isSpace c = false → trimEnd s = s.
Proof.
  intros Hl Hc. induction s as [|a s IH]; [done|].
  change (trimEnd (String a s)) with
    (match trimEnd s with
     | "" => if isSpace a then "" else String a ""
     | t => String a t
     end).
  destruct s as [|a' s].
  - injection Hl as ->. simpl. by rewrite Hc.
  - by rewrite (IH Hl).
Qed.

Lemma isWord_facts c :
  isWord c = true →
  isSpace c = false ∧ isQuote c = false ∧ isLineTerminator c = false ∧
  Ascii.eqb "-" (toLowerChar c) = false.
Proof. by ascii_cases c. Qed.

Lemma wordText_inv s :
  isWordText s = true → ∃ c s', s = String c s' ∧ isWord c = true ∧
                                all_chars isWord s' = true.
Proof.
  destruct s as [|c s']; [done|]. unfold isWordText. simpl.
  intros [? ?]%andb_true_iff. by exists c, s'.
Qed.

Lemma startsWith_ci_cons a t b s :
  startsWith_ci (String a t) (String b s) =
    Ascii.eqb a (toLowerChar b) && startsWith_ci t s.
Proof. reflexivity. Qed.

Lemma tryOps_word c s : isWord c = true → tryOps cmpOps (String c s) = None.
Proof.
  intros (_ & _ & _ & H)%isWord_facts. unfold cmpOps. cbn [tryOps].
  by rewrite !startsWith_ci_cons, H.
Qed.

Lemma matchRight_word r :
  isWordText r = true → matchRight (" " +:+ r) = Some r.
Proof.
  intros (c & r' & -> & Hc & Hr)%wordText_inv.
  pose proof (isWord_facts c Hc) as (Hs & _ & Hl & _).
  unfold matchRight. change (" " +:+ String c r') with (String " " (String c r')).
  cbn [trimStart]. simpl isSpace. rewrite Hs.
  simpl. rewrite Hl. simpl.
  replace (all_chars (λ c, negb (isLineTerminator c)) r') with true; [done|].
  symmetry. eapply all_chars_impl; [|exact Hr].
  intros a Ha. by destruct (isWord_facts a Ha) as (_ & _ & -> & _).
Qed.

Lemma drop_str_app s t : drop_str (String.length s) (s +:+ t) = t.
Proof. induction s as [|a s IH]; [by destruct t|]. exact IH. Qed.

Lemma tryOps_miss name op ops s :
  startsWith_ci name s = false →
  tryOps ((name, op) :: ops) s = tryOps ops s.
Proof. intros H. cbn [tryOps]. by rewrite H. Qed.

Lemma tryOps_hit name op ops t r :
  startsWith_ci name (name +:+ t) = true → matchRight t = Some r →
  tryOps ((name, op) :: ops) (name +:+ t) = Some (op, r).
Proof. intros H Hm. cbn [tryOps]. by rewrite H, drop_str_app, Hm. Qed.

Lemma tryOps_name op r :
  isWordText r = true →
  tryOps cmpOps (cmpOpName op +:+ " " +:+ r) = Some (op, r).
Proof.
  intros Hr. pose proof (matchRight_word r Hr) as Hm.
  destruct op; unfold cmpOps; cbn [cmpOpName];
    repeat (rewrite tryOps_miss by reflexivity);
    by apply tryOps_hit.
Qed.

Lemma cmpMatch_go_words w acc op r :
  all_chars isWord w = true → isWordText r = true →
  cmpMatch_go acc (w +:+ " " +:+ cmpOpName op +:+ " " +:+ r)
  = Some (String.rev (String.rev_app w acc), op, r).
Proof.
  intros Hw Hr. revert acc. induction w as [|a w IH]; intros acc.
  - rewrite str_app_nil_l.
    change (" " +:+ cmpOpName op +:+ " " +:+ r)
      with (String " " (cmpOpName op +:+ " " +:+ r)).
    cbn [cmpMatch_go trimStart].
    change (isSpace " ") with true. cbv iota.
    assert (trimStart (cmpOpName op +:+ " " +:+ r)
            = cmpOpName op +:+ " " +:+ r) as -> by (by destruct op).
    by rewrite tryOps_name.
  - apply andb_true_iff in Hw as [Ha Hw].
    pose proof (isWord_facts a Ha) as (Hs & _ & Hl & _).
    rewrite str_app_cons. cbn [cmpMatch_go trimStart]. rewrite Hs.
    rewrite tryOps_word by done. rewrite Hl. by rewrite IH.
Qed.

Lemma cmpMatch_words l op r :
  isWordText l = true → isWordText r = true →
  cmpMatch (l +:+ " " +:+ cmpOpName op +:+ " " +:+ r) = Some (l, op, r).
Proof.
  intros (c & l' & -> & Hc & Hl)%wordText_inv Hr.
  pose proof (isWord_facts c Hc) as (_ & _ & Hlt & _).
  rewrite str_app_cons. unfold cmpMatch. rewrite Hlt.
  rewrite cmpMatch_go_words by done.
  unfold String.rev. rewrite rev_app_rev_app. simpl.
  by rewrite str_app_nil_r.
Qed.

Lemma operand_word s : isWordText s = true → operand s = s.
Proof.
  intros (c & s' & -> & Hc & Hs)%wordText_inv.
  pose proof (isWord_facts c Hc) as (Hsp & Hq & _ & _).
  unfold operand. rewrite trim_id, stripQuotes_id; try done.
  all: eapply all_chars_impl; [|exact Hs].
  all: intros a Ha; destruct (isWord_facts a Ha) as (H1 & H2 & _).
  all: by rewrite ?H1, ?H2.
Qed.

Lemma comparison_text_plain vars cwd l op r :
  isWordText l = true → isWordText r = true →
  expandVariables vars cwd (trim (l +:+ " " +:+ cmpOpName op +:+ " " +:+ r))
  = l +:+ " " +:+ cmpOpName op +:+ " " +:+ r.
Proof.
  intros Hl Hr.
  destruct (wordText_inv _ Hl) as (c & l' & -> & Hc & Hl').
  destruct (wordText_inv _ Hr) as (d & r' & -> & Hd & Hr').
  pose proof (isWord_facts c Hc) as (Hsc & _ & _ & _).
  pose proof (isWord_facts d Hd) as (Hsd & _ & _ & _).
  assert (trim (String c l' +:+ " " +:+ cmpOpName op +:+ " " +:+ String d r')
          = String c l' +:+ " " +:+ cmpOpName op +:+ " " +:+ String d r') as ->.
  { unfold trim. rewrite str_app_cons. cbn [trimStart]. rewrite Hsc.
    rewrite <- str_app_cons.
    destruct (last_char_cons d r') as [x E].
    apply (trimEnd_last _ x).
    - by rewrite <- !str_app_assoc, last_char_app.
    - assert (isWord x = true) as Hx.
      { eapply (last_char_all isWord); [|exact E]. simpl. by rewrite Hd. }
      by destruct (isWord_facts x Hx) as (-> & _). }
  assert (all_chars (λ c, negb (Ascii.eqb c "$"))
            (String c l' +:+ " " +:+ cmpOpName op +:+ " " +:+ String d r')
          = true) as Hplain.
  { assert (∀ w, all_chars isWord w = true →
              all_chars (λ c, negb (Ascii.eqb c "$")) w = true) as Hword.
    { intros w. apply all_chars_impl, isWord_not_dollar. }
    rewrite !all_chars_app, (Hword (String c l')), (Hword (String d r')).
    - by destruct op.
    - simpl. by rewrite Hd.
    - simpl. by rewrite Hc. }
  unfold expandVariables.
  by rewrite expandBraced_no_dollar, expandBare_no_dollar.
Qed.

Lemma evalExpression_words B vars cwd l op r :
  isWordText l = true → isWordText r = true →
  evalExpression B vars cwd (l +:+ " " +:+ cmpOpName op +:+ " " +:+ r)
  = evalComparison B op l r.
Proof.
  intros Hl Hr.
  rewrite (evalExpression_comparison B vars cwd _ l op r).
  - by rewrite !operand_word.
  - rewrite comparison_text_plain by done. by apply cmpMatch_words.
Qed.

End EvalExpression.

(** * The claims of the specification *)

(** ** C1: resolving a pushed and popped segment *)

(** C1, at the input where the code departs from it.  The drive [C:] is a
    directory of the initial filesystem and a path in normal form.
    Resolving the relative path of a segment [a] and a parent segment from
    it gives [C:\a], not [C:]: the parent step pops only behind a backslash
    at an index greater than 2, so it never reaches the drive, and the
    parent segment alone leaves [C:\Users] where it is. *)
Theorem resolvePath_drive_no_retraction :
  fsIsDir "C:" (initFS sampleNow) = true ∧
  normPath "C:" = "C:" ∧
  resolvePath "C:" "a\.." = "C:\a" ∧
  resolvePath "C:\Users" ".." = "C:\Users".
Proof. by vm_compute. Qed.

(** ** C8: normalisation is idempotent *)

(** C8, at the input where the code departs from it.  The upper-case form
    of the sharp s has two letters.  [normPath] looks at the trailing
    backslash before it puts the drive letter in upper case: the root of
    three characters keeps its backslash and becomes a path of four
    characters, and a second [normPath] removes the backslash. *)
Theorem normPath_sharp_s_root :
  normPath sharpRoot = "SS:\" ∧ normPath (normPath sharpRoot) = "SS:".
Proof. by vm_compute. Qed.

(** ** C5: writing and reading a file *)


(** ** C6: deleting a directory *)


(** ** C7: a move whose copy fails *)


(** ** C9: the history *)

(** C9.  For every history of at most 200 entries and every command line
    that is not blank, the history after [addHistory] has at most 200
    entries and is a list [l] followed by the command, where the command
    does not occur in [l] and [l] is the old history without the command,
    in the old order (less its oldest entry when the cap is reached).  When
    the command was in the history already, the new history is the old one
    without it, followed by it. *)
Theorem addHistory_dedup (cmd : string) (st : historyState) :
  (length (history st) ≤ 200)%nat → trim cmd ≠ "" →
  (length (history (addHistory cmd st)) ≤ 200)%nat ∧
  (∃ l, history (addHistory cmd st) = l ++ [cmd] ∧
        (cmd ∉ l) ∧ (l `sublist_of` history st) ∧
        (l = others cmd (history st) ∨ l = tail (others cmd (history st)))) ∧
  (cmd ∈ history st →
     history (addHistory cmd st) = others cmd (history st) ++ [cmd]).
Proof.
  intros Hlen Hcmd.
  destruct (addHistory_shape cmd st Hlen Hcmd) as (l & Hl & Hor & Hlt).
  pose proof (others_not_elem cmd (history st)) as Hnot.
  pose proof (others_sublist cmd (history st)) as Hsub.
  split_and!.
  - rewrite Hl, length_app. unfold HISTORY_MAX in Hlt. simpl. lia.
  - exists l. split_and!; [done| | |done].
    + destruct Hor as [->| ->]; [done|].
      intros H. apply Hnot. destruct (others cmd (history st)); [done|].
      by apply list_elem_of_further.
    + destruct Hor as [->| ->]; [done|].
      etrans; [|exact Hsub]. apply (sublist_drop _ 1).
  - intros Hin. rewrite addHistory_history by done.
    pose proof (others_length_present cmd (history st) Hin).
    rewrite length_app. simpl length.
    replace (HISTORY_MAX <? _)%nat with false; [done|].
    symmetry. apply Nat.ltb_ge. unfold HISTORY_MAX. lia.
Qed.

Lemma addHistory_dedup_witness :
  history (addHistory "ls" (mkHistory ["ls"; "pwd"; "ls"] 3)) = ["pwd"; "ls"].
Proof.
  refine (proj2 (proj2 (addHistory_dedup "ls" (mkHistory ["ls"; "pwd"; "ls"] 3)
                          _ _)) _).
  - simpl. lia.
  - discriminate.
  - simpl. apply list_elem_of_here.
Defined.

(** ** C4 and C10: undefined and built-in variables *)

(** C4, at the input where the code departs from it.  No variable is
    defined, and [constructor] is no built-in variable; [state.variables]
    is an object literal, and the name is found in its prototype: both
    references expand to the text of the function [Object]. *)
Theorem expandVariables_inherited_name (cwd : string) :
  getBuiltinVar cwd "constructor" = None ∧
  expandVariables ∅ cwd "${constructor}" = nativeText "Object" ∧
  expandVariables ∅ cwd "$constructor" = nativeText "Object".
Proof. by vm_compute. Qed.

(** The claim of C4 holds for the identifiers that are no names of the
    prototype: when such a name is neither a user variable nor a built-in,
    the braced reference expands to the empty string and the bare
    reference is left as it is. *)
Lemma expandVariables_undefined (vars : variables) (cwd foo : string) :
  isIdentifier foo = true → inherited foo = false →
  vars !! foo = None → getBuiltinVar cwd foo = None →
  expandVariables vars cwd ("${" +:+ foo +:+ "}") = "" ∧
  expandVariables vars cwd ("$" +:+ foo) = "$" +:+ foo.
Proof.
  intros Hid Hin%inheritedText_None Hv Hb. split.
  - rewrite expandVariables_braced by done.
    unfold bracedValue, variableText. by rewrite Hv, Hin.
  - rewrite expandVariables_bare by done.
    unfold bareValue, variableText. by rewrite Hb, Hv, Hin.
Qed.

(** The claim of C10 holds for the built-in names that are identifiers:
    without a user variable of the name, the braced reference expands to the
    empty string and the bare reference to the value of the built-in. *)
Lemma expandVariables_builtin_identifier (vars : variables)
    (cwd b v : string) :
  isIdentifier b = true → getBuiltinVar cwd b = Some v → vars !! b = None →
  expandVariables vars cwd ("${" +:+ b +:+ "}") = "" ∧
  expandVariables vars cwd ("$" +:+ b) = v.
Proof.
  intros Hid Hb Hv. split.
  - rewrite expandVariables_braced by done.
    unfold bracedValue, variableText. rewrite Hv.
    destruct (inheritedText b) eqn:E; [|done].
    exfalso. revert Hb E. clear. unfold inheritedText.
    destruct (String.eqb b "__proto__") eqn:E1;
      [apply String.eqb_eq in E1 as ->; by vm_compute|].
    destruct (String.eqb b "constructor") eqn:E2;
      [apply String.eqb_eq in E2 as ->; by vm_compute|].
    destruct (inherited b) eqn:E3; [|done].
    apply bool_decide_eq_true in E3. unfold objectPrototypeNames in E3.
    rewrite !elem_of_cons, elem_of_nil in E3.
    repeat (destruct E3 as [->|E3]; [by vm_compute|]). done.
  - rewrite expandVariables_bare by done.
    unfold bareValue. by rewrite Hb.
Qed.

(** C10, at the input where the code departs from it.  [env:username] is a
    name [getBuiltinVar] defines, with the value [PSUser]; no user variable
    is defined.  The braced reference expands to the empty string, as C10
    says, but the bare reference is left as it is: the name the bare pattern
    reads stops at the colon. *)
Theorem expandVariables_env_username (cwd : string) :
  getBuiltinVar cwd "env:username" = Some "PSUser" ∧
  expandVariables ∅ cwd "${env:username}" = "" ∧
  expandVariables ∅ cwd "$env:username" = "$env:username".
Proof. by vm_compute. Qed.

(** ** C2: the arithmetic evaluator *)

(** C2 as stated fails.  The input [1 +] has only characters of the
    arithmetic set, the parser consumes its two tokens, there is no division
    in it, and the result is NaN: the operand of [+] is missing. *)
Lemma safeArith_missing_operand :
  all_chars isArithChar "1 +" = true ∧
  tokenize "1 +" = Some [TNum (num_of_Z 1); TOp "+"] ∧
  parseExpr (fuelFor [TNum (num_of_Z 1); TOp "+"])
            [TNum (num_of_Z 1); TOp "+"] = Some (NaN, []) ∧
  safeArith "1 +" = NaN.
Proof. by vm_compute. Qed.

(** C2 (amended).  The parser returns on every token list.  On the tokens
    of a derivation tree of the grammar the evaluator returns the value of
    the tree, in which [*], [/] and [%] bind tighter than [+] and [-] and
    each level is applied from left to right.  The result is NaN whenever
    the input has a character outside the arithmetic set, whenever tokens
    are left after the parse, and whenever a division by zero occurs in the
    tree (these are not the only cases).  [2 + 3 * 4] is 14, [(1+2)*3] is 9
    and [10 / 0] is NaN. *)
Theorem safeArith_grammar_and_nan :
  (∀ toks, ∃ v rest, parseExpr (fuelFor toks) toks = Some (v, rest)) ∧
  (∀ s e, tokenize s = Some (tokensExpr e) → safeArith s = valueExpr e) ∧
  (∀ s, all_chars isArithChar s = false → isNaN (safeArith s) = true) ∧
  (∀ s toks v t rest,
     tokenize s = Some toks →
     parseExpr (fuelFor toks) toks = Some (v, t :: rest) →
     isNaN (safeArith s) = true) ∧
  (∀ s e, tokenize s = Some (tokensExpr e) → divByZeroExpr e = true →
     isNaN (safeArith s) = true) ∧
  safeArith "2 + 3 * 4" = num_of_Z 14 ∧
  safeArith "(1+2)*3" = num_of_Z 9 ∧
  isNaN (safeArith "10 / 0") = true.
Proof.
  split_and!.
  - apply parseExpr_total.
  - apply safeArith_grammar.
  - intros s H. by rewrite safeArith_unsupported.
  - intros s toks v t rest H1 H2. by erewrite safeArith_leftover.
  - intros s e H1 H2. rewrite (safeArith_grammar _ _ H1).
    by apply divByZero_nan.
  - by vm_compute.
  - by vm_compute.
  - by vm_compute.
Qed.

Lemma safeArith_grammar_and_nan_witness :
  safeArith "2 + 3 * 4" = valueExpr tree_2_plus_3_times_4 ∧
  safeArith "(1+2)*3" = valueExpr tree_1_plus_2_times_3 ∧
  isNaN (safeArith "10 / 0") = true.
Proof.
  destruct safeArith_grammar_and_nan as (_ & Hg & _ & _ & Hz & _).
  split_and!.
  - apply Hg. reflexivity.
  - apply Hg. reflexivity.
  - apply (Hz _ tree_10_div_0); reflexivity.
Defined.

(** ** C3: numeric comparison of texts that are not numbers *)

(** C3 as stated fails.  Neither [abc] nor [def] is a number, and the
    comparison of the two with [-lt] evaluates to the text [false], in
    lower case, not to [False]. *)
Lemma evalExpression_lt_lower_case :
  isNaN (Number "abc") = true ∧
  isNaN (Number "def") = true ∧
  evalExpression sampleBuiltins ∅ "C:\Users" "abc -lt def" = Some "false" ∧
  String.eqb "false" "False" = false.
Proof. by vm_compute. Qed.

(** C3 (amended).  For every expression that, after the expansion of its
    variables, matches the comparison pattern with one of [-lt], [-gt],
    [-le], [-ge], and whose left or right operand is not a number,
    [evalExpression] returns the text [false] (the lower-case text of the
    boolean), whatever the order of the two texts.  In particular this is
    the result for two words, one of which is not a number, around one of
    the four operators. *)
Theorem evalExpression_numeric_nan :
  (∀ B vars cwd expr l op r,
     cmpMatch (expandVariables vars cwd (trim expr)) = Some (l, op, r) →
     isNumericCmp op = true →
     isNaN (Number (operand l)) = true ∨ isNaN (Number (operand r)) = true →
     evalExpression B vars cwd expr = Some "false") ∧
  (∀ B vars cwd l op r,
     isNumericCmp op = true →
     isWordText l = true → isWordText r = true →
     isNaN (Number l) = true ∨ isNaN (Number r) = true →
     evalExpression B vars cwd (l +:+ " " +:+ cmpOpName op +:+ " " +:+ r)
     = Some "false").
Proof.
  split.
  - intros B vars cwd expr l op r Hm Hop Hnan.
    rewrite (evalExpression_comparison _ _ _ _ _ _ _ Hm).
    by apply evalComparison_nan.
  - intros B vars cwd l op r Hop Hl Hr Hnan.
    rewrite evalExpression_words by done.
    by apply evalComparison_nan.
Qed.

Lemma evalExpression_numeric_nan_witness :
  evalExpression sampleBuiltins ∅ "C:\Users" " 'pear' -GE 'apple' "
  = Some "false" ∧
  evalExpression sampleBuiltins {["x" := "1"]} "C:\Users" "pear -lt apple"
  = Some "false".
Proof.
  split.
  - apply (proj1 evalExpression_numeric_nan sampleBuiltins ∅ "C:\Users"
             " 'pear' -GE 'apple' " "'pear'" OpGe "'apple'").
    + vm_compute. reflexivity.
    + reflexivity.
    + left. vm_compute. reflexivity.
  - apply (proj2 evalExpression_numeric_nan sampleBuiltins {["x" := "1"]}
             "C:\Users" "pear" OpLt "apple").
    + reflexivity.
    + reflexivity.
    + reflexivity.
    + left. vm_compute. reflexivity.
Defined.

(** * Further properties of the code *)

(** * More about paths *)

Lemma last_char_snoc s c : last_char (s +:+ String c "") = Some c.
Proof. by rewrite last_char_app. Qed.

Lemma endsWith_app_cons a s c t :
  endsWith_char a (s +:+ String c t) = endsWith_char a (String c t).
Proof. unfold endsWith_char. by rewrite last_char_app. Qed.

Lemma endsWith_all a (P : ascii → bool) s :
  P a = false → all_chars P s = true → endsWith_char a s = false.
Proof.
  intros Ha Hs. unfold endsWith_char.
  destruct (last_char s) as [c|] eqn:Hl; [|done].
  destruct (Ascii.eqb_spec c a) as [->|]; [|done].
  apply (last_char_all P) in Hl; [congruence|done].
Qed.

Lemma noDouble_cons c s :
  noDouble (String c s) =
  match s with
  | String c' _ =>
      negb (Ascii.eqb c backslash && Ascii.eqb c' backslash) && noDouble s
  | "" => true
  end.
Proof. by destruct s. Qed.

Lemma noDouble_app s c t :
  noDouble s = true → noDouble (String c t) = true →
  endsWith_char backslash s && Ascii.eqb c backslash = false →
  noDouble (s +:+ String c t) = true.
Proof.
  induction s as [|a s IH]; intros Hs Ht He.
  - by rewrite str_app_nil_l.
  - destruct s as [|b s].
    + rewrite str_app_cons, str_app_nil_l, noDouble_cons, Ht, andb_true_r.
      unfold endsWith_char in He. simpl in He. by rewrite He.
    + rewrite noDouble_cons in Hs.
      apply andb_true_iff in Hs as [Hs1 Hs2].
      rewrite str_app_cons, str_app_cons, noDouble_cons, Hs1.
      rewrite <- str_app_cons. simpl. apply IH; [done..|].
      by rewrite <- He.
Qed.

Lemma upperDrive_app s t :
  (2 ≤ String.length s)%nat → upperDrive (s +:+ t) = upperDrive s +:+ t.
Proof.
  destruct s as [|a [|b s]]; [simpl; lia..|]. intros _.
  rewrite !str_app_cons, !upperDrive_cons.
  destruct (Ascii.eqb b colon), (Ascii.eqb a sharpS);
    by rewrite !str_app_cons.
Qed.

Lemma upperDrive_join d t :
  upperDrive d = d → upperDrive (d +:+ String backslash t) = d +:+ String backslash t.
Proof.
  intros Hd. destruct d as [|a [|b d]].
  - rewrite str_app_nil_l. destruct t as [|c t]; [done|].
    rewrite upperDrive_cons. by destruct (Ascii.eqb c colon).
  - done.
  - rewrite upperDrive_app by (simpl; lia). by rewrite Hd.
Qed.

Lemma isSegment_inv name :
  isSegment name = true →
  ∃ c t, name = String c t ∧ noSlash name = true ∧ noBackslash name = true.
Proof.
  unfold isSegment. intros [Hne Hall]%andb_true_iff.
  destruct name as [|c t]; [done|]. exists c, t. split; [done|].
  split; (eapply all_chars_impl; [|exact Hall]); intros a; unfold isSep;
    by intros [? ?]%negb_true_iff%orb_false_iff; apply negb_true_iff.
Qed.

(** A normal path that does not end in a separator, extended by a segment,
    is in normal form. *)
Lemma normPath_join d name :
  normPath d = d → endsWith_char backslash d = false →
  isSegment name = true →
  normPath (d +:+ "\" +:+ name) = d +:+ "\" +:+ name.
Proof.
  intros Hd He (c & t & -> & Hs & Hb)%isSegment_inv.
  pose proof (normPath_fixed_normalForm _ Hd) as [N1 N2 N3 N4].
  apply normalForm_fixed. split.
  - unfold noSlash in *. rewrite !all_chars_app, N1. by rewrite Hs.
  - change ("\" +:+ String c t) with (String backslash (String c t)).
    apply noDouble_app; [done| |by rewrite He].
    rewrite noDouble_cons.
    unfold noBackslash in Hb. simpl in Hb.
    apply andb_true_iff in Hb as [Hc Hb].
    apply negb_true_iff in Hc. rewrite Hc, andb_false_r. simpl.
    clear -Hc Hb. revert c Hc Hb.
    induction t as [|b t IH]; intros c Hc Hb; [done|].
    rewrite noDouble_cons. simpl in Hb.
    apply andb_true_iff in Hb as [Hb1 Hb2]. apply negb_true_iff in Hb1.
    rewrite Hc. simpl. destruct t; [done|]. apply (IH b); done.
  - unfold trailingOk.
    change ("\" +:+ String c t) with (String backslash (String c t)).
    rewrite endsWith_app_cons.
    change (String backslash (String c t)) with ("\" +:+ String c t).
    rewrite endsWith_app_cons.
    rewrite (endsWith_all backslash (λ c, negb (Ascii.eqb c backslash)));
      [done| |done].
    by rewrite Ascii.eqb_refl.
  - by apply upperDrive_join.
Qed.

(** The text after the last backslash. *)
Lemma drop_str_all P n s :
  all_chars P s = true → all_chars P (drop_str n s) = true.
Proof.
  revert s; induction n as [|n IH]; intros [|c s]; simpl; try done.
  intros [_ ?]%andb_true_iff. by apply IH.
Qed.

Lemma baseName_noBackslash s : noBackslash (baseName s) = true.
Proof.
  unfold baseName, noBackslash. induction s as [|a s IH]; [done|].
  cbn [lastIndexOf].
  pose proof (lastIndexOf_lower backslash s).
  destruct (0 <=? lastIndexOf backslash s) eqn:Hr.
  - apply Z.leb_le in Hr.
    replace (Z.to_nat (lastIndexOf backslash s + 1 + 1))
      with (S (Z.to_nat (lastIndexOf backslash s + 1))) by lia.
    exact IH.
  - apply Z.leb_gt in Hr.
    assert (lastIndexOf backslash s = -1) as Hm by lia.
    rewrite Hm in IH. simpl in IH.
    destruct (Ascii.eqb a backslash) eqn:Ha; simpl.
    + exact IH.
    + by rewrite Ha, IH.
Qed.

Lemma baseName_noSlash s : noSlash s = true → noSlash (baseName s) = true.
Proof. intros. by apply drop_str_all. Qed.

Lemma lastIndexOf_none c s :
  all_chars (λ a, negb (Ascii.eqb a c)) s = true → lastIndexOf c s = -1.
Proof.
  induction s as [|a s IH]; [done|]. simpl.
  intros [Ha Hs]%andb_true_iff. rewrite (IH Hs). simpl.
  apply negb_true_iff in Ha. by rewrite Ha.
Qed.

(** The file name of a normal path is a segment, when it is not empty. *)
Lemma baseName_segment p :
  baseName (normPath p) ≠ "" → isSegment (baseName (normPath p)) = true.
Proof.
  intros Hb. unfold isSegment.
  destruct (String.eqb_spec (baseName (normPath p)) ""); [done|]. simpl.
  pose proof (baseName_noBackslash (normPath p)) as H1.
  pose proof (baseName_noSlash (normPath p) (normPath_noSlash p)) as H2.
  unfold noBackslash, noSlash in *.
  revert H1 H2. generalize (baseName (normPath p)).
  induction s as [|a s IH]; [done|]. simpl.
  intros [A1 A2]%andb_true_iff [B1 B2]%andb_true_iff.
  rewrite (IH A2 B2), andb_true_r. unfold isSep.
  apply negb_true_iff in A1, B1. by rewrite A1, B1.
Qed.

(** * More about the store *)


Lemma fsIsDir_false_file p vfs : fsIsFile p vfs = true → fsIsDir p vfs = false.
Proof.
  unfold fsIsFile, fsIsDir. destruct (vfs !! normPath p) as [n|]; [|done].
  intros H%bool_decide_eq_true. apply bool_decide_eq_false. congruence.
Qed.

(** A key with a backslash is no name of the prototype. *)
Lemma inherited_join d t : inherited (d +:+ String backslash t) = false.
Proof.
  destruct (inherited _) eqn:E; [|done].
  apply inherited_word in E. rewrite all_chars_app in E.
  by apply andb_true_iff in E as [_ E].
Qed.

Lemma not_proto_join d t : d +:+ String backslash t ≠ "__proto__".
Proof.
  intros H. pose proof (inherited_join d t) as E. by rewrite H in E.
Qed.

Lemma allKeysNormal_insert k n vfs :
  normPath k = k → allKeysNormal vfs → allKeysNormal (<[k := n]> vfs).
Proof.
  intros Hk Hv k' [n' Hn'].
  destruct (decide (k' = k)) as [->|Hne]; [done|].
  rewrite lookup_insert_ne in Hn' by done. by apply Hv.
Qed.

Lemma allKeysNormal_assign k n vfs :
  normPath k = k → allKeysNormal vfs → allKeysNormal (assign k n vfs).
Proof.
  intros Hk Hv. unfold assign. destruct (decide _); [done|].
  by apply allKeysNormal_insert.
Qed.

Lemma allKeysNormal_subseteq (vfs vfs' : store) :
  vfs' ⊆ vfs → allKeysNormal vfs → allKeysNormal vfs'.
Proof.
  intros Hsub Hv k [n Hn]. apply Hv. exists n.
  by eapply lookup_weaken.
Qed.

Lemma fsDelete_subseteq p vfs : snd (fsDelete p vfs) ⊆ vfs.
Proof.
  unfold fsDelete.
  destruct (negb (fsExists (normPath p) vfs)); [done|].
  destruct (fsIsDir (normPath p) vfs); simpl.
  - apply map_filter_subseteq.
  - apply delete_subseteq.
Qed.

Lemma allKeysNormal_empty : allKeysNormal ∅.
Proof. intros k [n Hn]. by rewrite lookup_empty in Hn. Qed.

Lemma allKeysNormal_fold {A} (f : A → string) (g : A → node) l vfs :
  Forall (λ a, normPath (normPath (f a)) = normPath (f a)) l →
  allKeysNormal vfs →
  allKeysNormal (fold_left (λ v a, assign (normPath (f a)) (g a) v) l vfs).
Proof.
  revert vfs; induction l as [|a l IH]; intros vfs Hl Hv; [done|].
  apply Forall_cons in Hl as [Ha Hl].
  simpl. apply IH; [done|]. by apply allKeysNormal_assign.
Qed.

Lemma initFS_allKeysNormal now : allKeysNormal (initFS now).
Proof.
  unfold initFS.
  assert (allKeysNormal
            (fold_left (λ v d, assign (normPath d)
                                 (mkNode (Some Dir) None (Some now) now) v)
                       defaultDirs ∅)) as H1.
  { apply (allKeysNormal_fold (λ d, d)); [|apply allKeysNormal_empty].
    unfold defaultDirs. by repeat constructor. }
  pose proof (allKeysNormal_fold (λ pc : string * string, pc.1)
                (λ pc, mkNode (Some File) (Some pc.2) (Some now) now)
                defaultFiles _
                ltac:(unfold defaultFiles; by repeat constructor) H1) as H2.
  simpl in H2 |- *. exact H2.
Qed.

Lemma fsMkdir_allKeysNormal now p vfs :
  normPath (normPath p) = normPath p →
  allKeysNormal vfs → allKeysNormal (snd (fsMkdir now p vfs)).
Proof.
  intros Hp Hv. unfold fsMkdir. destruct (fsExists (normPath p) vfs); [done|].
  simpl. by apply allKeysNormal_assign.
Qed.

Lemma fsWriteFile_allKeysNormal now p c append vfs :
  normPath (normPath p) = normPath p →
  allKeysNormal vfs → allKeysNormal (fsWriteFile now p c append vfs).
Proof.
  intros Hp Hv. unfold fsWriteFile.
  destruct (append && fsIsFile (normPath p) vfs).
  - intros k [n Hn]. apply Hv.
    destruct (decide (k = normPath p)) as [->|Hne].
    + rewrite lookup_alter_eq in Hn.
      destruct (vfs !! normPath p); [eauto|done].
    + rewrite lookup_alter_ne in Hn by done. eauto.
  - by apply allKeysNormal_assign.
Qed.

Lemma fsDelete_allKeysNormal p vfs :
  allKeysNormal vfs → allKeysNormal (snd (fsDelete p vfs)).
Proof. apply allKeysNormal_subseteq, fsDelete_subseteq. Qed.

(** The copy of a file, when [normPath] leaves the normalised source as it
    is. *)
Lemma fsCopy_file now src dst vfs n :
  normPath (normPath src) = normPath src →
  vfs !! normPath src = Some n → type n = Some File →
  fsCopy now src dst vfs
  = (true, assign (copyTarget src dst vfs) (touch now (Some n)) vfs).
Proof.
  intros Hs Hn Ht. unfold fsCopy, copyTarget.
  rewrite fsExists_norm, fsIsFile_norm by done.
  assert (fsExists src vfs = true) as -> by (apply fsExists_own; eauto).
  assert (fsIsFile src vfs = true) as -> by (apply fsIsFile_true; eauto).
  simpl. by rewrite Hn.
Qed.

Lemma noDouble_join_false d t :
  endsWith_char backslash d = true →
  noDouble (d +:+ String backslash t) = false.
Proof.
  induction d as [|a d IH]; [done|]. intros He.
  destruct d as [|b d].
  - unfold endsWith_char in He. simpl in He.
    rewrite str_app_cons, str_app_nil_l, noDouble_cons, He.
    by rewrite Ascii.eqb_refl.
  - rewrite str_app_cons. rewrite noDouble_cons.
    rewrite str_app_cons. rewrite <- str_app_cons.
    rewrite IH; [apply andb_false_r|]. exact He.
Qed.

Lemma fsGetContent_lookup p vfs n :
  vfs !! normPath p = Some n → fsGetContent p vfs = default "" (content n).
Proof. unfold fsGetContent. by intros ->. Qed.

Lemma length_join_ne d t : d +:+ String backslash t ≠ d.
Proof.
  intros H. apply (f_equal String.length) in H.
  rewrite str_length_app in H. simpl in H. lia.
Qed.

Lemma fsIsFile_file p vfs :
  fsIsFile p vfs = true → fsExists p vfs = true ∧ fsIsDir p vfs = false.
Proof.
  intros H. split; [by apply fsIsFile_exists|by apply fsIsDir_false_file].
Qed.

Lemma fsExists_lookup p (vfs vfs' : store) :
  vfs' !! normPath p = vfs !! normPath p →
  fsExists p vfs' = fsExists p vfs ∧ fsIsDir p vfs' = fsIsDir p vfs ∧
  fsIsFile p vfs' = fsIsFile p vfs ∧ fsGetContent p vfs' = fsGetContent p vfs.
Proof.
  intros H. unfold fsExists, hasKey, fsIsDir, fsIsFile, fsGetContent.
  by rewrite H.
Qed.

(** The two outcomes of a move of a file. *)
Lemma fsMove_other now src dst vfs n :
  normPath (normPath src) = normPath src →
  normPath (normPath dst) = normPath dst → normPath dst ≠ "__proto__" →
  vfs !! normPath src = Some n → type n = Some File →
  fsIsDir dst vfs = false → normPath dst ≠ normPath src →
  fsMove now src dst vfs
  = (true,
     delete (normPath src) (<[normPath dst := touch now (Some n)]> vfs)).
Proof.
  intros Hs Hd' Hp Hn Ht Hd Hne. unfold fsMove.
  rewrite (fsCopy_file _ _ _ _ _ Hs Hn Ht). unfold copyTarget.
  rewrite fsIsDir_norm, Hd, assign_ne by done.
  simpl. rewrite fsDelete_file; [done|done| |].
  - apply fsExists_own. rewrite lookup_insert_ne by done. eauto.
  - apply fsIsDir_false_file, fsIsFile_true. exists n.
    by rewrite lookup_insert_ne.
Qed.

Lemma fsMove_same now src dst vfs :
  normPath (normPath src) = normPath src →
  fsIsFile src vfs = true → copyTarget src dst vfs = normPath src →
  fsMove now src dst vfs = (true, delete (normPath src) vfs).
Proof.
  intros Hs Hf Hkey. pose proof Hf as (n & Hn & Ht)%fsIsFile_true.
  unfold fsMove. rewrite (fsCopy_file _ _ _ _ _ Hs Hn Ht), Hkey.
  rewrite assign_own by eauto. simpl.
  rewrite fsDelete_file; [|done| |].
  - simpl. f_equal. apply delete_insert_eq.
  - apply fsExists_own. rewrite lookup_insert_eq. eauto.
  - apply fsIsDir_false_file, fsIsFile_true. exists (touch now (Some n)).
    by rewrite lookup_insert_eq.
Qed.

(** * Listing *)

Lemma str_app_inj_l s t u : s +:+ t = s +:+ u → t = u.
Proof.
  induction s as [|a s IH]; [by rewrite !str_app_nil_l|].
  rewrite !str_app_cons. intros [= H]. by apply IH.
Qed.

Lemma isChildKey_spec prefix k :
  isChildKey prefix k = true ↔
  ∃ name, k = prefix +:+ name ∧ name ≠ "" ∧ noBackslash name = true.
Proof.
  unfold isChildKey. split.
  - intros [Hp [Hl Hn]%andb_true_iff]%andb_true_iff.
    apply startsWith_inv in Hp as [name ->].
    rewrite drop_str_app in Hl, Hn. exists name. split_and!; [done| |done].
    intros ->. done.
  - intros (name & -> & Hne & Hn).
    rewrite startsWith_app, drop_str_app. simpl.
    apply andb_true_iff. split; [|done].
    destruct name; [done|]. done.
Qed.

Lemma elem_of_fsListDir e dir vfs :
  e ∈ fsListDir dir vfs ↔
  entry_path e = listPrefix dir +:+ entry_name e ∧ entry_name e ≠ "" ∧
  noBackslash (entry_name e) = true ∧
  vfs !! entry_path e = Some (entry_node e).
Proof.
  unfold fsListDir. rewrite list_elem_of_fmap. split.
  - intros ([k n] & -> & [Hc Hk]%list_elem_of_filter). simpl in *.
    apply elem_of_map_to_list in Hk.
    apply isChildKey_spec in Hc as (name & -> & Hne & Hn).
    by rewrite drop_str_app.
  - destruct e as [k name n]. simpl. intros (-> & Hne & Hn & Hk).
    exists (listPrefix dir +:+ name, n). simpl.
    rewrite drop_str_app. split; [done|].
    apply list_elem_of_filter. split.
    + simpl. apply isChildKey_spec. eauto.
    + by apply elem_of_map_to_list.
Qed.

Lemma fsListDir_NoDup dir vfs : NoDup (entry_path <$> fsListDir dir vfs).
Proof.
  unfold fsListDir. rewrite <- list_fmap_compose.
  assert (∀ l : list (string * node),
            (entry_path ∘ (λ kn : string * node,
               mkEntry kn.1 (drop_str (String.length (listPrefix dir)) kn.1)
                       kn.2)) <$> l = l.*1) as ->.
  { intros l. by apply list_fmap_ext. }
  apply (sublist_NoDup _ (map_to_list vfs).*1).
  - apply NoDup_fst_map_to_list.
  - apply fmap_sublist, sublist_filter.
Qed.

Lemma listPrefix_no_trailing d :
  endsWith_char backslash (normPath d) = false →
  listPrefix d = normPath d +:+ "\".
Proof. unfold listPrefix. by intros ->. Qed.

Lemma listPrefix_trailing d :
  endsWith_char backslash (normPath d) = true → listPrefix d = normPath d.
Proof. unfold listPrefix. by intros ->. Qed.

Lemma noBackslash_head name t :
  noBackslash name = true → name ≠ "" → name ≠ String backslash t.
Proof.
  intros Hn _ ->. unfold noBackslash in Hn. by simpl in Hn.
Qed.

(** * Resolving a plain name *)

Lemma rev_rev_app s : String.rev (String.rev_app s "") = s.
Proof.
  unfold String.rev. rewrite rev_app_rev_app. simpl.
  generalize (s +:+ "") (str_app_nil_r s). intros ? ->. done.
Qed.

Lemma split_go_no_sep cur s :
  all_chars (λ c, negb (isSep c)) s = true →
  split_go cur s = [String.rev (String.rev_app s cur)].
Proof.
  revert cur; induction s as [|c s IH]; intros cur; [done|].
  simpl. intros [Hc Hs]%andb_true_iff. apply negb_true_iff in Hc.
  rewrite Hc. by apply IH.
Qed.

Lemma splitPath_no_sep s :
  all_chars (λ c, negb (isSep c)) s = true → splitPath s = [s].
Proof.
  intros H. unfold splitPath. rewrite split_go_no_sep by done.
  by rewrite rev_rev_app.
Qed.

Lemma isPlainChar_facts c :
  isPlainChar c = true →
  isSep c = false ∧ isSpace c = false ∧ isQuote c = false ∧
  Ascii.eqb c colon = false.
Proof.
  unfold isPlainChar. intros H%negb_true_iff.
  apply orb_false_iff in H as [H H4]. apply orb_false_iff in H as [H H3].
  apply orb_false_iff in H as [H1 H2]. done.
Qed.

Lemma isPlainName_inv name :
  isPlainName name = true →
  ∃ c t, name = String c t ∧ isPlainChar c = true ∧
         all_chars isPlainChar name = true ∧
         name ≠ "." ∧ name ≠ "..".
Proof.
  unfold isPlainName.
  intros [[[H1 H2]%andb_true_iff H3]%andb_true_iff H4]%andb_true_iff.
  destruct name as [|c t]; [done|]. exists c, t.
  pose proof H4 as [Hc _]%andb_true_iff.
  split_and!; [done..| |].
  - intros Heq. by rewrite Heq in H2.
  - intros Heq. by rewrite Heq in H3.
Qed.

Lemma isPlainName_segment name : isPlainName name = true → isSegment name = true.
Proof.
  intros (c & t & -> & _ & Hall & _)%isPlainName_inv.
  unfold isSegment.
  change (negb (String.eqb (String c t) "")) with true. cbv iota.
  change (true && ?x) with x.
  eapply all_chars_impl; [|exact Hall].
  intros a Ha%isPlainChar_facts. destruct Ha as [-> _]. done.
Qed.

Lemma resolvePath_plain cwd name :
  isPlainName name = true →
  resolvePath cwd name = normPath (cwd +:+ "\" +:+ name).
Proof.
  intros Hp.
  pose proof Hp as (c & t & Hname & Hc & Hall & Hd1 & Hd2)%isPlainName_inv.
  apply isPlainChar_facts in Hc as (Hc1 & Hc2 & Hc3 & Hc4).
  unfold resolvePath.
  assert (String.eqb name "" = false) as -> by (rewrite Hname; done).
  assert (String.eqb name "." = false) as E1 by (by apply String.eqb_neq).
  assert (String.eqb name ".." = false) as E2 by (by apply String.eqb_neq).
  rewrite E1. simpl orb. cbv iota.
  assert (trim name = name) as ->.
  { rewrite Hname. apply trim_id; [done|].
    rewrite Hname in Hall. simpl in Hall.
    apply andb_true_iff in Hall as [_ Hall].
    eapply all_chars_impl; [|exact Hall].
    intros a Ha%isPlainChar_facts. destruct Ha as (_ & -> & _). done. }
  assert (stripQuotes name = name) as ->.
  { rewrite Hname. apply stripQuotes_id; [done|].
    rewrite Hname in Hall. simpl in Hall.
    apply andb_true_iff in Hall as [_ Hall].
    eapply all_chars_impl; [|exact Hall].
    intros a Ha%isPlainChar_facts. destruct Ha as (_ & _ & -> & _). done. }
  assert (isAbsolute name = false) as ->.
  { rewrite Hname. destruct t as [|b t]; [done|].
    unfold isAbsolute.
    rewrite Hname in Hall. simpl in Hall.
    apply andb_true_iff in Hall as [_ [Hb _]%andb_true_iff].
    apply isPlainChar_facts in Hb as (_ & _ & _ & ->).
    apply andb_false_r. }
  rewrite splitPath_no_sep.
  - simpl. unfold resolveStep. rewrite E1, E2.
    assert (String.eqb name "" = false) as -> by (rewrite Hname; done).
    done.
  - eapply all_chars_impl; [|exact Hall].
    intros a Ha%isPlainChar_facts. destruct Ha as (-> & _). done.
Qed.

Lemma resolvePath_dotdot cwd :
  resolvePath cwd ".." = normPath (resolveStep cwd "..").
Proof. exact (resolvePath_dotdots cwd 0). Qed.

Lemma lastIndexOf_join d name :
  noBackslash name = true →
  lastIndexOf backslash (d +:+ "\" +:+ name) = Z.of_nat (String.length d).
Proof.
  intros Hn. rewrite lastIndexOf_app.
  change ("\" +:+ name) with (String backslash name).
  cbn [lastIndexOf]. rewrite (lastIndexOf_none _ _ Hn). simpl. lia.
Qed.

(** * The token parser *)

Lemma length_rev_app s acc :
  String.length (String.rev_app s acc)
  = (String.length s + String.length acc)%nat.
Proof.
  revert acc; induction s as [|c s IH]; intros acc; [done|].
  simpl. rewrite IH. simpl. lia.
Qed.

Lemma rev_nonempty c s : String.rev (String c s) ≠ "".
Proof.
  intros H. apply (f_equal String.length) in H.
  unfold String.rev in H. simpl in H. rewrite length_rev_app in H.
  simpl in H. lia.
Qed.

Lemma rev_app_nonempty s c acc : String.rev_app s (String c acc) ≠ "".
Proof.
  intros H. apply (f_equal String.length) in H.
  rewrite length_rev_app in H. simpl in H. lia.
Qed.

Lemma pushArg_no_empty cur t : t ∈ pushArg cur → t ≠ "".
Proof.
  destruct cur as [|c cur]; simpl.
  - by intros ?%elem_of_nil.
  - intros ->%list_elem_of_singleton. apply rev_nonempty.
Qed.

Lemma parseArgs_go_no_empty inS inD cur s t :
  t ∈ parseArgs_go inS inD cur s → t ≠ "".
Proof.
  revert inS inD cur; induction s as [|c s IH]; intros inS inD cur.
  - apply pushArg_no_empty.
  - simpl.
    destruct (Ascii.eqb c squote && negb inD); [apply IH|].
    destruct (Ascii.eqb c dquote && negb inS); [apply IH|].
    destruct (Ascii.eqb c " " && negb inS && negb inD); [|apply IH].
    intros [H|H]%elem_of_app; [by eapply pushArg_no_empty|by eapply IH].
Qed.

Lemma pushArg_rev_app w :
  pushArg (String.rev_app w "") = match w with "" => [] | _ => [w] end.
Proof.
  destruct w as [|c w]; [done|].
  unfold pushArg. simpl String.rev_app.
  destruct (String.rev_app w (String c "")) eqn:E.
  - by apply rev_app_nonempty in E.
  - rewrite <- E. change (String.rev_app w (String c ""))
      with (String.rev_app (String c w) ""). by rewrite rev_rev_app.
Qed.

Lemma isBareChar_facts c :
  isBareChar c = true →
  Ascii.eqb c " " = false ∧ Ascii.eqb c squote = false ∧
  Ascii.eqb c dquote = false.
Proof.
  unfold isBareChar, isQuote.
  intros [H1 [H2 H3]%orb_false_iff]%negb_true_iff%orb_false_iff. done.
Qed.

(** Reading the characters of a bare word, and of a quoted text. *)
Lemma parseArgs_go_bare w cur rest :
  all_chars isBareChar w = true →
  parseArgs_go false false cur (w +:+ rest)
  = parseArgs_go false false (String.rev_app w cur) rest.
Proof.
  revert cur; induction w as [|c w IH]; intros cur; [done|].
  simpl. intros [(H1 & H2 & H3)%isBareChar_facts Hw]%andb_true_iff.
  rewrite H1, H2, H3. simpl. by apply IH.
Qed.

Lemma parseArgs_go_double t cur rest :
  lacks dquote t = true →
  parseArgs_go false true cur (t +:+ rest)
  = parseArgs_go false true (String.rev_app t cur) rest.
Proof.
  revert cur; induction t as [|c t IH]; intros cur; [done|].
  unfold lacks. simpl. intros [Hc Ht]%andb_true_iff.
  apply negb_true_iff in Hc. rewrite Hc. simpl.
  rewrite !andb_false_r. by apply IH.
Qed.

Lemma parseArgs_go_single t cur rest :
  lacks squote t = true →
  parseArgs_go true false cur (t +:+ rest)
  = parseArgs_go true false (String.rev_app t cur) rest.
Proof.
  revert cur; induction t as [|c t IH]; intros cur; [done|].
  unfold lacks. simpl. intros [Hc Ht]%andb_true_iff.
  apply negb_true_iff in Hc. rewrite Hc. simpl.
  rewrite !andb_false_r. by apply IH.
Qed.

Lemma isBareWord_inv w :
  isBareWord w = true →
  ∃ c t, w = String c t ∧ all_chars isBareChar w = true.
Proof.
  unfold isBareWord. destruct w as [|c t]; [done|]. simpl. eauto.
Qed.

Lemma parseArgs_word_space w rest :
  isBareWord w = true →
  parseArgs (w +:+ " " +:+ rest) = w :: parseArgs rest.
Proof.
  intros (c & t & Hw & Hall)%isBareWord_inv. unfold parseArgs.
  rewrite parseArgs_go_bare by done.
  change (" " +:+ rest) with (String " " rest).
  cbn [parseArgs_go]. simpl andb. cbv iota.
  rewrite pushArg_rev_app. by rewrite Hw.
Qed.

Lemma parseArgs_word w : isBareWord w = true → parseArgs w = [w].
Proof.
  intros (c & t & Hw & Hall)%isBareWord_inv. unfold parseArgs.
  rewrite <- (str_app_nil_r w) at 1.
  rewrite parseArgs_go_bare by done. simpl.
  rewrite pushArg_rev_app. by rewrite Hw.
Qed.

Lemma parseArgs_concat ws :
  Forall (λ w, isBareWord w = true) ws →
  parseArgs (String.concat " " ws) = ws.
Proof.
  induction 1 as [|w ws Hw Hws IH]; [done|].
  destruct ws as [|w' ws].
  - simpl. by apply parseArgs_word.
  - change (String.concat " " (w :: w' :: ws))
      with (w +:+ " " +:+ String.concat " " (w' :: ws)).
    rewrite parseArgs_word_space by done. by rewrite IH.
Qed.

(** * Named parameters *)

Lemma toLowerChar_idem c : toLowerChar (toLowerChar c) = toLowerChar c.
Proof. by ascii_cases c. Qed.

Lemma toLowerCase_idem s : toLowerCase (toLowerCase s) = toLowerCase s.
Proof.
  induction s as [|c s IH]; [done|]. simpl. by rewrite toLowerChar_idem, IH.
Qed.

Lemma toLowerCase_take n s :
  toLowerCase (take_str n s) = take_str n (toLowerCase s).
Proof.
  revert s; induction n as [|n IH]; intros [|c s]; simpl; try done.
  by rewrite IH.
Qed.

Lemma startsWithDash_inv a : startsWithDash a = true → ∃ r, a = String "-" r.
Proof.
  unfold startsWithDash. intros [r ->]%startsWith_inv. by exists r.
Qed.

Lemma startsWithDash_dash x : startsWithDash ("-" +:+ x) = true.
Proof. by destruct x. Qed.

Lemma indexOf_none c s : lacks c s = true → indexOf c s = -1.
Proof.
  unfold lacks. induction s as [|a s IH]; [done|]. simpl.
  intros [Ha Hs]%andb_true_iff. apply negb_true_iff in Ha.
  by rewrite Ha, (IH Hs).
Qed.

Lemma indexOf_app c s t :
  lacks c s = true →
  indexOf c (s +:+ String c t) = Z.of_nat (String.length s).
Proof.
  unfold lacks. induction s as [|a s IH].
  - intros _. rewrite str_app_nil_l. simpl. by rewrite Ascii.eqb_refl.
  - rewrite str_app_cons. cbn [all_chars indexOf].
    intros [Ha Hs]%andb_true_iff. apply negb_true_iff in Ha.
    rewrite Ha, (IH Hs).
    destruct (0 <=? Z.of_nat (String.length s)) eqn:E;
      [|apply Z.leb_gt in E; lia].
    simpl String.length. lia.
Qed.

(** The key a dash argument sets: the lower-case argument starts with a
    dash and the key. *)
Lemma setParam_lookup name val ps k :
  is_Some (setParam name val ps !! k) →
  is_Some (ps !! k) ∨ (k = toLowerCase name ∧ k ≠ "__proto__").
Proof.
  unfold setParam.
  destruct (String.eqb_spec (toLowerCase name) "__proto__") as [|Hne];
    [by left|].
  destruct (decide (k = toLowerCase name)) as [->|Hk]; [by right|].
  rewrite lookup_insert_ne by done. by left.
Qed.

Lemma keyOf_cons k a args : keyOf k args → keyOf k (a :: args).
Proof.
  intros (H1 & H2 & b & Hb & H3). split_and!; [done..|].
  exists b. split; [by right|done].
Qed.

Lemma keyOf_slice k r :
  k ≠ "__proto__" → k = toLowerCase r → ∀ args, keyOf k (String "-" r :: args).
Proof.
  intros Hne -> args. split_and!; [apply toLowerCase_idem|done|].
  exists (String "-" r). split; [by left|]. apply startsWith_refl.
Qed.

Lemma keyOf_colon k r n :
  k ≠ "__proto__" →
  k = toLowerCase (drop_str 1 (take_str (S n) (String "-" r))) →
  ∀ args, keyOf k (String "-" r :: args).
Proof.
  intros Hne -> args. split_and!; [apply toLowerCase_idem|done|].
  exists (String "-" r). split; [by left|].
  simpl. rewrite toLowerCase_take.
  change ("-" +:+ take_str n (toLowerCase r))
    with (String "-" (take_str n (toLowerCase r))).
  unfold startsWith. simpl. apply take_str_prefix.
Qed.

Lemma parseNamedParams_go_spec n :
  ∀ args ps pos, (length args ≤ n)%nat →
  ∃ l, snd (parseNamedParams_go ps pos args) = pos ++ l ∧
       l `sublist_of` args ∧
       Forall (λ a, startsWithDash a = false) l ∧
       ∀ k, is_Some (fst (parseNamedParams_go ps pos args) !! k) →
            is_Some (ps !! k) ∨ keyOf k args.
Proof.
  induction n as [|n IH]; intros args ps pos Hlen.
  { destruct args; [|simpl in Hlen; lia]. exists []. simpl.
    rewrite app_nil_r. split_and!; [done..|]. by left. }
  destruct args as [|a rest].
  { exists []. simpl. rewrite app_nil_r. split_and!; [done..|]. by left. }
  simpl in Hlen. cbn [parseNamedParams_go].
  destruct (startsWithDash a) eqn:Hd.
  - apply startsWithDash_inv in Hd as [r ->].
    destruct (0 <? indexOf colon (String "-" r)) eqn:Hc.
    + destruct (IH rest (setParam (drop_str 1 (take_str (Z.to_nat (indexOf colon (String "-" r))) (String "-" r)))
                           (PText (drop_str (Z.to_nat (indexOf colon (String "-" r) + 1)) (String "-" r))) ps)
                  pos ltac:(lia)) as (l & H1 & H2 & H3 & H4).
      exists l. split_and!; [done|by apply sublist_cons|done|].
      intros k [Hk|Hk]%H4; [|right; by apply keyOf_cons].
      apply setParam_lookup in Hk as [Hk|[Hk Hne]]; [by left|right].
      apply Z.ltb_lt in Hc.
      eapply (keyOf_colon k r (Z.to_nat (indexOf colon (String "-" r)) - 1));
        [done|].
      replace (S (Z.to_nat (indexOf colon (String "-" r)) - 1))
        with (Z.to_nat (indexOf colon (String "-" r))) by lia.
      done.
    + destruct rest as [|v rest'].
      * exists []. simpl. rewrite app_nil_r. split_and!; [done| |done|].
        { apply sublist_nil_l. }
        intros k [Hk|[Hk Hne]]%setParam_lookup; [by left|right].
        by apply keyOf_slice.
      * destruct (startsWithDash v) eqn:Hv; simpl negb; cbv iota.
        -- destruct (IH (v :: rest') (setParam (drop_str 1 (String "-" r)) PTrue ps)
                       pos ltac:(lia)) as (l & H1 & H2 & H3 & H4).
           exists l. split_and!; [done|by apply sublist_cons|done|].
           intros k [Hk|Hk]%H4; [|right; by apply keyOf_cons].
           apply setParam_lookup in Hk as [Hk|[Hk Hne]]; [by left|right].
           by apply keyOf_slice.
        -- simpl in Hlen.
           destruct (IH rest' (setParam (drop_str 1 (String "-" r)) (PText v) ps)
                       pos ltac:(lia)) as (l & H1 & H2 & H3 & H4).
           exists l. split_and!; [done|by do 2 apply sublist_cons|done|].
           intros k [Hk|Hk]%H4; [|right; by do 2 apply keyOf_cons].
           apply setParam_lookup in Hk as [Hk|[Hk Hne]]; [by left|right].
           by apply keyOf_slice.
  - destruct (IH rest ps (pos ++ [a]) ltac:(lia)) as (l & H1 & H2 & H3 & H4).
    exists (a :: l). split_and!.
    + rewrite H1. by rewrite <- app_assoc.
    + by apply sublist_skip.
    + by constructor.
    + intros k [Hk|Hk]%H4; [by left|right; by apply keyOf_cons].
Qed.

Lemma parseNamedParams_go_plain args ps pos :
  Forall (λ a, startsWithDash a = false) args →
  parseNamedParams_go ps pos args = (ps, pos ++ args).
Proof.
  intros H. revert pos. induction H as [|a args Ha _ IH]; intros pos.
  - simpl. by rewrite app_nil_r.
  - simpl. rewrite Ha, IH. by rewrite <- app_assoc.
Qed.

(** * Trimming *)

Lemma trimStart_shape s :
  trimStart s = "" ∨ ∃ c t, trimStart s = String c t ∧ isSpace c = false.
Proof.
  induction s as [|c s IH]; [by left|]. simpl.
  destruct (isSpace c) eqn:E; [done|]. right. eauto.
Qed.

Lemma trimEnd_cons c s :
  trimEnd (String c s) =
  match trimEnd s with
  | "" => if isSpace c then "" else String c ""
  | t => String c t
  end.
Proof. done. Qed.

Lemma trimEnd_shape s :
  trimEnd s = "" ∨
  ∃ c, last_char (trimEnd s) = Some c ∧ isSpace c = false.
Proof.
  induction s as [|c s IH]; [by left|]. rewrite trimEnd_cons.
  destruct IH as [->|(d & Hd & Hs)].
  - destruct (isSpace c) eqn:E; [by left|]. right. by exists c.
  - destruct (trimEnd s) as [|a t] eqn:Et; [done|].
    right. exists d. split; [|done]. exact Hd.
Qed.

Lemma trimEnd_head c s :
  isSpace c = false → ∃ t, trimEnd (String c s) = String c t.
Proof.
  intros Hc. rewrite trimEnd_cons, Hc. destruct (trimEnd s); eauto.
Qed.

Lemma trim_shape s :
  trim s = "" ∨
  ∃ c t d, trim s = String c t ∧ isSpace c = false ∧
           last_char (trim s) = Some d ∧ isSpace d = false.
Proof.
  unfold trim. destruct (trimStart_shape s) as [->|(c & t & -> & Hc)];
    [by left|].
  destruct (trimEnd_head c t Hc) as [u Hu].
  destruct (trimEnd_shape (String c t)) as [H|(d & Hd & Hs)].
  - rewrite Hu in H. done.
  - right. exists c, u, d. by rewrite <- Hu.
Qed.

Lemma trim_idem s : trim (trim s) = trim s.
Proof.
  destruct (trim_shape s) as [->|(c & t & d & Ht & Hc & Hd & Hs)]; [done|].
  unfold trim at 1. rewrite Ht. simpl trimStart. rewrite Hc.
  rewrite <- Ht. by apply (trimEnd_last _ d).
Qed.

Lemma trim_fixed c s d :
  isSpace c = false → last_char (String c s) = Some d → isSpace d = false →
  trim (String c s) = String c s.
Proof.
  intros Hc Hd Hs. unfold trim. simpl trimStart. rewrite Hc.
  by apply (trimEnd_last _ d).
Qed.

(** * Reversal *)

Lemma rev_app_app s t u :
  String.rev_app s (t +:+ u) = String.rev_app s t +:+ u.
Proof.
  revert t; induction s as [|c s IH]; intros t; [done|].
  simpl. by rewrite <- IH.
Qed.

Lemma rev_rev_app_app s cur :
  String.rev (String.rev_app s cur) = String.rev cur +:+ s.
Proof.
  unfold String.rev. rewrite rev_app_rev_app, str_app_nil_r.
  rewrite <- (str_app_nil_l s) at 1. by rewrite rev_app_app.
Qed.

(** * Segments *)

Lemma elem_of_nonEmpty t l : t ∈ nonEmpty l ↔ t ∈ l ∧ t ≠ "".
Proof. unfold nonEmpty. rewrite list_elem_of_filter. tauto. Qed.

Lemma nonEmpty_cons t l : nonEmpty (t :: l) = nonEmpty [t] ++ nonEmpty l.
Proof.
  unfold nonEmpty. rewrite !filter_cons. simpl.
  by destruct (decide (t ≠ "")).
Qed.

Lemma nonEmpty_single t :
  nonEmpty [t] = match t with "" => [] | _ => [t] end.
Proof.
  unfold nonEmpty. rewrite filter_cons. simpl.
  destruct t; [by rewrite decide_False by tauto|by rewrite decide_True].
Qed.

(** ** The pipeline *)

Lemma parsePipeline_go_trimmed inS inD cur s t :
  t ∈ parsePipeline_go inS inD cur s → trim t = t.
Proof.
  revert inS inD cur; induction s as [|c s IH]; intros inS inD cur.
  - simpl. intros ->%list_elem_of_singleton. apply trim_idem.
  - simpl.
    destruct (Ascii.eqb c squote && negb inD); [apply IH|].
    destruct (Ascii.eqb c dquote && negb inS); [apply IH|].
    destruct (Ascii.eqb c "|" && negb inS && negb inD); [|apply IH].
    intros [->|H]%elem_of_cons; [apply trim_idem|by eapply IH].
Qed.

Lemma parsePipeline_go_no_pipe inS inD cur s :
  lacks "|" s = true →
  parsePipeline_go inS inD cur s = [trim (String.rev cur +:+ s)].
Proof.
  unfold lacks.
  revert inS inD cur; induction s as [|c s IH]; intros inS inD cur.
  - by rewrite str_app_nil_r.
  - simpl. intros [Hc Hs]%andb_true_iff. apply negb_true_iff in Hc.
    rewrite Hc. simpl.
    assert (String.rev (String c cur) +:+ s = String.rev cur +:+ String c s)
      as Hrev.
    { change (String c cur) with (String.rev_app (String c "") cur).
      by rewrite rev_rev_app_app, str_app_assoc. }
    destruct (Ascii.eqb c squote && negb inD);
      [by rewrite IH, Hrev|].
    destruct (Ascii.eqb c dquote && negb inS); by rewrite IH, Hrev.
Qed.

(** Passing over a text without a quote and without a pipe, outside
    quotes. *)
Lemma parsePipeline_go_plain a cur rest :
  lacks "|" a = true → noQuote a = true →
  parsePipeline_go false false cur (a +:+ rest)
  = parsePipeline_go false false (String.rev_app a cur) rest.
Proof.
  unfold lacks, noQuote.
  revert cur; induction a as [|c a IH]; intros cur; [done|].
  simpl. intros [Hc Ha]%andb_true_iff [Hq Hb]%andb_true_iff.
  apply negb_true_iff in Hc, Hq. unfold isQuote in Hq.
  apply orb_false_iff in Hq as [Hq1 Hq2].
  rewrite Hc, Hq1, Hq2. simpl. by apply IH.
Qed.

(** Passing over a text inside double quotes, and inside single quotes. *)
Lemma parsePipeline_go_double t cur rest :
  lacks dquote t = true →
  parsePipeline_go false true cur (t +:+ rest)
  = parsePipeline_go false true (String.rev_app t cur) rest.
Proof.
  unfold lacks.
  revert cur; induction t as [|c t IH]; intros cur; [done|].
  simpl. intros [Hc Ht]%andb_true_iff. apply negb_true_iff in Hc.
  rewrite Hc. simpl. rewrite !andb_false_r. by apply IH.
Qed.

Lemma parsePipeline_go_single t cur rest :
  lacks squote t = true →
  parsePipeline_go true false cur (t +:+ rest)
  = parsePipeline_go true false (String.rev_app t cur) rest.
Proof.
  unfold lacks.
  revert cur; induction t as [|c t IH]; intros cur; [done|].
  simpl. intros [Hc Ht]%andb_true_iff. apply negb_true_iff in Hc.
  rewrite Hc. simpl. rewrite !andb_false_r. by apply IH.
Qed.

Lemma parsePipeline_go_pipe cur rest :
  parsePipeline_go false false cur (String "|" rest)
  = trim (String.rev cur) :: parsePipeline_go false false "" rest.
Proof. done. Qed.

Lemma parsePipeline_go_dquote inD cur rest :
  parsePipeline_go false inD cur (String dquote rest)
  = parsePipeline_go false (negb inD) (String dquote cur) rest.
Proof. by destruct inD. Qed.

Lemma parsePipeline_go_squote inS cur rest :
  parsePipeline_go inS false cur (String squote rest)
  = parsePipeline_go (negb inS) false (String squote cur) rest.
Proof. by destruct inS. Qed.

Lemma parsePipeline_cut a b :
  lacks "|" a = true → noQuote a = true →
  parsePipeline (a +:+ "|" +:+ b) = nonEmpty [trim a] ++ parsePipeline b.
Proof.
  intros Ha Hq. unfold parsePipeline.
  rewrite parsePipeline_go_plain by done.
  change ("|" +:+ b) with (String "|" b).
  rewrite parsePipeline_go_pipe, nonEmpty_cons.
  by rewrite rev_rev_app.
Qed.

Lemma trimEnd_app u t d :
  last_char u = Some d → isSpace d = false →
  trimEnd (u +:+ t) = u +:+ trimEnd t.
Proof.
  induction u as [|a u IH]; [done|]. intros Hd Hs.
  rewrite !str_app_cons, trimEnd_cons.
  destruct u as [|b u].
  - rewrite str_app_nil_l. simpl in Hd. injection Hd as ->.
    rewrite Hs. by destruct (trimEnd t).
  - rewrite IH by done. by rewrite str_app_cons.
Qed.

(** ** The statements of a line *)

Lemma rev_cons_app c cur s :
  String.rev (String c cur) +:+ s = String.rev cur +:+ String c s.
Proof.
  change (String c cur) with (String.rev_app (String c "") cur).
  by rewrite rev_rev_app_app, str_app_assoc.
Qed.

Lemma splitStatements_go_end cur :
  match trim (String.rev cur) with "" => [] | t => [t] end
  = nonEmpty [trim (String.rev cur)].
Proof. rewrite nonEmpty_single. by destruct (trim _). Qed.

Lemma splitStatements_go_trimmed inS inD depth cur s t :
  t ∈ splitStatements_go inS inD depth cur s → trim t = t.
Proof.
  revert inS inD depth cur; induction s as [|c s IH];
    intros inS inD depth cur.
  - cbn [splitStatements_go]. rewrite splitStatements_go_end.
    intros [->%list_elem_of_singleton _]%elem_of_nonEmpty. apply trim_idem.
  - cbn [splitStatements_go].
    destruct (Ascii.eqb c squote && negb inD); [apply IH|].
    destruct (Ascii.eqb c dquote && negb inS); [apply IH|].
    destruct (Ascii.eqb c "{" && negb inS && negb inD); [apply IH|].
    destruct (Ascii.eqb c "}" && negb inS && negb inD); [apply IH|].
    destruct (Ascii.eqb c ";" && negb inS && negb inD && (depth =? 0));
      [|apply IH].
    intros [->|H]%elem_of_cons; [apply trim_idem|by eapply IH].
Qed.

Lemma splitStatements_go_no_semicolon inS inD depth cur s :
  lacks ";" s = true →
  splitStatements_go inS inD depth cur s
  = nonEmpty [trim (String.rev cur +:+ s)].
Proof.
  unfold lacks.
  revert inS inD depth cur; induction s as [|c s IH];
    intros inS inD depth cur.
  - intros _. cbn [splitStatements_go].
    by rewrite splitStatements_go_end, str_app_nil_r.
  - cbn [splitStatements_go all_chars].
    intros [Hc Hs]%andb_true_iff. apply negb_true_iff in Hc.
    rewrite Hc. simpl andb. cbv iota.
    destruct (Ascii.eqb c squote && negb inD);
      [by rewrite IH, rev_cons_app|].
    destruct (Ascii.eqb c dquote && negb inS);
      [by rewrite IH, rev_cons_app|].
    destruct (Ascii.eqb c "{" && negb inS && negb inD);
      [by rewrite IH, rev_cons_app|].
    destruct (Ascii.eqb c "}" && negb inS && negb inD);
      by rewrite IH, rev_cons_app.
Qed.

Lemma noQuoteOrBrace_facts c :
  negb (isQuote c || Ascii.eqb c "{" || Ascii.eqb c "}") = true →
  Ascii.eqb c squote = false ∧ Ascii.eqb c dquote = false ∧
  Ascii.eqb c "{" = false ∧ Ascii.eqb c "}" = false.
Proof.
  intros H%negb_true_iff. apply orb_false_iff in H as [H H3].
  apply orb_false_iff in H as [H H2]. unfold isQuote in H.
  apply orb_false_iff in H as [H0 H1]. done.
Qed.

(** Passing over a text without quotes and braces, outside quotes: inside
    a block, or when the text has no semicolon. *)
Lemma splitStatements_go_skip depth t cur rest :
  noQuoteOrBrace t = true → depth ≠ 0 ∨ lacks ";" t = true →
  splitStatements_go false false depth cur (t +:+ rest)
  = splitStatements_go false false depth (String.rev_app t cur) rest.
Proof.
  unfold noQuoteOrBrace, lacks.
  revert cur; induction t as [|c t IH]; intros cur; [done|].
  rewrite str_app_cons. cbn [splitStatements_go all_chars String.rev_app].
  intros [(H1 & H2 & H3 & H4)%noQuoteOrBrace_facts Ht]%andb_true_iff Hd.
  rewrite H1, H2, H3, H4. simpl andb. simpl negb. cbv iota.
  rewrite !andb_true_r.
  assert (Ascii.eqb c ";" && (depth =? 0) = false) as ->.
  { destruct Hd as [Hd|[Hc _]%andb_true_iff].
    - apply Z.eqb_neq in Hd. rewrite Hd. apply andb_false_r.
    - apply negb_true_iff in Hc. by rewrite Hc. }
  apply IH; [done|]. destruct Hd as [?|[_ ?]%andb_true_iff]; eauto.
Qed.

Lemma splitStatements_go_semicolon cur rest :
  splitStatements_go false false 0 cur (String ";" rest)
  = trim (String.rev cur) :: splitStatements_go false false 0 "" rest.
Proof. done. Qed.

Lemma splitStatements_go_open depth cur rest :
  splitStatements_go false false depth cur (String "{" rest)
  = splitStatements_go false false (depth + 1) (String "{" cur) rest.
Proof. done. Qed.

Lemma splitStatements_go_close depth cur rest :
  splitStatements_go false false depth cur (String "}" rest)
  = splitStatements_go false false (depth - 1) (String "}" cur) rest.
Proof. done. Qed.

Lemma nonEmpty_idem l : nonEmpty (nonEmpty l) = nonEmpty l.
Proof.
  unfold nonEmpty. induction l as [|a l IH]; [done|].
  rewrite filter_cons. destruct (decide (a ≠ "")); [|done].
  rewrite filter_cons. rewrite decide_True by done. by rewrite IH.
Qed.

(** * Escaping *)

Lemma replaceChar_app c r s t :
  replaceChar c r (s +:+ t) = replaceChar c r s +:+ replaceChar c r t.
Proof.
  induction s as [|a s IH]; [done|].
  rewrite str_app_cons. cbn [replaceChar]. by rewrite IH, str_app_assoc.
Qed.

Lemma escHtml_app s t : escHtml (s +:+ t) = escHtml s +:+ escHtml t.
Proof. unfold escHtml. by rewrite !replaceChar_app. Qed.

Lemma escHtml_char c : escHtml (String c "") = escapeChar c.
Proof. by ascii_cases c. Qed.

Lemma escHtml_escapeAll s : escHtml s = escapeAll s.
Proof.
  induction s as [|c s IH]; [done|].
  change (String c s) with (String c "" +:+ s).
  by rewrite escHtml_app, escHtml_char, IH.
Qed.

Lemma escapeChar_safe c : all_chars (λ a, negb (isMarkupChar a)) (escapeChar c) = true.
Proof. by ascii_cases c. Qed.

Lemma escapeChar_id c :
  negb (Ascii.eqb c "&" || isMarkupChar c) = true → escapeChar c = String c "".
Proof. by ascii_cases c. Qed.

(** The entity of a character is the character itself, or starts with an
    ampersand; the entities differ from their second character on. *)
Lemma escapeChar_cases c :
  (c = "&"%char ∧ escapeChar c = "&amp;") ∨
  (c = "<"%char ∧ escapeChar c = "&lt;") ∨
  (c = ">"%char ∧ escapeChar c = "&gt;") ∨
  (c = dquote ∧ escapeChar c = "&quot;") ∨
  (c = squote ∧ escapeChar c = "&#39;") ∨
  (c ≠ "&"%char ∧ escapeChar c = String c "").
Proof.
  unfold escapeChar.
  destruct (Ascii.eqb_spec c "&"); [by left|].
  destruct (Ascii.eqb_spec c "<"); [by right; left|].
  destruct (Ascii.eqb_spec c ">"); [by do 2 right; left|].
  destruct (Ascii.eqb_spec c dquote); [by do 3 right; left|].
  destruct (Ascii.eqb_spec c squote); [by do 4 right; left|].
  by do 5 right.
Qed.

Lemma escapeAll_inj s t : escapeAll s = escapeAll t → s = t.
Proof.
  revert t; induction s as [|a s IH]; intros [|b t].
  - done.
  - simpl. destruct (escapeChar_cases b)
      as [[_ ->]|[[_ ->]|[[_ ->]|[[_ ->]|[[_ ->]|[_ ->]]]]]]; done.
  - simpl. destruct (escapeChar_cases a)
      as [[_ ->]|[[_ ->]|[[_ ->]|[[_ ->]|[[_ ->]|[_ ->]]]]]]; done.
  - cbn [escapeAll].
    destruct (escapeChar_cases a)
      as [[-> ->]|[[-> ->]|[[-> ->]|[[-> ->]|[[-> ->]|[Ha ->]]]]]];
    destruct (escapeChar_cases b)
      as [[-> ->]|[[-> ->]|[[-> ->]|[[-> ->]|[[-> ->]|[Hb ->]]]]]];
    rewrite ?str_app_cons, ?str_app_nil_l; intros H;
    simplify_eq; try done; f_equal; by apply IH.
Qed.

Lemma escHtml_safe s : all_chars (λ c, negb (isMarkupChar c)) (escHtml s) = true.
Proof.
  rewrite escHtml_escapeAll. induction s as [|c s IH]; [done|].
  cbn [escapeAll]. by rewrite all_chars_app, escapeChar_safe, IH.
Qed.

Lemma countChars_app P s t :
  countChars P (s +:+ t) = (countChars P s + countChars P t)%nat.
Proof.
  induction s as [|c s IH]; [done|].
  rewrite str_app_cons. simpl. rewrite IH. lia.
Qed.

Lemma countChars_escHtml (P : ascii → bool) s :
  (∀ c, P c = true → isMarkupChar c = true) →
  countChars P (escHtml s) = 0%nat.
Proof.
  intros HP. pose proof (escHtml_safe s) as Hs.
  revert Hs. generalize (escHtml s). intros u.
  induction u as [|c u IH]; [done|]. simpl.
  intros [Hc Hu]%andb_true_iff. apply negb_true_iff in Hc.
  destruct (P c) eqn:E; [apply HP in E; congruence|]. by apply IH.
Qed.

(** * More about the history *)

Lemma addHistory_last cmd st :
  trim cmd ≠ "" → ∃ l, history (addHistory cmd st) = l ++ [cmd] ∧
                        l `sublist_of` others cmd (history st).
Proof.
  intros Hne. rewrite addHistory_history by done.
  destruct (HISTORY_MAX <? length (others cmd (history st) ++ [cmd]))%nat
    eqn:E.
  - apply Nat.ltb_lt in E. rewrite length_app in E. simpl in E.
    unfold HISTORY_MAX in E.
    destruct (others cmd (history st)) as [|a l] eqn:Ho; [simpl in E; lia|].
    exists l. split; [done|]. by apply sublist_cons.
  - by exists (others cmd (history st)).
Qed.

Lemma addHistory_index cmd st :
  trim cmd ≠ "" →
  historyIndex (addHistory cmd st)
  = Z.of_nat (length (history (addHistory cmd st))).
Proof.
  intros Hne. unfold addHistory.
  destruct (String.eqb_spec (trim cmd) ""); [done|]. done.
Qed.

Lemma others_NoDup cmd h : NoDup h → NoDup (others cmd h).
Proof. apply NoDup_filter. Qed.

Lemma historyAt_last l cmd :
  historyAt (l ++ [cmd]) (Z.of_nat (length (l ++ [cmd])) - 1) = cmd.
Proof.
  unfold historyAt. rewrite length_app. simpl.
  destruct (Z.of_nat (length l + 1) - 1 <? 0) eqn:E;
    [apply Z.ltb_lt in E; lia|].
  replace (Z.to_nat (Z.of_nat (length l + 1) - 1)) with (length l) by lia.
  by rewrite list_lookup_middle.
Qed.

(** * More about the evaluators *)

Lemma parseExpr_unclosed e :
  parseExpr (fuelFor (TOp "(" :: tokensExpr e)) (TOp "(" :: tokensExpr e)
  = Some (valueExpr e, []).
Proof.
  destruct parser_grammar as (HE & _).
  destruct (HE e [] eq_refl eq_refl) as [n H]. rewrite app_nil_r in H.
  assert (parseExpr (S (S (S n))) (TOp "(" :: tokensExpr e)
          = Some (valueExpr e, [])) as Hn.
  { rewrite parseExpr_S, parseTerm_S, parseFactor_S.
    change (Ascii.eqb "(" "(") with true. cbv iota. rewrite H.
    change (peekIs ")" []) with false. cbv iota.
    rewrite (termLoop_mono 1 (S n) _ _ _ ltac:(lia)
               (termLoop_stop _ [] eq_refl)).
    apply (exprLoop_mono 1); [lia|]. by apply exprLoop_stop. }
  destruct (parseExpr_total (TOp "(" :: tokensExpr e)) as (v & rest & E).
  set (m := (S (S (S n)) `max` fuelFor (TOp "(" :: tokensExpr e))%nat).
  pose proof (parseExpr_mono (S (S (S n))) m _ _ ltac:(lia) Hn) as H1.
  pose proof (parseExpr_mono (fuelFor (TOp "(" :: tokensExpr e)) m _ _
                ltac:(lia) E) as H2.
  rewrite E. congruence.
Qed.

Lemma cmpMatch_go_word acc w :
  all_chars isWord w = true → cmpMatch_go acc w = None.
Proof.
  revert acc; induction w as [|c w IH]; intros acc; [done|].
  cbn [all_chars]. intros [Hc Hw]%andb_true_iff.
  pose proof (isWord_facts _ Hc) as (Hs & _ & Hl & _).
  cbn [cmpMatch_go]. cbn [trimStart]. rewrite Hs, (tryOps_word _ _ Hc), Hl.
  by apply IH.
Qed.

Lemma cmpMatch_word w : isWordText w = true → cmpMatch w = None.
Proof.
  intros (c & s & -> & Hc & Hs)%wordText_inv. unfold cmpMatch.
  pose proof (isWord_facts _ Hc) as (_ & _ & -> & _).
  by apply cmpMatch_go_word.
Qed.

Lemma expandVariables_word vars cwd w :
  isWordText w = true → expandVariables vars cwd (trim w) = w.
Proof.
  intros Hw.
  pose proof Hw as (c & s & -> & Hc & Hs)%wordText_inv.
  pose proof (isWord_facts _ Hc) as (Hsp & _).
  assert (all_chars isWord (String c s) = true) as Hall
    by (simpl; by rewrite Hc, Hs).
  rewrite trim_id; [|done|].
  - unfold expandVariables.
    rewrite expandBraced_no_dollar, expandBare_no_dollar; [done| |];
      (eapply all_chars_impl; [|exact Hall]); apply isWord_not_dollar.
  - eapply all_chars_impl; [|exact Hs].
    intros a Ha. by destruct (isWord_facts _ Ha) as (-> & _).
Qed.

Lemma expandVariables_plain vars cwd s :
  lacks "$" s = true → expandVariables vars cwd s = s.
Proof.
  intros Hs. unfold expandVariables.
  rewrite expandBraced_no_dollar by exact Hs.
  by apply expandBare_no_dollar.
Qed.

Lemma evalExpression_word B vars cwd w :
  isWordText w = true → isArithText w = false →
  evalExpression B vars cwd w = Some w.
Proof.
  intros Hw Ha. unfold evalExpression.
  rewrite expandVariables_word by done. rewrite Ha. simpl.
  by rewrite cmpMatch_word.
Qed.

(** * The cmdlets *)

Lemma fsIsDir_exists p vfs : fsIsDir p vfs = true → fsExists p vfs = true.
Proof.
  intros (n & Hn & _)%fsIsDir_true. apply fsExists_true. eauto.
Qed.

Lemma resolvePath_child cwd name :
  isPlainName name = true → normPath cwd = cwd →
  endsWith_char backslash cwd = false →
  resolvePath cwd name = cwd +:+ "\" +:+ name.
Proof.
  intros Hp Hn He. rewrite resolvePath_plain by done.
  apply normPath_join; [done..|]. by apply isPlainName_segment.
Qed.


Lemma sliceTo_join d name :
  noBackslash name = true →
  sliceTo (lastIndexOf backslash (d +:+ "\" +:+ name)) (d +:+ "\" +:+ name) = d.
Proof.
  intros Hn. rewrite lastIndexOf_join by done. unfold sliceTo.
  destruct (0 <=? Z.of_nat (String.length d)) eqn:E;
    [|apply Z.leb_gt in E; lia].
  by rewrite Nat2Z.id, take_str_app.
Qed.

Lemma fsListDir_nonempty p name n vfs :
  endsWith_char backslash (normPath p) = false → isSegment name = true →
  vfs !! (normPath p +:+ "\" +:+ name) = Some n →
  (0 <? length (fsListDir p vfs))%nat = true.
Proof.
  intros He Hseg Hn.
  pose proof Hseg as (a & t & Hname & _ & Hnb)%isSegment_inv.
  assert (mkEntry (normPath p +:+ "\" +:+ name) name n ∈ fsListDir p vfs)
    as Hin.
  { apply elem_of_fsListDir. simpl.
    rewrite listPrefix_no_trailing by done.
    split_and!; [by rewrite str_app_assoc|by rewrite Hname|done|done]. }
  destruct (fsListDir p vfs); [by apply elem_of_nil in Hin|done].
Qed.

(** * The command executor *)

Lemma isSimpleChar_facts c :
  isSimpleChar c = true →
  isSpace c = false ∧ isQuote c = false ∧ Ascii.eqb c "$" = false ∧
  Ascii.eqb c "|" = false.
Proof.
  unfold isSimpleChar. intros H%negb_true_iff.
  apply orb_false_iff in H as [H H4]. apply orb_false_iff in H as [H H3].
  apply orb_false_iff in H as [H1 H2]. done.
Qed.

Lemma isSimpleWord_inv s :
  isSimpleWord s = true →
  ∃ c t, s = String c t ∧ all_chars isSimpleChar s = true.
Proof. unfold isSimpleWord. destruct s as [|c t]; [done|]. simpl. eauto. Qed.

Lemma isSimpleWord_bare s : isSimpleWord s = true → isBareWord s = true.
Proof.
  intros (c & t & -> & Hall)%isSimpleWord_inv. unfold isBareWord.
  change (negb (String.eqb (String c t) "")) with true.
  change (true && ?x) with x.
  eapply all_chars_impl; [|exact Hall].
  intros a (H1 & H2 & _)%isSimpleChar_facts. unfold isBareChar.
  rewrite H2, orb_false_r. apply negb_true_iff.
  destruct (Ascii.eqb_spec a " ") as [->|]; [done|done].
Qed.

Lemma isCommandWord_inv s :
  isCommandWord s = true →
  ∃ c t, s = String c t ∧ isDigit c = false ∧ Ascii.eqb c "(" = false ∧
         Ascii.eqb c "#" = false ∧ isSimpleWord s = true.
Proof.
  unfold isCommandWord. destruct s as [|c t]; [done|].
  intros [H Hs]%andb_true_iff. apply negb_true_iff in H.
  apply orb_false_iff in H as [H H3]. apply orb_false_iff in H as [H1 H2].
  exists c, t. done.
Qed.

Lemma startsWith_char_ne c a u :
  Ascii.eqb a c = false → startsWith (String c "") (String a u) = false.
Proof.
  intros Hc. unfold startsWith. simpl.
  destruct (ascii_dec c a) as [->|]; [|done].
  by rewrite Ascii.eqb_refl in Hc.
Qed.

Lemma concat_line_chars ws :
  Forall (λ a, isSimpleWord a = true) ws →
  all_chars isLineChar (String.concat " " ws) = true.
Proof.
  induction 1 as [|a ws Ha Hws IH]; [done|].
  assert (all_chars isLineChar a = true) as Hal.
  { apply isSimpleWord_inv in Ha as (c & t & _ & Hall).
    eapply all_chars_impl; [|exact Hall]. unfold isLineChar.
    by intros x ->. }
  destruct ws as [|b ws]; [done|].
  change (String.concat " " (a :: b :: ws))
    with (a +:+ " " +:+ String.concat " " (b :: ws)).
  by rewrite !all_chars_app, Hal, IH.
Qed.

Lemma last_char_concat a ws :
  Forall (λ a, isSimpleWord a = true) (a :: ws) →
  ∃ d, last_char (String.concat " " (a :: ws)) = Some d ∧ isSpace d = false.
Proof.
  revert a; induction ws as [|b ws IH]; intros a Hall.
  - apply Forall_cons in Hall as [Ha _].
    apply isSimpleWord_inv in Ha as (c & t & -> & Hall).
    destruct (last_char_cons c t) as [d Hd]. exists d. split; [done|].
    apply (last_char_all _ _ _ Hall) in Hd.
    by apply isSimpleChar_facts in Hd as (-> & _).
  - apply Forall_cons in Hall as [Ha Hws].
    destruct (IH b Hws) as (d & Hd & Hs). exists d. split; [|done].
    change (String.concat " " (a :: b :: ws))
      with (a +:+ " " +:+ String.concat " " (b :: ws)).
    rewrite <- str_app_assoc.
    pose proof Hws as [Hb _]%Forall_cons.
    apply isSimpleWord_inv in Hb as (c & t & Hbeq & _).
    assert (∃ c' t', String.concat " " (b :: ws) = String c' t') as (c' & t' & E).
    { rewrite Hbeq. destruct ws; simpl; eauto. }
    rewrite E in Hd |- *. by rewrite last_char_app.
Qed.

Lemma concat_head c t ws :
  ∃ u, String.concat " " (String c t :: ws) = String c u.
Proof. destruct ws; simpl; eauto. Qed.

(** What the executor does with a line of simple words before the
    pipeline. *)
Lemma simple_line_facts c ws :
  isCommandWord c = true → Forall (λ a, isSimpleWord a = true) ws →
  let line := String.concat " " (c :: ws) in
  trim line = line ∧ line ≠ "" ∧ startsWith "#" line = false ∧
  assignMatch line = None ∧ arithLine line = false ∧
  lacks "|" line = true ∧ lacks "$" line = true ∧
  parseArgs line = c :: ws.
Proof.
  intros Hc Hws line.
  pose proof Hc as (a & t & Hceq & H1 & H2 & H3 & Hs)%isCommandWord_inv.
  assert (Forall (λ a, isSimpleWord a = true) (c :: ws)) as Hall
    by (by constructor).
  pose proof (concat_line_chars _ Hall) as Hchars.
  destruct (last_char_concat c ws Hall) as (d & Hd & Hds).
  destruct (concat_head a t ws) as [u Hu]. rewrite <- Hceq in Hu.
  fold line in Hchars, Hd, Hu.
  pose proof Hs as (? & ? & Heq & Hcall)%isSimpleWord_inv.
  rewrite Hceq in Hcall. simpl in Hcall.
  apply andb_true_iff in Hcall as [Ha _].
  apply isSimpleChar_facts in Ha as (Ha1 & Ha2 & Ha3 & Ha4).
  split_and!.
  - rewrite Hu in Hd |- *. by apply (trim_fixed _ _ d).
  - by rewrite Hu.
  - rewrite Hu. by apply startsWith_char_ne.
  - rewrite Hu. unfold assignMatch, matchBare.
    destruct (Ascii.eqb_spec a "$") as [->|Hne]; [done|].
    by ascii_cases a.
  - rewrite Hu. unfold arithLine. by rewrite H1, H2.
  - eapply all_chars_impl; [|exact Hchars]. unfold isLineChar.
    intros y [(_ & _ & _ & ->)%isSimpleChar_facts| ->%Ascii.eqb_eq]%orb_true_iff;
      done.
  - eapply all_chars_impl; [|exact Hchars]. unfold isLineChar.
    intros y [(_ & _ & -> & _)%isSimpleChar_facts| ->%Ascii.eqb_eq]%orb_true_iff;
      done.
  - apply parseArgs_concat. eapply Forall_impl; [exact Hall|].
    intros y. apply isSimpleWord_bare.
Qed.

Lemma toLowerChar_dollar c :
  Ascii.eqb (toLowerChar c) "$" = Ascii.eqb c "$".
Proof. by ascii_cases c. Qed.

Lemma startsWith_dollar_lower c t :
  Ascii.eqb c "$" = false → startsWith "$" (toLowerCase (String c t)) = false.
Proof.
  intros Hc. simpl. apply startsWith_char_ne.
  by rewrite toLowerChar_dollar.
Qed.

(** One segment, of a command and its arguments. *)
Lemma runSegments_simple CMDLETS c ws segs pipe w :
  isCommandWord c = true → Forall (λ a, isSimpleWord a = true) ws →
  runSegments CMDLETS (String.concat " " (c :: ws) :: segs) pipe w =
  match CMDLETS !! toLowerCase c with
  | Some fn =>
      match fn (snd (parseNamedParams ws)) (fst (parseNamedParams ws)) pipe w
      with
      | Some (v, w') => runSegments CMDLETS segs v w'
      | None => None
      end
  | None =>
      if String.eqb (toLowerCase c) "constructor"
      then runSegments CMDLETS segs (VArray (snd (parseNamedParams ws))) w
      else if String.eqb (toLowerCase c) "__proto__" then None
      else Some (VNull, notRecognized c w)
  end.
Proof.
  intros Hc Hws.
  destruct (simple_line_facts c ws Hc Hws)
    as (Ht & Hne & _ & _ & _ & _ & Hd & Hargs).
  cbn [runSegments]. cbv zeta.
  rewrite (expandVariables_plain _ _ _ Hd), Ht.
  destruct (String.eqb_spec (String.concat " " (c :: ws)) ""); [done|].
  rewrite Hargs. destruct (parseNamedParams ws) as [ps pos]. simpl.
  destruct (CMDLETS !! toLowerCase c) as [fn|]; [done|].
  destruct (String.eqb (toLowerCase c) "constructor"); [done|].
  destruct (String.eqb (toLowerCase c) "__proto__"); [done|].
  pose proof Hc as (a & t & -> & _ & _ & _ & Hs)%isCommandWord_inv.
  apply isSimpleWord_inv in Hs as (? & ? & _ & Hall).
  simpl in Hall. apply andb_true_iff in Hall as [Ha _].
  apply isSimpleChar_facts in Ha as (_ & _ & Ha & _).
  by rewrite (startsWith_dollar_lower _ _ Ha).
Qed.

Lemma reg_lookup names fn CMDLETS n :
  n ∈ names → reg names fn CMDLETS !! toLowerCase n = Some fn.
Proof.
  unfold reg. revert CMDLETS.
  induction names as [|m names IH]; intros CMDLETS Hn;
    [by apply elem_of_nil in Hn|].
  cbn [fold_left]. destruct (decide (n ∈ names)) as [Hin|Hout]; [by apply IH|].
  apply elem_of_cons in Hn as [->|?]; [|done].
  clear IH. revert CMDLETS.
  assert (∀ r : registry, r !! toLowerCase m = Some fn →
            fold_left (λ r n, <[toLowerCase n := fn]> r) names r
            !! toLowerCase m = Some fn) as Hkeep.
  { clear. induction names as [|k names IH]; intros r Hr; [done|].
    cbn [fold_left]. apply IH.
    destruct (decide (toLowerCase k = toLowerCase m)) as [->|Hne].
    - apply lookup_insert_eq.
    - by rewrite lookup_insert_ne. }
  intros CMDLETS. apply Hkeep. apply lookup_insert_eq.
Qed.

(** ** Lines that are not a pipeline of simple words *)

Lemma takeWhile_app_stop P r c t :
  all_chars P r = true → P c = false →
  takeWhile_str P (r +:+ String c t) = r.
Proof.
  intros Hr Hc. induction r as [|a r IH].
  - rewrite str_app_nil_l. simpl. by rewrite Hc.
  - rewrite str_app_cons. simpl in Hr |- *.
    apply andb_true_iff in Hr as [Ha Hr]. by rewrite Ha, IH.
Qed.

Lemma replaceAll_skip_app m s t :
  replaceAll m (String.length s) (s +:+ t) = replaceAll m 0 t.
Proof. induction s as [|a s IH]; [done|]. by rewrite str_app_cons. Qed.

Lemma matchBare_ident c r d t :
  isIdentStart c = true → all_chars isWord r = true → isWord d = false →
  matchBare ("$" +:+ String c r +:+ String d t) = Some (String c r).
Proof.
  intros Hc Hr Hd.
  change ("$" +:+ String c r +:+ String d t)
    with (String "$" (String c (r +:+ String d t))).
  unfold matchBare. by rewrite Hc, takeWhile_app_stop.
Qed.

(** A reference followed by a character that is no word character and a
    text without a dollar sign, when the name is not defined. *)
Lemma expandVariables_undefined_prefix vars cwd a d t :
  isIdentifier a = true → isWord d = false →
  lacks "$" (String d t) = true →
  vars !! a = None → inherited a = false → getBuiltinVar cwd a = None →
  expandVariables vars cwd ("$" +:+ a +:+ String d t)
  = "$" +:+ a +:+ String d t.
Proof.
  intros Hid Hd Ht Hv Hin%inheritedText_None Hb.
  pose proof (identifier_word _ Hid) as Hw.
  destruct a as [|c r]; [done|].
  apply andb_true_iff in Hid as [Hc Hr].
  assert (lacks "$" (String c r +:+ String d t) = true) as Hl.
  { unfold lacks in *. rewrite all_chars_app, Ht, andb_true_r.
    eapply all_chars_impl; [|exact Hw]. apply isWord_not_dollar. }
  unfold expandVariables.
  assert (expandBraced vars ("$" +:+ String c r +:+ String d t)
          = "$" +:+ String c r +:+ String d t) as ->.
  { unfold expandBraced.
    change ("$" +:+ String c r +:+ String d t)
      with (String "$" (String c (r +:+ String d t))).
    rewrite replaceAll_step.
    assert (matchBraced (String "$" (String c (r +:+ String d t))) = None)
      as ->.
    { pose proof (isIdentStart_not_lbrace _ Hc).
      unfold matchBraced. ascii_cases c; try done. }
    f_equal. rewrite <- str_app_cons.
    apply (replaceAll_no_match _ _ (λ c, negb (Ascii.eqb c "$"))); [|done].
    intros x u Hx. unfold matchBraced. ascii_cases x; try done. }
  unfold expandBare.
  change ("$" +:+ String c r +:+ String d t)
    with (String "$" (String c r +:+ String d t)).
  rewrite replaceAll_step.
  change (String "$" (String c r +:+ String d t))
    with ("$" +:+ String c r +:+ String d t).
  rewrite matchBare_ident by done.
  unfold bareValue, variableText. rewrite Hb, Hv, Hin. cbn [default].
  replace (String.length (String c r) + 1 - 1)%nat
    with (String.length (String c r)) by lia.
  rewrite replaceAll_skip_app.
  rewrite (replaceAll_no_match _ _ (λ c, negb (Ascii.eqb c "$"))).
  - by rewrite str_app_assoc.
  - intros x u Hx. unfold matchBare. ascii_cases x; try done.
  - exact Ht.
Qed.

(** The head of a line decides the first tests of the executor. *)
Lemma head_not_comment a u :
  Ascii.eqb a "#" = false → startsWith "#" (String a u) = false.
Proof. apply startsWith_char_ne. Qed.

Lemma head_not_assignment a u :
  Ascii.eqb a "$" = false → assignMatch (String a u) = None.
Proof.
  intros Ha. unfold assignMatch, matchBare.
  destruct (Ascii.eqb_spec a "$") as [->|Hne]; [done|]. by ascii_cases a.
Qed.

Lemma head_not_arith a u : isDigit a = false → Ascii.eqb a "(" = false →
  arithLine (String a u) = false.
Proof. intros H1 H2. unfold arithLine. by rewrite H1, H2. Qed.

Lemma trim_head_tail a u t d :
  isSpace a = false → last_char (String a u) = Some d → isSpace d = false →
  trim (String a u +:+ t) = String a u +:+ trimEnd t.
Proof.
  intros Ha Hd Hs. unfold trim. rewrite str_app_cons. simpl trimStart.
  rewrite Ha. rewrite <- str_app_cons. by apply (trimEnd_app _ _ d).
Qed.

Lemma drop_last_snoc s q : drop_last (s +:+ String q "") = s.
Proof.
  induction s as [|a s IH]; [done|].
  rewrite str_app_cons.
  destruct s as [|b s]; [done|].
  rewrite str_app_cons in *.
  change (drop_last (String a (String b (s +:+ String q ""))))
    with (String a (drop_last (String b (s +:+ String q "")))).
  by rewrite IH.
Qed.

Lemma stripQuotes_quoted q v :
  isQuote q = true → isWordText v = true →
  stripQuotes (String q "" +:+ v +:+ String q "") = v.
Proof.
  intros Hq (c & s & -> & Hc & Hs)%wordText_inv.
  change (String q "" +:+ String c s +:+ String q "")
    with (String q (String c s +:+ String q "")).
  unfold stripQuotes. rewrite Hq, last_char_app. simpl last_char.
  cbv iota beta. rewrite Hq. apply drop_last_snoc.
Qed.

(** The executor on a line that starts, once trimmed, with a character
    that opens no comment, no assignment and no arithmetic expression: the
    pipeline is run. *)
Lemma executeCommand_pipeline B CMDLETS line a u w :
  trim line = String a u →
  Ascii.eqb a "#" = false → Ascii.eqb a "$" = false →
  isDigit a = false → Ascii.eqb a "(" = false →
  executeCommand B CMDLETS line w
  = runSegments CMDLETS (parsePipeline (String a u)) VNull w.
Proof.
  intros Ht H1 H2 H3 H4. unfold executeCommand. rewrite Ht.
  change (String.eqb (String a u) "") with false. cbv iota.
  by rewrite head_not_comment, head_not_assignment, head_not_arith.
Qed.

(** The executor on a line that starts with a dollar sign. *)
Lemma executeCommand_dollar B CMDLETS line u w :
  trim line = String "$" u →
  executeCommand B CMDLETS line w
  = match assignMatch (String "$" u) with
    | Some (name, expr) =>
        match evalExpression B (w_variables w) (w_cwd w)
                (expandVariables (w_variables w) (w_cwd w)
                   (stripQuotes (trim expr))) with
        | Some value => Some (VText value, setVariable name value w)
        | None => None
        end
    | None => runSegments CMDLETS (parsePipeline (String "$" u)) VNull w
    end.
Proof.
  intros Ht. unfold executeCommand. rewrite Ht.
  change (String.eqb (String "$" u) "") with false. cbv iota.
  rewrite head_not_comment, head_not_arith by done.
  by destruct (assignMatch (String "$" u)) as [[name expr]|].
Qed.

Lemma parsePipeline_single line :
  lacks "|" line = true → trim line = line → line ≠ "" →
  parsePipeline line = [line].
Proof.
  intros Hl Ht Hne. unfold parsePipeline.
  rewrite parsePipeline_go_no_pipe by done.
  rewrite str_app_nil_l, Ht, nonEmpty_single. by destruct line.
Qed.

Lemma startsWith_char_eq c u : startsWith (String c "") (String c u) = true.
Proof.
  unfold startsWith. simpl. destruct (ascii_dec c c); [|done]. by destruct u.
Qed.

(** The assignment of an expression that starts and ends with a character
    other than white space and has no line terminator. *)
Lemma executeCommand_assign B CMDLETS name expr x y d w :
  isIdentifier name = true → expr = String x y → isSpace x = false →
  last_char expr = Some d → isSpace d = false →
  all_chars (λ c, negb (isLineTerminator c)) expr = true →
  executeCommand B CMDLETS ("$" +:+ name +:+ " = " +:+ expr) w
  = match evalExpression B (w_variables w) (w_cwd w)
            (expandVariables (w_variables w) (w_cwd w)
               (stripQuotes (trim expr))) with
    | Some value => Some (VText value, setVariable name value w)
    | None => None
    end.
Proof.
  intros Hid Hexpr Hx Hlast Hds Hall.
  destruct name as [|c r] eqn:Hname; [done|]. rewrite <- Hname in *.
  pose proof Hid as Hid'. rewrite Hname in Hid'.
  apply andb_true_iff in Hid' as [Hc Hr].
  set (line := "$" +:+ name +:+ " = " +:+ expr).
  assert (line = String "$" (name +:+ " = " +:+ expr)) as Hline by done.
  assert (trim line = line) as Ht.
  { assert (last_char line = Some d) as Hl.
    { unfold line. rewrite <- !str_app_assoc, Hexpr, last_char_app.
      by rewrite <- Hexpr. }
    rewrite Hline in Hl |- *. by apply (trim_fixed _ _ d). }
  rewrite (executeCommand_dollar _ _ _ (name +:+ " = " +:+ expr))
    by (by rewrite Ht).
  assert (assignMatch (String "$" (name +:+ " = " +:+ expr))
          = Some (name, expr)) as ->; [|done].
  unfold assignMatch.
  change (String "$" (name +:+ " = " +:+ expr))
    with ("$" +:+ name +:+ String " " ("= " +:+ expr)).
  rewrite Hname at 1 2. rewrite matchBare_ident by done.
  rewrite <- Hname.
  change ("$" +:+ name +:+ String " " ("= " +:+ expr))
    with (String "$" (name +:+ String " " ("= " +:+ expr))).
  cbn [drop_str]. rewrite drop_str_app.
  change (trimStart (String " " ("= " +:+ expr)))
    with (String "=" (String " " expr)).
  cbv iota beta.
  change (trimStart (String " " expr)) with (trimStart expr).
  assert (trimStart expr = expr) as ->
    by (rewrite Hexpr; simpl; by rewrite Hx).
  by rewrite Hall.
Qed.

(** A name with a colon is no name of the prototype. *)
Lemma toLowerCase_app s t :
  toLowerCase (s +:+ t) = toLowerCase s +:+ toLowerCase t.
Proof.
  induction s as [|c s IH]; [done|].
  rewrite str_app_cons. cbn [toLowerCase]. by rewrite IH, str_app_cons.
Qed.

Lemma inherited_colon a b : inherited (toLowerCase (a +:+ ":" +:+ b)) = false.
Proof.
  destruct (inherited _) eqn:E; [|done].
  apply inherited_word in E.
  rewrite toLowerCase_app, all_chars_app in E.
  by apply andb_true_iff in E as [_ E].
Qed.

(** * The drive of a path *)












Lemma normPath_idem_no_trailing p :
  endsWith_char backslash (normPath p) = false →
  normPath (normPath p) = normPath p.
Proof. intros H. apply normPath_idem. by intros E; rewrite E in H. Qed.



(** From the second [normPath] on nothing changes, and a resolved path is
    what [normPath] gives for some path. *)
Lemma normPath_idem2 p :
  normPath (normPath (normPath p)) = normPath (normPath p).
Proof.
  destruct (decide (normPath p = "SS:\")) as [->|Hne]; [by vm_compute|].
  by rewrite !(normPath_idem p Hne).
Qed.

Lemma resolvePath_is_normPath cwd p : ∃ x, resolvePath cwd p = normPath x.
Proof.
  unfold resolvePath. destruct (String.eqb p "" || String.eqb p "."); [eauto|].
  destruct (isAbsolute _); eauto.
Qed.

Lemma resolvePath_idem2 cwd p :
  normPath (normPath (resolvePath cwd p)) = normPath (resolvePath cwd p).
Proof.
  destruct (resolvePath_is_normPath cwd p) as [x ->]. apply normPath_idem2.
Qed.

Lemma resolvePath_normal_or cwd p :
  normPath (resolvePath cwd p) = resolvePath cwd p ∨
  resolvePath cwd p = "SS:\".
Proof.
  destruct (resolvePath_is_normPath cwd p) as [x ->].
  destruct (decide (normPath x = "SS:\")) as [|Hne]; [by right|].
  left. by apply normPath_idem.
Qed.

(** * Further properties of the path resolver *)


(** X2. Into a directory and back.  A plain name is resolved to the
    working directory, a backslash and the name; from there the parent
    segment leads back to the working directory when that has more than
    two characters, and leads nowhere when it has at most two: a path
    directly below the drive has no parent. *)
Theorem resolvePath_child_parent (cwd name : string) :
  isPlainName name = true →
  resolvePath cwd name = normPath (cwd +:+ "\" +:+ name) ∧
  (normPath cwd = cwd → endsWith_char backslash cwd = false →
   resolvePath cwd name = cwd +:+ "\" +:+ name) ∧
  ((2 < String.length cwd)%nat →
   resolvePath (cwd +:+ "\" +:+ name) ".." = normPath cwd) ∧
  ((String.length cwd ≤ 2)%nat →
   resolvePath (cwd +:+ "\" +:+ name) ".."
   = normPath (cwd +:+ "\" +:+ name)).
Proof.
  intros Hp.
  pose proof (isPlainName_segment _ Hp) as Hseg.
  pose proof Hseg as (c & t & _ & _ & Hnb)%isSegment_inv.
  split_and!.
  - by apply resolvePath_plain.
  - intros Hn He. rewrite resolvePath_plain by done.
    by apply normPath_join.
  - intros Hlen. rewrite resolvePath_dotdot, resolveStep_dotdot.
    rewrite lastIndexOf_join by done.
    destruct (2 <? Z.of_nat (String.length cwd)) eqn:Hlt;
      [|apply Z.ltb_ge in Hlt; lia].
    by rewrite Nat2Z.id, take_str_app.
  - intros Hlen. rewrite resolvePath_dotdot, resolveStep_dotdot.
    rewrite lastIndexOf_join by done.
    destruct (2 <? Z.of_nat (String.length cwd)) eqn:Hlt;
      [apply Z.ltb_lt in Hlt; lia|done].
Qed.

Lemma resolvePath_child_parent_witness :
  resolvePath "C:\Users\PSUser" "Desktop" = "C:\Users\PSUser\Desktop" ∧
  resolvePath "C:\Users\PSUser\Desktop" ".." = "C:\Users\PSUser" ∧
  resolvePath "C:\Users" ".." = "C:\Users".
Proof.
  pose proof (resolvePath_child_parent "C:\Users\PSUser" "Desktop"
                ltac:(vm_compute; reflexivity)) as (_ & H1 & H2 & _).
  pose proof (resolvePath_child_parent "C:" "Users"
                ltac:(vm_compute; reflexivity)) as (_ & _ & _ & H3).
  split_and!.
  - apply H1; vm_compute; reflexivity.
  - apply H2. vm_compute. lia.
  - apply H3. vm_compute. lia.
Defined.

(** * Further properties of the store *)

(** X3. [fsMkdir] never overwrites.  For a path whose normalised form
    [normPath] leaves as it is: the path exists afterwards, every entry of
    the store is kept as it was, a created entry is a directory stamped
    [now], and a second [fsMkdir] of the same path fails and changes
    nothing. *)
Theorem fsMkdir_never_overwrites (now p : string) (vfs : store) :
  normPath (normPath p) = normPath p →
  fsExists p (snd (fsMkdir now p vfs)) = true ∧
  (∀ k n, vfs !! k = Some n → snd (fsMkdir now p vfs) !! k = Some n) ∧
  (∀ k, k ≠ normPath p → snd (fsMkdir now p vfs) !! k = vfs !! k) ∧
  (fst (fsMkdir now p vfs) = true →
   fsExists p vfs = false ∧
   snd (fsMkdir now p vfs) !! normPath p
   = Some (mkNode (Some Dir) None (Some now) now)) ∧
  (∀ now', fsMkdir now' p (snd (fsMkdir now p vfs))
           = (false, snd (fsMkdir now p vfs))).
Proof.
  intros Hp.
  assert (fsExists p (snd (fsMkdir now p vfs)) = true) as Hex.
  { unfold fsMkdir. rewrite fsExists_norm by done.
    destruct (fsExists p vfs) eqn:He; simpl; [done|].
    rewrite assign_fresh by exact He.
    apply fsExists_own. rewrite lookup_insert_eq. eauto. }
  split_and!.
  - done.
  - intros k n Hk. unfold fsMkdir. rewrite fsExists_norm by done.
    destruct (fsExists p vfs) eqn:He; simpl; [done|].
    rewrite lookup_assign_ne; [done|].
    apply fsExists_false in He as [He _]. congruence.
  - intros k Hk. unfold fsMkdir.
    destruct (fsExists (normPath p) vfs); simpl; [done|].
    by rewrite lookup_assign_ne.
  - unfold fsMkdir. rewrite fsExists_norm by done.
    destruct (fsExists p vfs) eqn:He; simpl; [done|]. intros _.
    split; [done|]. rewrite assign_fresh by exact He.
    by rewrite lookup_insert_eq.
  - intros now'. unfold fsMkdir at 1. rewrite fsExists_norm by done.
    by rewrite Hex.
Qed.

Lemma fsMkdir_never_overwrites_witness :
  fsExists "c:/New" (snd (fsMkdir sampleNow "c:/New" (initFS sampleNow)))
  = true ∧
  fsMkdir "later" "c:/New" (snd (fsMkdir sampleNow "c:/New" (initFS sampleNow)))
  = (false, snd (fsMkdir sampleNow "c:/New" (initFS sampleNow))).
Proof.
  pose proof (fsMkdir_never_overwrites sampleNow "c:/New" (initFS sampleNow)
                ltac:(reflexivity)) as (H1 & _ & _ & _ & H2).
  split; [exact H1|exact (H2 "later")].
Defined.

(** X4. The keys of the store stay in normal form.  The initial store has
    only keys that [normPath] leaves as they are.  [fsDelete] keeps it so;
    [fsMkdir] and [fsWriteFile] keep it so for a path whose normalised form
    [normPath] leaves as it is; [fsCopy] and [fsMove] keep it so for such a
    destination when it is not a directory, or is a directory whose path
    does not end in a backslash and the source has a file name. *)
Theorem store_keys_normal (now p c src dst : string) (append : bool)
    (vfs : store) :
  allKeysNormal (initFS now) ∧
  (allKeysNormal vfs →
   allKeysNormal (snd (fsDelete p vfs)) ∧
   (normPath (normPath p) = normPath p →
    allKeysNormal (snd (fsMkdir now p vfs)) ∧
    allKeysNormal (fsWriteFile now p c append vfs)) ∧
   (normPath (normPath dst) = normPath dst →
    fsIsDir dst vfs = false ∨
    (endsWith_char backslash (normPath dst) = false ∧
     baseName (normPath src) ≠ "") →
    allKeysNormal (snd (fsCopy now src dst vfs)) ∧
    allKeysNormal (snd (fsMove now src dst vfs)))).
Proof.
  split; [apply initFS_allKeysNormal|].
  intros Hv. split_and!.
  - by apply fsDelete_allKeysNormal.
  - intros Hp. split.
    + by apply fsMkdir_allKeysNormal.
    + by apply fsWriteFile_allKeysNormal.
  - intros Hdst Hd.
    assert (allKeysNormal (snd (fsCopy now src dst vfs))) as Hc.
    { unfold fsCopy. destruct (negb _); [done|].
      destruct (fsIsFile (normPath src) vfs); [|done]. simpl.
      apply allKeysNormal_assign; [|done].
      rewrite fsIsDir_norm by done.
      destruct (fsIsDir dst vfs) eqn:Hdir; [|done].
      destruct Hd as [?|[He Hb]]; [done|].
      apply normPath_join; [done|done|].
      by apply baseName_segment. }
    split; [done|].
    unfold fsMove. destruct (fsCopy now src dst vfs) as [ok vfs1].
    simpl in Hc. destruct ok; simpl; [|done].
    by apply fsDelete_allKeysNormal.
Qed.

Lemma store_keys_normal_witness :
  bool_decide
    (map_Forall (λ k _, normPath k = k)
       (snd (fsCopy sampleNow "C:\Temp\sample.json" "c:/users/"
               (initFS sampleNow)))) = true.
Proof.
  apply bool_decide_eq_true_2. intros k n Hk.
  pose proof (store_keys_normal sampleNow "" "" "C:\Temp\sample.json"
                "c:/users/" false (initFS sampleNow)) as [Hinit Hkeep].
  refine (proj1 (proj2 (proj2 (Hkeep Hinit)) _ _) k _).
  - reflexivity.
  - right. split; [reflexivity|]. vm_compute. discriminate.
  - eauto.
Defined.

(** X5. A successful [fsCopy] can be read back.  For a source that is a
    file and a source and a destination whose normalised forms [normPath]
    leaves as they are: when the destination is not a directory (and not
    the key [__proto__]), the destination then is a file with the content
    and the creation stamp of the source and the modification stamp [now],
    and no other entry changes; when the destination is a directory whose
    path does not end in a backslash, the copy is the entry of the source's
    file name below it, and the directory and every other entry stay. *)
Theorem fsCopy_read_back (now src dst : string) (vfs : store) (n : node) :
  normPath (normPath src) = normPath src →
  normPath (normPath dst) = normPath dst →
  vfs !! normPath src = Some n → type n = Some File →
  fst (fsCopy now src dst vfs) = true ∧
  (fsIsDir dst vfs = false → normPath dst ≠ "__proto__" →
   snd (fsCopy now src dst vfs) !! normPath dst
     = Some (mkNode (Some File) (content n) (created n) now) ∧
   fsGetContent dst (snd (fsCopy now src dst vfs)) = fsGetContent src vfs ∧
   ∀ k, k ≠ normPath dst → snd (fsCopy now src dst vfs) !! k = vfs !! k) ∧
  (fsIsDir dst vfs = true →
   endsWith_char backslash (normPath dst) = false →
   baseName (normPath src) ≠ "" →
   fsGetContent (normPath dst +:+ "\" +:+ baseName (normPath src))
                (snd (fsCopy now src dst vfs)) = fsGetContent src vfs ∧
   fsIsDir dst (snd (fsCopy now src dst vfs)) = true ∧
   ∀ k, k ≠ normPath dst +:+ "\" +:+ baseName (normPath src) →
        snd (fsCopy now src dst vfs) !! k = vfs !! k).
Proof.
  intros Hs Hd' Hn Ht. rewrite (fsCopy_file _ _ _ _ _ Hs Hn Ht). simpl.
  unfold copyTarget. rewrite fsIsDir_norm by done. split_and!; [done| |].
  - intros -> Hp. rewrite assign_ne by done. split_and!.
    + rewrite lookup_insert_eq. unfold touch. by rewrite Ht.
    + rewrite (fsGetContent_lookup _ _ (touch now (Some n)))
        by apply lookup_insert_eq.
      by rewrite (fsGetContent_lookup _ _ n).
    + intros k Hk. by rewrite lookup_insert_ne.
  - intros Hd He Hb. rewrite Hd.
    pose proof (baseName_segment _ Hb) as Hseg.
    pose proof (normPath_join _ _ Hd' He Hseg) as Hkey.
    change ("\" +:+ baseName (normPath src))
      with (String backslash (baseName (normPath src))) in *.
    rewrite assign_ne by apply not_proto_join.
    split_and!.
    + rewrite (fsGetContent_lookup _ _ (touch now (Some n)));
        [by rewrite (fsGetContent_lookup _ _ n)|].
      rewrite Hkey. apply lookup_insert_eq.
    + apply fsIsDir_true in Hd as (m & Hm & Hty).
      apply fsIsDir_true. exists m. split; [|done].
      rewrite lookup_insert_ne; [done|].
      apply length_join_ne.
    + intros k Hk. by rewrite lookup_insert_ne.
Qed.

Lemma fsCopy_read_back_witness :
  fsGetContent "C:\Users\readme.txt"
    (snd (fsCopy sampleNow "C:\Users\PSUser\Desktop\readme.txt" "C:\Users"
            (initFS sampleNow)))
  = fsGetContent "C:\Users\PSUser\Desktop\readme.txt" (initFS sampleNow).
Proof.
  assert (∃ n, initFS sampleNow !! normPath "C:\Users\PSUser\Desktop\readme.txt"
               = Some n ∧ type n = Some File) as Hn.
  { eexists. split; [vm_compute; reflexivity|reflexivity]. }
  destruct Hn as (n & Hn & Ht).
  exact (proj1 (proj2 (proj2 (fsCopy_read_back sampleNow
           "C:\Users\PSUser\Desktop\readme.txt" "C:\Users"
           (initFS sampleNow) n eq_refl eq_refl Hn Ht))
         ltac:(vm_compute; reflexivity) ltac:(vm_compute; reflexivity)
         ltac:(vm_compute; discriminate))).
Defined.

(** X6. A copy into a directory whose path ends in a backslash (a
    three-character root such as [C:\] that was made a directory) reports
    success and cannot be seen: the key written has a doubled backslash, no
    path is normalised to it, and what the store answers for any path is
    what it answered before.  (The source is a file, and [normPath] leaves
    the normalised source and destination as they are.) *)
Theorem fsCopy_into_trailing_separator (now src dst : string) (vfs : store) :
  normPath (normPath src) = normPath src →
  normPath (normPath dst) = normPath dst →
  fsIsFile src vfs = true → fsIsDir dst vfs = true →
  endsWith_char backslash (normPath dst) = true →
  fst (fsCopy now src dst vfs) = true ∧
  ∀ q, fsExists q (snd (fsCopy now src dst vfs)) = fsExists q vfs ∧
       fsIsDir q (snd (fsCopy now src dst vfs)) = fsIsDir q vfs ∧
       fsIsFile q (snd (fsCopy now src dst vfs)) = fsIsFile q vfs ∧
       fsGetContent q (snd (fsCopy now src dst vfs)) = fsGetContent q vfs.
Proof.
  intros Hs Hd' (n & Hn & Ht)%fsIsFile_true Hd He.
  rewrite (fsCopy_file _ _ _ _ _ Hs Hn Ht). simpl. split; [done|].
  intros q. apply fsExists_lookup. rewrite lookup_assign_ne; [done|].
  unfold copyTarget. rewrite fsIsDir_norm, Hd by done. intros Heq.
  pose proof (normPath_noDouble q) as Hq. rewrite Heq in Hq.
  change ("\" +:+ baseName (normPath src))
    with (String backslash (baseName (normPath src))) in Hq.
  by rewrite noDouble_join_false in Hq.
Qed.

Lemma fsCopy_into_trailing_separator_witness :
  fst (fsCopy sampleNow "C:\Temp\sample.json" "C:\"
         (snd (fsMkdir sampleNow "C:\" (initFS sampleNow)))) = true ∧
  fsExists "C:\sample.json"
    (snd (fsCopy sampleNow "C:\Temp\sample.json" "C:\"
            (snd (fsMkdir sampleNow "C:\" (initFS sampleNow))))) = false.
Proof.
  pose proof (fsCopy_into_trailing_separator sampleNow
                "C:\Temp\sample.json" "C:\"
                (snd (fsMkdir sampleNow "C:\" (initFS sampleNow)))
                eq_refl eq_refl
                ltac:(vm_compute; reflexivity) ltac:(vm_compute; reflexivity)
                ltac:(vm_compute; reflexivity)) as [H1 H2].
  split; [exact H1|].
  rewrite (proj1 (H2 "C:\sample.json")). vm_compute. reflexivity.
Defined.

(** X7. The outcomes of a move.  [fsCopy] fails exactly when the
    normalised source is no file, and whenever it fails [fsMove] fails and
    leaves the whole store as it was: the source is not deleted.  For a
    source whose normalised form [normPath] leaves as it is, the copy
    fails when the source does not exist or is a directory.  For a source
    that is a file,
    and a source and a destination whose normalised forms [normPath]
    leaves as they are: when the destination is not a directory, not the
    source itself and not the key [__proto__], the move succeeds, the
    entry of the source is gone, the destination holds the content of the
    source, and the other entries are as before; when the destination is
    normalised to the path of the source, or is the directory the source
    is in, [fsMove] writes the copy over the source and then deletes it:
    the move reports success and the file is lost.  After the move the
    source exists only if its path is a name of the prototype. *)
Theorem fsMove_outcome (now src dst : string) (vfs : store) :
  (fst (fsCopy now src dst vfs) = false ↔
   fsIsFile (normPath src) vfs = false) ∧
  (fst (fsCopy now src dst vfs) = false →
   fsMove now src dst vfs = (false, vfs)) ∧
  (normPath (normPath src) = normPath src →
   fsExists src vfs = false ∨ fsIsDir src vfs = true →
   fst (fsCopy now src dst vfs) = false) ∧
  (normPath (normPath src) = normPath src →
   normPath (normPath dst) = normPath dst →
   fsIsFile src vfs = true →
   (fsIsDir dst vfs = false → normPath dst ≠ normPath src →
    normPath dst ≠ "__proto__" →
    fst (fsMove now src dst vfs) = true ∧
    snd (fsMove now src dst vfs) !! normPath src = None ∧
    fsExists src (snd (fsMove now src dst vfs)) = inherited (normPath src) ∧
    fsIsFile dst (snd (fsMove now src dst vfs)) = true ∧
    fsGetContent dst (snd (fsMove now src dst vfs)) = fsGetContent src vfs ∧
    ∀ k, k ≠ normPath src → k ≠ normPath dst →
         snd (fsMove now src dst vfs) !! k = vfs !! k) ∧
   (normPath dst = normPath src ∨
    (fsIsDir dst vfs = true ∧
     normPath dst +:+ "\" +:+ baseName (normPath src) = normPath src) →
    fsMove now src dst vfs = (true, delete (normPath src) vfs) ∧
    fsIsFile src (snd (fsMove now src dst vfs)) = false)).
Proof.
  split; [apply fsCopy_fails|]. split.
  { intros H. pose proof (fsCopy_failed_store _ _ _ _ H) as Hst.
    unfold fsMove. destruct (fsCopy now src dst vfs) as [ok vfs1].
    simpl in *. by subst. }
  split.
  { intros Hs H. apply fsCopy_fails. rewrite fsIsFile_norm by done.
    by apply fsIsFile_false. }
  intros Hs Hd' Hf. pose proof Hf as (n & Hn & Ht)%fsIsFile_true. split.
  - intros Hd Hne Hp.
    rewrite (fsMove_other _ _ _ _ _ Hs Hd' Hp Hn Ht Hd Hne). simpl.
    split_and!.
    + done.
    + apply lookup_delete_eq.
    + unfold fsExists, hasKey. rewrite lookup_delete_eq.
      rewrite bool_decide_eq_false_2; [done|]. by intros [? ?].
    + apply fsIsFile_true. exists (touch now (Some n)). split; [|done].
      rewrite lookup_delete_ne by done. apply lookup_insert_eq.
    + rewrite (fsGetContent_lookup _ _ (touch now (Some n))).
      * by rewrite (fsGetContent_lookup _ _ n).
      * rewrite lookup_delete_ne by done. apply lookup_insert_eq.
    + intros k H1 H2. rewrite lookup_delete_ne by done.
      by rewrite lookup_insert_ne.
  - intros Hdst.
    assert (copyTarget src dst vfs = normPath src) as Hkey.
    { unfold copyTarget. rewrite fsIsDir_norm by done.
      destruct Hdst as [Heq|[Hd Heq]].
      - assert (fsIsDir dst vfs = false) as ->; [|done].
        rewrite <- (fsIsDir_norm dst), Heq, fsIsDir_norm by done.
        by apply fsIsDir_false_file.
      - by rewrite Hd. }
    pose proof (fsMove_same now _ _ _ Hs Hf Hkey) as Hm.
    split; [done|]. rewrite Hm. simpl.
    unfold fsIsFile. by rewrite lookup_delete_eq.
Qed.

Lemma fsMove_outcome_witness :
  fsGetContent "C:\Temp\s.json"
    (snd (fsMove sampleNow "C:\Temp\sample.json" "C:\Temp\s.json"
            (initFS sampleNow)))
  = fsGetContent "C:\Temp\sample.json" (initFS sampleNow) ∧
  fsMove sampleNow "C:\Temp\sample.json" "c:/Temp" (initFS sampleNow)
  = (true, delete "C:\Temp\sample.json" (initFS sampleNow)) ∧
  fsMove sampleNow "C:\Users" "C:\Temp" (initFS sampleNow)
  = (false, initFS sampleNow).
Proof.
  pose proof (proj2 (proj2 (proj2
                (fsMove_outcome sampleNow "C:\Temp\sample.json"
                   "C:\Temp\s.json" (initFS sampleNow))))
                eq_refl eq_refl ltac:(vm_compute; reflexivity)) as [H1 _].
  pose proof (proj2 (proj2 (proj2
                (fsMove_outcome sampleNow "C:\Temp\sample.json" "c:/Temp"
                   (initFS sampleNow))))
                eq_refl eq_refl ltac:(vm_compute; reflexivity))
    as [_ H2].
  split_and!.
  - refine (proj1 (proj2 (proj2 (proj2 (proj2 (H1 _ _ _))))));
      vm_compute; [reflexivity|discriminate|discriminate].
  - refine (proj1 (H2 _)). right. split; vm_compute; reflexivity.
  - apply (proj1 (proj2 (fsMove_outcome sampleNow "C:\Users" "C:\Temp"
                           (initFS sampleNow)))).
    apply (proj1 (proj2 (proj2 (fsMove_outcome sampleNow "C:\Users"
                                  "C:\Temp" (initFS sampleNow))))).
    + reflexivity.
    + right. vm_compute. reflexivity.
Defined.

(** X8. [fsWriteFile] leaves a file that can be read back.  For a path
    other than the key [__proto__] whose normalised form [normPath] leaves
    as it is, and in either mode: the call does not throw; the path is a
    file afterwards and no other entry is touched; over a directory the
    entry becomes a file with the new content (the creation stamp is
    kept), also in append mode, and the entries below the directory stay
    in the store.  After a write that does not append, the content read is
    the text written; after such a write and an appending write, it is the
    two texts in a row; and an append to a file changes its content and
    its modification stamp only. *)
Theorem fsWriteFile_makes_file (now now' p c y : string) (append : bool)
    (vfs : store) :
  normPath (normPath p) = normPath p → normPath p ≠ "__proto__" →
  fsWriteFileThrows p append vfs = false ∧
  fsIsFile p (fsWriteFile now p c append vfs) = true ∧
  (∀ k, k ≠ normPath p → fsWriteFile now p c append vfs !! k = vfs !! k) ∧
  (∀ n, vfs !! normPath p = Some n → type n = Some Dir →
        fsWriteFile now p c append vfs !! normPath p
        = Some (mkNode (Some File) (Some c) (Some (default now (created n)))
                       now)) ∧
  (vfs !! normPath p = None →
   fsWriteFile now p c append vfs !! normPath p
   = Some (mkNode (Some File) (Some c) (Some now) now)) ∧
  fsGetContent p (fsWriteFile now p c false vfs) = c ∧
  fsGetContent p
    (fsWriteFile now' p y true (fsWriteFile now p c false vfs)) = c +:+ y ∧
  (∀ n x, vfs !! normPath p = Some n → type n = Some File →
          content n = Some x →
          fsWriteFile now p y true vfs
          = <[normPath p := mkNode (Some File) (Some (x +:+ y)) (created n)
                                   now]> vfs).
Proof.
  intros Hp Hproto.
  assert (∀ n, vfs !! normPath p = Some n → type n = Some Dir →
               fsIsFile (normPath p) vfs = false) as Hdir.
  { intros n Hn Ht. unfold fsIsFile. rewrite Hp, Hn.
    apply bool_decide_eq_false. congruence. }
  assert (vfs !! normPath p = None → fsIsFile (normPath p) vfs = false)
    as Hnone.
  { intros Hn. unfold fsIsFile. by rewrite Hp, Hn. }
  split_and!.
  - unfold fsWriteFileThrows. rewrite fsIsFile_norm by done.
    destruct append; [|done]. simpl.
    destruct (fsIsFile p vfs) eqn:Hf; [|done].
    apply fsIsFile_true in Hf as (n & Hn & _).
    rewrite bool_decide_eq_false_2; [done|]. by rewrite Hn.
  - destruct append.
    + destruct (fsIsFile p vfs) eqn:Hf.
      * pose proof Hf as (n & Hn & Ht)%fsIsFile_true.
        rewrite (fsWriteFile_append_file _ _ _ _ _ Hp Hn Ht).
        apply fsIsFile_true. eexists. rewrite lookup_insert_eq.
        split; [done|]. done.
      * rewrite fsWriteFile_append_other, fsWriteFile_replace, assign_ne
          by (by rewrite ?fsIsFile_norm).
        apply fsIsFile_true. eexists. rewrite lookup_insert_eq. done.
    + rewrite fsWriteFile_replace, assign_ne by done.
      apply fsIsFile_true. eexists. rewrite lookup_insert_eq. done.
  - intros k Hk. unfold fsWriteFile.
    destruct (append && fsIsFile (normPath p) vfs).
    + by rewrite lookup_alter_ne.
    + by rewrite lookup_assign_ne.
  - intros n Hn Ht.
    assert (fsWriteFile now p c append vfs = fsWriteFile now p c false vfs)
      as ->.
    { destruct append; [|done]. apply fsWriteFile_append_other. eauto. }
    by rewrite fsWriteFile_replace, assign_ne, lookup_insert_eq, Hn.
  - intros Hn.
    assert (fsWriteFile now p c append vfs = fsWriteFile now p c false vfs)
      as ->.
    { destruct append; [|done]. apply fsWriteFile_append_other. eauto. }
    by rewrite fsWriteFile_replace, assign_ne, lookup_insert_eq, Hn.
  - by apply read_after_write.
  - by apply read_after_append.
  - intros n x Hn Ht Hc.
    rewrite (fsWriteFile_append_file _ _ _ _ n Hp Hn Ht).
    unfold appendContent. by rewrite Ht, Hc.
Qed.

Lemma fsWriteFile_makes_file_witness :
  fsWriteFile "t1" "c:/a.txt" "y" true
    {["C:\a.txt" := mkNode (Some File) (Some "x") (Some "t0") "t0"]}
  = <["C:\a.txt" := mkNode (Some File) (Some "xy") (Some "t0") "t1"]>
      {["C:\a.txt" := mkNode (Some File) (Some "x") (Some "t0") "t0"]}.
Proof.
  apply (proj2 (proj2 (proj2 (proj2 (proj2 (proj2 (proj2
           (fsWriteFile_makes_file "t1" "t1" "c:/a.txt" "" "y" false
              {["C:\a.txt" := mkNode (Some File) (Some "x") (Some "t0") "t0"]}
              eq_refl ltac:(discriminate))))))))
           (mkNode (Some File) (Some "x") (Some "t0") "t0") "x");
    reflexivity.
Defined.

(** X9. [fsDelete] removes and never adds, and removes a directory with
    all that is below it.  The store after it is a part of the store
    before.  For a path whose normalised form [normPath] leaves as it is:
    the result is [true] exactly when the path existed; afterwards the
    path has no entry, and exists only if it is a name of the prototype;
    for a file exactly its own entry is removed; and for a directory the
    entries removed are the entry of the path and every entry whose key is
    the path, a backslash and anything, and no other.  So after [fsMkdir]
    of [C:\a] and [fsWriteFile] of [C:\a\b.txt], in a store where [C:\a]
    is missing or a directory, [fsDelete] of [C:\a] leaves neither path
    in the store. *)
Theorem fsDelete_removes (p : string) (vfs : store) :
  snd (fsDelete p vfs) ⊆ vfs ∧
  (normPath (normPath p) = normPath p →
   fst (fsDelete p vfs) = fsExists p vfs ∧
   snd (fsDelete p vfs) !! normPath p = None ∧
   fsExists p (snd (fsDelete p vfs)) = inherited (normPath p) ∧
   (fsIsFile p vfs = true →
    ∀ k, snd (fsDelete p vfs) !! k
         = if decide (k = normPath p) then None else vfs !! k) ∧
   (fsIsDir p vfs = true →
    ∀ k, snd (fsDelete p vfs) !! k
         = if decide (k = normPath p ∨
                      startsWith (normPath p +:+ "\") k = true)
           then None else vfs !! k)) ∧
  (∀ now1 now2,
     fsExists "C:\a" vfs = false ∨ fsIsDir "C:\a" vfs = true →
     fsExists "C:\a"
       (snd (fsDelete "C:\a"
               (fsWriteFile now2 "C:\a\b.txt" "z" false
                  (snd (fsMkdir now1 "C:\a" vfs))))) = false ∧
     fsExists "C:\a\b.txt"
       (snd (fsDelete "C:\a"
               (fsWriteFile now2 "C:\a\b.txt" "z" false
                  (snd (fsMkdir now1 "C:\a" vfs))))) = false).
Proof.
  split; [apply fsDelete_subseteq|]. split.
  { intros Hp.
    assert (snd (fsDelete p vfs) !! normPath p = None) as Hgone.
    { destruct (fsExists p vfs) eqn:He.
      - destruct (fsIsDir p vfs) eqn:Hd.
        + rewrite fsDelete_dir by done. simpl.
          rewrite lookup_delete_dir. rewrite decide_True; [done|]. by left.
        + rewrite fsDelete_file by done. simpl. apply lookup_delete_eq.
      - rewrite fsDelete_missing by (by rewrite fsExists_norm).
        simpl. by apply fsExists_false in He as [He _]. }
    split_and!.
    - unfold fsDelete. rewrite fsExists_norm by done.
      destruct (fsExists p vfs); simpl; [|done].
      by destruct (fsIsDir (normPath p) vfs).
    - done.
    - unfold fsExists, hasKey. rewrite Hgone.
      rewrite bool_decide_eq_false_2; [done|]. by intros [? ?].
    - intros [He Hd]%fsIsFile_file k. rewrite fsDelete_file by done. simpl.
      destruct (decide (k = normPath p)) as [->|Hne].
      + apply lookup_delete_eq.
      + by apply lookup_delete_ne.
    - intros Hd k. rewrite (fsDelete_dir _ _ Hp Hd). simpl.
      apply lookup_delete_dir. }
  intros now1 now2 Hf.
  set (vfs1 := snd (fsMkdir now1 "C:\a" vfs)).
  set (vfs2 := fsWriteFile now2 "C:\a\b.txt" "z" false vfs1).
  assert (fsIsDir "C:\a" vfs1 = true) as Hd1.
  { unfold vfs1, fsMkdir. change (normPath "C:\a") with "C:\a".
    destruct (fsExists "C:\a" vfs) eqn:Hex; simpl.
    - by destruct Hf.
    - rewrite assign_ne by done. unfold fsIsDir.
      change (normPath "C:\a") with "C:\a". by rewrite lookup_insert_eq. }
  assert (fsIsDir "C:\a" vfs2 = true) as Hd2.
  { unfold vfs2. rewrite fsWriteFile_replace, assign_ne by done.
    unfold fsIsDir in *. change (normPath "C:\a") with "C:\a" in *.
    change (normPath "C:\a\b.txt") with "C:\a\b.txt".
    by rewrite lookup_insert_ne. }
  rewrite (fsDelete_dir _ _ eq_refl Hd2). cbn [snd].
  split; apply fsExists_false; (split; [|done]);
    rewrite lookup_delete_dir;
    by rewrite decide_True by (by vm_compute; auto).
Qed.

(** * The listing of a directory *)

(** X10. What [fsListDir] lists.  An item is listed exactly when its path is
    a key of the store, made of the prefix of the directory and a name that
    is not empty and has no backslash; the item carries that name and the
    node of the key, and no path is listed twice.  So, for a directory path
    that does not end in a backslash and a segment [name], the directory
    [fsMkdir] creates at [dir\name] and the file [fsWriteFile] writes
    there are items of the listing, under the name [name]. *)
Theorem fsListDir_children (now dir name c : string) (vfs : store) :
  (∀ e, e ∈ fsListDir dir vfs ↔
        entry_path e = listPrefix dir +:+ entry_name e ∧
        entry_name e ≠ "" ∧ noBackslash (entry_name e) = true ∧
        vfs !! entry_path e = Some (entry_node e)) ∧
  NoDup (entry_path <$> fsListDir dir vfs) ∧
  (endsWith_char backslash (normPath dir) = false → isSegment name = true →
   (fst (fsMkdir now (normPath dir +:+ "\" +:+ name) vfs) = true →
    mkEntry (normPath dir +:+ "\" +:+ name) name
      (mkNode (Some Dir) None (Some now) now)
    ∈ fsListDir dir (snd (fsMkdir now (normPath dir +:+ "\" +:+ name) vfs))) ∧
   (∃ n, type n = Some File ∧ content n = Some c ∧
         mkEntry (normPath dir +:+ "\" +:+ name) name n
         ∈ fsListDir dir (fsWriteFile now (normPath dir +:+ "\" +:+ name) c
                            false vfs))).
Proof.
  split_and!; [intros e; apply elem_of_fsListDir|apply fsListDir_NoDup|].
  intros He Hseg.
  pose proof (normPath_join _ _ (normPath_idem_no_trailing dir He) He Hseg)
    as Hkey.
  pose proof Hseg as (a & t & Hname & _ & Hnb)%isSegment_inv.
  assert (name ≠ "") as Hne by (by rewrite Hname).
  assert (normPath dir +:+ "\" +:+ name ≠ "__proto__") as Hproto.
  { apply (not_proto_join (normPath dir) name). }
  split.
  - intros Hfresh. apply elem_of_fsListDir. simpl.
    rewrite listPrefix_no_trailing by done.
    split_and!; [by rewrite str_app_assoc|done|done|].
    unfold fsMkdir in *. rewrite Hkey in *.
    destruct (fsExists _ vfs); simpl in *; [done|].
    rewrite assign_ne by done. apply lookup_insert_eq.
  - eexists. split_and!; cycle 2.
    + apply elem_of_fsListDir. simpl.
      rewrite listPrefix_no_trailing by done.
      split_and!; [by rewrite str_app_assoc|done|done|].
      rewrite fsWriteFile_replace, Hkey, assign_ne by done.
      apply lookup_insert_eq.
    + done.
    + done.
Qed.

Lemma fsListDir_children_witness :
  mkEntry "C:\Temp\new" "new"
    (mkNode (Some Dir) None (Some sampleNow) sampleNow)
  ∈ fsListDir "C:\Temp" (snd (fsMkdir sampleNow "C:\Temp\new"
                                (initFS sampleNow))).
Proof.
  refine (proj1 (proj2 (proj2 (fsListDir_children sampleNow "C:\Temp" "new" ""
                                 (initFS sampleNow))) _ _) _);
    vm_compute; reflexivity.
Defined.

(** X11. The listing after a deletion.  After [fsDelete] of a directory
    whose path does not end in a backslash the directory lists nothing.
    For a directory whose path ends in a backslash (a three-character root
    that was made a directory) the deletion takes the entry of the
    directory only: what was listed below it is still listed. *)
Theorem fsListDir_after_delete (d : string) (vfs : store) :
  fsIsDir d vfs = true →
  (endsWith_char backslash (normPath d) = false →
   fsListDir d (snd (fsDelete d vfs)) = []) ∧
  (endsWith_char backslash (normPath d) = true →
   ∀ e, e ∈ fsListDir d (snd (fsDelete d vfs)) ↔ e ∈ fsListDir d vfs).
Proof.
  intros Hd. split; intros He.
  - rewrite (fsDelete_dir _ _ (normPath_idem_no_trailing d He) Hd). simpl.
    apply elem_of_nil_inv. intros e (Hp & _ & _ & Hk)%elem_of_fsListDir.
    rewrite lookup_delete_dir in Hk.
    rewrite decide_True in Hk; [done|].
    right. rewrite Hp, listPrefix_no_trailing by done.
    apply startsWith_app.
  - assert (∀ e, entry_path e = listPrefix d +:+ entry_name e →
                 entry_name e ≠ "" → noBackslash (entry_name e) = true →
                 ¬ underDir (normPath d) (entry_path e)) as Hout.
    { intros e Hp Hne Hn. rewrite Hp, listPrefix_trailing by done.
      intros [Heq|Hs].
      - apply Hne. apply (str_app_inj_l (normPath d)).
        by rewrite str_app_nil_r.
      - apply startsWith_inv in Hs as [u Hu].
        rewrite str_app_assoc in Hu. apply str_app_inj_l in Hu.
        by eapply noBackslash_head. }
    intros e. unfold fsDelete.
    destruct (negb (fsExists (normPath d) vfs)); [done|].
    destruct (fsIsDir (normPath d) vfs); simpl; rewrite !elem_of_fsListDir;
      split; intros (Hp & Hne & Hn & Hk); (split_and!; [done..|]).
    + rewrite lookup_delete_dir in Hk. by destruct (decide _).
    + rewrite lookup_delete_dir. rewrite decide_False; [done|].
      by apply Hout.
    + rewrite lookup_delete_ne in Hk; [done|].
      intros Heq. apply (Hout e Hp Hne Hn). by left.
    + rewrite lookup_delete_ne; [done|].
      intros Heq. apply (Hout e Hp Hne Hn). by left.
Qed.

Lemma fsListDir_after_delete_witness :
  fsListDir "C:\Users\PSUser"
    (snd (fsDelete "C:\Users\PSUser" (initFS sampleNow))) = [].
Proof.
  refine (proj1 (fsListDir_after_delete "C:\Users\PSUser" (initFS sampleNow)
                   _) _); vm_compute; reflexivity.
Defined.

(** * The token and argument parser *)

(** X12. The tokens of [parseArgs].  No token is empty, whatever the text
    and its quotes are; a space before the text is of no account; and bare
    words joined by single spaces are parsed back into the same words:
    [parseArgs(ws.join(' '))] is [ws] when no word is empty or has a space
    or a quote. *)
Theorem parseArgs_join (str : string) (ws : list string) :
  (∀ t, t ∈ parseArgs str → t ≠ "") ∧
  parseArgs (" " +:+ str) = parseArgs str ∧
  (Forall (λ w, isBareWord w = true) ws →
   parseArgs (String.concat " " ws) = ws).
Proof.
  split_and!; [intros t; apply parseArgs_go_no_empty|done|].
  apply parseArgs_concat.
Qed.

Lemma parseArgs_join_witness :
  parseArgs "Get-Content -Path notes.txt"
  = ["Get-Content"; "-Path"; "notes.txt"].
Proof.
  apply (proj2 (proj2 (parseArgs_join ""
                         ["Get-Content"; "-Path"; "notes.txt"]))).
  repeat constructor.
Defined.

(** X13. Quoted text.  A text between double quotes that has no double
    quote is one token, spaces and single quotes included, with the quotes
    removed; the closing quote may be missing; an empty quoted text gives
    no token at all; and a quoted text that follows a bare word without a
    space is joined to it.  The same holds with the roles of the single and
    the double quote exchanged. *)
Theorem parseArgs_quoted (a t : string) :
  (lacks dquote t = true →
   parseArgs (dq +:+ t +:+ dq) = match t with "" => [] | _ => [t] end ∧
   parseArgs (dq +:+ t) = match t with "" => [] | _ => [t] end ∧
   (isBareWord a = true → parseArgs (a +:+ dq +:+ t +:+ dq) = [a +:+ t])) ∧
  (lacks squote t = true →
   parseArgs ("'" +:+ t +:+ "'") = match t with "" => [] | _ => [t] end ∧
   parseArgs ("'" +:+ t) = match t with "" => [] | _ => [t] end ∧
   (isBareWord a = true → parseArgs (a +:+ "'" +:+ t +:+ "'") = [a +:+ t])).
Proof.
  assert (∀ w, String.rev (String.rev_app t (String.rev_app w "")) = w +:+ t)
    as Hrev.
  { intros w. unfold String.rev. rewrite !rev_app_rev_app. simpl.
    by rewrite str_app_nil_r. }
  split; intros Ht.
  - split_and!.
    + unfold parseArgs, dq.
      change (String dquote "" +:+ t +:+ String dquote "")
        with (String dquote (t +:+ String dquote "")).
      cbn [parseArgs_go]. change (Ascii.eqb dquote squote) with false.
      rewrite Ascii.eqb_refl. simpl andb. cbv iota.
      rewrite parseArgs_go_double by done.
      cbn [parseArgs_go]. change (Ascii.eqb dquote squote) with false.
      rewrite Ascii.eqb_refl. simpl andb. cbv iota.
      apply pushArg_rev_app.
    + unfold parseArgs, dq.
      change (String dquote "" +:+ t) with (String dquote t).
      cbn [parseArgs_go]. change (Ascii.eqb dquote squote) with false.
      rewrite Ascii.eqb_refl. simpl andb. cbv iota.
      rewrite <- (str_app_nil_r t) at 1.
      rewrite parseArgs_go_double by done.
      cbn [parseArgs_go]. apply pushArg_rev_app.
    + intros (c & w & Hw & Hall)%isBareWord_inv. unfold parseArgs, dq.
      rewrite parseArgs_go_bare by done.
      change (String dquote "" +:+ t +:+ String dquote "")
        with (String dquote (t +:+ String dquote "")).
      cbn [parseArgs_go]. change (Ascii.eqb dquote squote) with false.
      rewrite Ascii.eqb_refl. simpl andb. cbv iota.
      rewrite parseArgs_go_double by done.
      cbn [parseArgs_go]. change (Ascii.eqb dquote squote) with false.
      rewrite Ascii.eqb_refl. simpl andb. cbv iota.
      unfold pushArg.
      destruct (String.rev_app t (String.rev_app a "")) eqn:E.
      * exfalso. apply (f_equal String.length) in E.
        rewrite !length_rev_app, Hw in E. simpl in E. lia.
      * by rewrite <- E, Hrev.
  - split_and!.
    + unfold parseArgs.
      change ("'" +:+ t +:+ "'") with (String squote (t +:+ String squote "")).
      cbn [parseArgs_go]. rewrite Ascii.eqb_refl. simpl andb. cbv iota.
      rewrite parseArgs_go_single by done.
      cbn [parseArgs_go]. rewrite Ascii.eqb_refl. simpl andb. cbv iota.
      apply pushArg_rev_app.
    + unfold parseArgs.
      change ("'" +:+ t) with (String squote t).
      cbn [parseArgs_go]. rewrite Ascii.eqb_refl. simpl andb. cbv iota.
      rewrite <- (str_app_nil_r t) at 1.
      rewrite parseArgs_go_single by done.
      cbn [parseArgs_go]. apply pushArg_rev_app.
    + intros (c & w & Hw & Hall)%isBareWord_inv. unfold parseArgs.
      rewrite parseArgs_go_bare by done.
      change ("'" +:+ t +:+ "'") with (String squote (t +:+ String squote "")).
      cbn [parseArgs_go]. rewrite Ascii.eqb_refl. simpl andb. cbv iota.
      rewrite parseArgs_go_single by done.
      cbn [parseArgs_go]. rewrite Ascii.eqb_refl. simpl andb. cbv iota.
      unfold pushArg.
      destruct (String.rev_app t (String.rev_app a "")) eqn:E.
      * exfalso. apply (f_equal String.length) in E.
        rewrite !length_rev_app, Hw in E. simpl in E. lia.
      * by rewrite <- E, Hrev.
Qed.

Lemma parseArgs_quoted_witness :
  parseArgs (dq +:+ "it's a | b" +:+ dq) = ["it's a | b"] ∧
  parseArgs ("-Value:" +:+ dq +:+ "a b" +:+ dq) = ["-Value:a b"].
Proof.
  pose proof (parseArgs_quoted "-Value:" "it's a | b") as [H1 _].
  pose proof (parseArgs_quoted "-Value:" "a b") as [H2 _].
  split.
  - exact (proj1 (H1 ltac:(reflexivity))).
  - exact (proj2 (proj2 (H2 ltac:(reflexivity))) ltac:(reflexivity)).
Defined.

(** * Named parameters *)

(** X14. Named parameters.  The positional arguments [parseNamedParams]
    gives are arguments of the input, in their order, and none of them
    starts with a dash; every key of the parameters is in lower case and is
    the name of a dash argument; and arguments without any dash are all
    positional.  For a name without a colon: [-name:value] binds the value
    given after the colon, which may be any text; [-name value] binds the
    next argument when that does not start with a dash; [-name] alone is a
    switch; and before an argument that starts with a dash the parameter is
    a switch too, so that a value such as [-5] is never bound this way.
    The binding is to the name in lower case. *)
Theorem parseNamedParams_forms (args : list string) (name v m : string) :
  snd (parseNamedParams args) `sublist_of` args ∧
  Forall (λ a, startsWithDash a = false) (snd (parseNamedParams args)) ∧
  (∀ k, is_Some (fst (parseNamedParams args) !! k) → keyOf k args) ∧
  (Forall (λ a, startsWithDash a = false) args →
   parseNamedParams args = (∅, args)) ∧
  (lacks colon name = true →
   parseNamedParams ["-" +:+ name +:+ ":" +:+ v]
     = (setParam name (PText v) ∅, []) ∧
   parseNamedParams ["-" +:+ name] = (setParam name PTrue ∅, []) ∧
   (startsWithDash v = false →
    parseNamedParams ["-" +:+ name; v] = (setParam name (PText v) ∅, [])) ∧
   (lacks colon m = true →
    parseNamedParams ["-" +:+ name; "-" +:+ m]
      = (setParam m PTrue (setParam name PTrue ∅), [])) ∧
   (toLowerCase name ≠ "__proto__" →
    ∀ val, setParam name val ∅ = {[toLowerCase name := val]})).
Proof.
  destruct (parseNamedParams_go_spec (length args) args ∅ [] ltac:(lia))
    as (l & H1 & H2 & H3 & H4).
  split_and!.
  { unfold parseNamedParams. by rewrite H1. }
  { unfold parseNamedParams. by rewrite H1. }
  { unfold parseNamedParams. intros k [Hk|Hk]%H4; [|done].
    rewrite lookup_empty in Hk. by destruct Hk. }
  { intros H. unfold parseNamedParams.
    by rewrite parseNamedParams_go_plain. }
  intros Hn.
  assert (∀ x, lacks colon x = true → indexOf colon ("-" +:+ x) = -1) as Hnone.
  { intros x Hx. apply indexOf_none. unfold lacks in *. simpl. exact Hx. }
  split_and!.
  - unfold parseNamedParams. cbn [parseNamedParams_go].
    rewrite startsWithDash_dash.
    assert (indexOf colon ("-" +:+ name +:+ ":" +:+ v)
            = Z.of_nat (S (String.length name))) as ->.
    { rewrite <- str_app_assoc. change (":" +:+ v) with (String colon v).
      rewrite indexOf_app.
      - rewrite str_length_app. simpl. lia.
      - unfold lacks in *. simpl. exact Hn. }
    destruct (0 <? Z.of_nat (S (String.length name))) eqn:E;
      [|apply Z.ltb_ge in E; lia].
    rewrite Nat2Z.id.
    replace (Z.to_nat (Z.of_nat (S (String.length name)) + 1))
      with (String.length ("-" +:+ name +:+ ":")).
    2:{ rewrite <- str_app_assoc, str_length_app, str_length_app.
        simpl. lia. }
    replace ("-" +:+ name +:+ ":" +:+ v) with (("-" +:+ name +:+ ":") +:+ v)
      by (by rewrite !str_app_assoc).
    rewrite drop_str_app.
    replace (S (String.length name)) with (String.length ("-" +:+ name))
      by (rewrite str_length_app; simpl; lia).
    rewrite <- str_app_assoc, str_app_assoc.
    rewrite take_str_app. done.
  - unfold parseNamedParams. cbn [parseNamedParams_go].
    rewrite startsWithDash_dash.
    by rewrite (Hnone _ Hn).
  - intros Hv. unfold parseNamedParams. cbn [parseNamedParams_go].
    rewrite startsWithDash_dash.
    rewrite (Hnone _ Hn), Hv. done.
  - intros Hm. unfold parseNamedParams. cbn [parseNamedParams_go].
    rewrite !startsWithDash_dash. simpl negb. cbv iota.
    rewrite (Hnone _ Hn), (Hnone _ Hm). done.
  - intros Hne val. unfold setParam.
    by destruct (String.eqb_spec (toLowerCase name) "__proto__").
Qed.

Lemma parseNamedParams_forms_witness :
  parseNamedParams ["-Count"; "-5"]
  = (<["5" := PTrue]> {["count" := PTrue]}, []) ∧
  parseNamedParams ["-Value:a:b"] = ({["value" := PText "a:b"]}, []).
Proof.
  pose proof (proj2 (proj2 (proj2 (proj2
                (parseNamedParams_forms [] "Count" "" "5"))))
                ltac:(reflexivity)) as (_ & _ & _ & H1 & _).
  pose proof (proj2 (proj2 (proj2 (proj2
                (parseNamedParams_forms [] "Value" "a:b" ""))))
                ltac:(reflexivity)) as (H2 & _).
  split.
  - exact (H1 ltac:(reflexivity)).
  - exact H2.
Defined.

(** * The pipeline parser *)

(** X15. The segments of a pipeline.  Every segment is not empty and is
    trimmed, and a line without a pipe character is one segment, or none
    when it is blank.  A pipe that follows a text without a quote ends a
    segment; a pipe between quotes does not: the quoted text, pipes
    included, stays in its segment with its quotes, and a pipe after the
    closing quote ends the segment. *)
Theorem parsePipeline_split (line a t b : string) :
  (∀ seg, seg ∈ parsePipeline line → seg ≠ "" ∧ trim seg = seg) ∧
  (lacks "|" line = true → parsePipeline line = nonEmpty [trim line]) ∧
  (lacks "|" a = true → noQuote a = true →
   parsePipeline (a +:+ "|" +:+ b) = nonEmpty [trim a] ++ parsePipeline b ∧
   (lacks dquote t = true →
    parsePipeline (a +:+ dq +:+ t +:+ dq +:+ "|" +:+ b)
    = nonEmpty [trim (a +:+ dq +:+ t +:+ dq)] ++ parsePipeline b) ∧
   (lacks squote t = true →
    parsePipeline (a +:+ "'" +:+ t +:+ "'" +:+ "|" +:+ b)
    = nonEmpty [trim (a +:+ "'" +:+ t +:+ "'")] ++ parsePipeline b)).
Proof.
  split_and!.
  { intros seg [Hin Hne]%elem_of_nonEmpty. split; [done|].
    by eapply parsePipeline_go_trimmed. }
  { intros Hl. unfold parsePipeline.
    by rewrite parsePipeline_go_no_pipe. }
  intros Ha Hq. split_and!; [by apply parsePipeline_cut|..];
    unfold parsePipeline.
  - intros Ht. rewrite parsePipeline_go_plain by done.
    change (dq +:+ t +:+ dq +:+ "|" +:+ b)
      with (String dquote (t +:+ String dquote (String "|" b))).
    rewrite parsePipeline_go_dquote. simpl negb.
    rewrite parsePipeline_go_double by done.
    rewrite parsePipeline_go_dquote. simpl negb.
    rewrite parsePipeline_go_pipe, nonEmpty_cons.
    do 2 f_equal. f_equal.
    change (String dquote (String.rev_app t (String dquote (String.rev_app a ""))))
      with (String.rev_app (String dquote "")
              (String.rev_app t (String.rev_app (String dquote "")
                                   (String.rev_app a "")))).
    rewrite !rev_rev_app_app. simpl String.rev.
    rewrite str_app_nil_l, !str_app_assoc. done.
  - intros Ht. rewrite parsePipeline_go_plain by done.
    change ("'" +:+ t +:+ "'" +:+ "|" +:+ b)
      with (String squote (t +:+ String squote (String "|" b))).
    rewrite parsePipeline_go_squote. simpl negb.
    rewrite parsePipeline_go_single by done.
    rewrite parsePipeline_go_squote. simpl negb.
    rewrite parsePipeline_go_pipe, nonEmpty_cons.
    do 2 f_equal. f_equal.
    change (String squote (String.rev_app t (String squote (String.rev_app a ""))))
      with (String.rev_app (String squote "")
              (String.rev_app t (String.rev_app (String squote "")
                                   (String.rev_app a "")))).
    rewrite !rev_rev_app_app. simpl String.rev.
    rewrite str_app_nil_l, !str_app_assoc. done.
Qed.

Lemma parsePipeline_split_witness :
  parsePipeline ("Get-ChildItem | Where-Object " +:+ dq +:+ "a|b" +:+ dq
                 +:+ "|" +:+ " Sort-Object")
  = ["Get-ChildItem"; "Where-Object " +:+ dq +:+ "a|b" +:+ dq; "Sort-Object"].
Proof.
  pose proof (proj2 (proj2 (parsePipeline_split "" "Get-ChildItem "
                "" (" Where-Object " +:+ dq +:+ "a|b" +:+ dq
                    +:+ "|" +:+ " Sort-Object")))
                ltac:(reflexivity) ltac:(reflexivity)) as [H1 _].
  pose proof (proj2 (proj2 (parsePipeline_split "" " Where-Object " "a|b"
                              " Sort-Object"))
                ltac:(reflexivity) ltac:(reflexivity)) as (_ & H2 & _).
  specialize (H2 ltac:(reflexivity)).
  etransitivity; [exact H1|].
  etransitivity; [apply (f_equal (app _)); exact H2|].
  reflexivity.
Defined.

(** * The statements of a line *)

(** X16. The statements of a line.  Every statement is not empty and is
    trimmed, and a line without a semicolon is one statement, or none when
    it is blank.  A semicolon that follows a text without quotes and braces
    ends a statement; a semicolon inside a script block does not, and the
    semicolon after the closing brace does; and after a closing brace that
    closes nothing no semicolon ends a statement, as the count of open
    braces is then below zero. *)
Theorem splitStatements_split (line a t b : string) :
  (∀ stmt, stmt ∈ splitStatements line → stmt ≠ "" ∧ trim stmt = stmt) ∧
  (lacks ";" line = true → splitStatements line = nonEmpty [trim line]) ∧
  (lacks ";" a = true → noQuoteOrBrace a = true →
   splitStatements (a +:+ ";" +:+ b)
   = nonEmpty [trim a] ++ splitStatements b ∧
   (noQuoteOrBrace t = true →
    splitStatements (a +:+ "{" +:+ t +:+ "}" +:+ ";" +:+ b)
    = nonEmpty [trim (a +:+ "{" +:+ t +:+ "}")] ++ splitStatements b) ∧
   (noQuoteOrBrace t = true →
    splitStatements (a +:+ "}" +:+ t) = nonEmpty [trim (a +:+ "}" +:+ t)])).
Proof.
  split_and!.
  { intros stmt [Hin Hne]%elem_of_nonEmpty. split; [done|].
    by eapply splitStatements_go_trimmed. }
  { intros Hl. unfold splitStatements.
    by rewrite splitStatements_go_no_semicolon, nonEmpty_idem. }
  intros Ha Hq. unfold splitStatements. split_and!.
  - rewrite splitStatements_go_skip by eauto.
    change (";" +:+ b) with (String ";" b).
    rewrite splitStatements_go_semicolon, nonEmpty_cons.
    by rewrite rev_rev_app.
  - intros Ht. rewrite splitStatements_go_skip by eauto.
    change ("{" +:+ t +:+ "}" +:+ ";" +:+ b)
      with (String "{" (t +:+ String "}" (String ";" b))).
    rewrite splitStatements_go_open.
    rewrite splitStatements_go_skip by (by eauto).
    rewrite splitStatements_go_close.
    change (0 + 1 - 1) with 0.
    rewrite splitStatements_go_semicolon, nonEmpty_cons.
    do 2 f_equal. f_equal.
    change (String "}" (String.rev_app t (String "{" (String.rev_app a ""))))
      with (String.rev_app "}"
              (String.rev_app t (String.rev_app "{" (String.rev_app a "")))).
    rewrite !rev_rev_app_app. simpl String.rev.
    rewrite str_app_nil_l, !str_app_assoc. done.
  - intros Ht. rewrite splitStatements_go_skip by eauto.
    change ("}" +:+ t) with (String "}" t).
    rewrite splitStatements_go_close.
    rewrite <- (str_app_nil_r t) at 1.
    rewrite splitStatements_go_skip by (by eauto).
    cbn [splitStatements_go].
    rewrite splitStatements_go_end, nonEmpty_idem.
    do 3 f_equal.
    change (String.rev_app t (String "}" (String.rev_app a "")))
      with (String.rev_app t (String.rev_app "}" (String.rev_app a ""))).
    rewrite !rev_rev_app_app. simpl String.rev.
    rewrite str_app_nil_l, !str_app_assoc. done.
Qed.

Lemma splitStatements_split_witness :
  splitStatements "$x = 1; ForEach-Object { a; b }; $y = 2"
  = ["$x = 1"; "ForEach-Object { a; b }"; "$y = 2"] ∧
  splitStatements "} a; b" = ["} a; b"].
Proof.
  pose proof (proj2 (proj2 (splitStatements_split "" "$x = 1" ""
                              " ForEach-Object { a; b }; $y = 2"))
                ltac:(reflexivity) ltac:(reflexivity)) as [H1 _].
  pose proof (proj2 (proj2 (splitStatements_split "" " ForEach-Object "
                              " a; b " " $y = 2"))
                ltac:(reflexivity) ltac:(reflexivity)) as (_ & H2 & _).
  pose proof (proj2 (proj2 (splitStatements_split "" "" " a; b" ""))
                ltac:(reflexivity) ltac:(reflexivity)) as (_ & _ & H3).
  split.
  - etransitivity; [exact H1|].
    etransitivity; [apply (f_equal (app _)); exact (H2 eq_refl)|].
    reflexivity.
  - exact (H3 ltac:(reflexivity)).
Defined.

(** * Escaping for HTML *)

(** X17. The five replacements of [escHtml], made one after the other with
    the ampersand first, are one pass that replaces each character by its
    entity: no ampersand of an entity is escaped again.  So [escHtml]
    distributes over concatenation, its result has no angle bracket and no
    quote, a text without the five characters is left as it is, and
    nothing is lost: two texts with the same escaped text are the same
    text. *)
Theorem escHtml_single_pass (s t : string) :
  escHtml s = escapeAll s ∧
  escHtml (s +:+ t) = escHtml s +:+ escHtml t ∧
  all_chars (λ c, negb (isMarkupChar c)) (escHtml s) = true ∧
  (all_chars (λ c, negb (Ascii.eqb c "&" || isMarkupChar c)) s = true →
   escHtml s = s) ∧
  (escHtml s = escHtml t → s = t).
Proof.
  split_and!; [..|rewrite !escHtml_escapeAll; apply escapeAll_inj].
  - apply escHtml_escapeAll.
  - apply escHtml_app.
  - apply escHtml_safe.
  - rewrite escHtml_escapeAll. induction s as [|c s IH]; [done|].
    cbn [escapeAll all_chars]. intros [Hc Hs]%andb_true_iff.
    by rewrite (escapeChar_id _ Hc), (IH Hs).
Qed.

Lemma escHtml_single_pass_witness :
  escHtml "a<b & c" = "a&lt;b &amp; c" ∧ "a<b & c" = "a<b & c".
Proof.
  split; [reflexivity|].
  exact (proj2 (proj2 (proj2 (proj2 (escHtml_single_pass "a<b & c" "a<b & c"))))
           ltac:(reflexivity)).
Defined.

(** X18. The markup of the prompt line has its own six tags and six
    attribute quotes and nothing more, whatever the working directory and
    the command are: the text of the user opens no tag and closes no
    attribute. *)
Theorem promptHtml_markup (cwd cmd : string) :
  countChars (Ascii.eqb "<") (promptHtml cwd cmd) = 6%nat ∧
  countChars (Ascii.eqb ">") (promptHtml cwd cmd) = 6%nat ∧
  countChars isQuote (promptHtml cwd cmd) = 6%nat.
Proof.
  assert (∀ c, Ascii.eqb "<" c = true → isMarkupChar c = true) as H1.
  { by intros c <-%Ascii.eqb_eq. }
  assert (∀ c, Ascii.eqb ">" c = true → isMarkupChar c = true) as H2.
  { by intros c <-%Ascii.eqb_eq. }
  assert (∀ c, isQuote c = true → isMarkupChar c = true) as H3.
  { intros c Hc. unfold isMarkupChar. rewrite Hc. apply orb_true_r. }
  unfold promptHtml.
  split_and!; rewrite !countChars_app, !countChars_escHtml by done;
    reflexivity.
Qed.

(** * Further properties of the variable expander *)

(** X19. What the expander leaves and what a built-in name hides.  A text
    without a dollar sign is left as it is, whatever the variables are.
    When the name of a user variable is also the name of a built-in
    variable, [$name] is the built-in value and [${name}] is the value of
    the user variable: the built-in shadows the variable in the bare form
    only; and the built-in names are matched without regard to letter
    case. *)
Theorem expandVariables_builtin_shadows (vars : variables) (cwd : string) :
  (∀ s, lacks "$" s = true → expandVariables vars cwd s = s) ∧
  (∀ b v u,
     isIdentifier b = true → getBuiltinVar cwd b = Some v →
     vars !! b = Some u →
     expandVariables vars cwd ("$" +:+ b) = v ∧
     (lacks "$" u = true →
      expandVariables vars cwd ("${" +:+ b +:+ "}") = u) ∧
     (∀ b', toLowerCase b' = toLowerCase b → getBuiltinVar cwd b' = Some v)).
Proof.
  split; [apply expandVariables_plain|].
  intros b v u Hid Hb Hu. split_and!.
  - rewrite expandVariables_bare by done. unfold bareValue. by rewrite Hb.
  - intros Hl. rewrite expandVariables_braced by done.
    unfold bracedValue, variableText. rewrite Hu. simpl.
    by apply expandBare_no_dollar.
  - intros b' Hb'. unfold getBuiltinVar in *. by rewrite Hb'.
Qed.

Lemma expandVariables_builtin_shadows_witness :
  expandVariables {["home" := "D:\mine"]} "C:\Users" "$home"
  = "C:\Users\PSUser" ∧
  expandVariables {["home" := "D:\mine"]} "C:\Users" "${home}" = "D:\mine" ∧
  getBuiltinVar "C:\Users" "HOME" = Some "C:\Users\PSUser".
Proof.
  pose proof (proj2 (expandVariables_builtin_shadows {["home" := "D:\mine"]}
                       "C:\Users") "home" "C:\Users\PSUser" "D:\mine"
                ltac:(reflexivity) ltac:(reflexivity) ltac:(reflexivity))
    as (H1 & H2 & H3).
  split_and!; [exact H1|exact (H2 ltac:(reflexivity))|].
  exact (H3 "HOME" ltac:(reflexivity)).
Defined.

(** X20. A braced reference is expanded twice, a bare reference once.  When
    the value of the variable [a] is the text of a bare reference [$b],
    [${a}] gives what [$b] gives, as the pass over the bare references
    runs on the result of the pass over the braced ones; [$a] gives the
    text [$b] itself. *)
Theorem expandVariables_braced_twice (vars : variables) (cwd a b : string) :
  isIdentifier a = true → isIdentifier b = true →
  vars !! a = Some ("$" +:+ b) →
  expandVariables vars cwd ("${" +:+ a +:+ "}")
  = expandVariables vars cwd ("$" +:+ b) ∧
  (getBuiltinVar cwd a = None →
   expandVariables vars cwd ("$" +:+ a) = "$" +:+ b).
Proof.
  intros Ha Hb Hv. split.
  - rewrite expandVariables_braced by done.
    unfold bracedValue, variableText. rewrite Hv. simpl.
    rewrite expandBare_bare by done.
    by rewrite expandVariables_bare.
  - intros Hn. rewrite expandVariables_bare by done.
    unfold bareValue, variableText. by rewrite Hn, Hv.
Qed.

Lemma expandVariables_braced_twice_witness :
  expandVariables (<["a" := "$b"]> {["b" := "1"]}) "C:\Users" "${a}" = "1" ∧
  expandVariables (<["a" := "$b"]> {["b" := "1"]}) "C:\Users" "$a" = "$b".
Proof.
  pose proof (expandVariables_braced_twice (<["a" := "$b"]> {["b" := "1"]})
                "C:\Users" "a" "b"
                ltac:(reflexivity) ltac:(reflexivity) ltac:(reflexivity))
    as (H1 & H2).
  split; [|exact (H2 ltac:(reflexivity))].
  etransitivity; [exact H1|]. vm_compute. reflexivity.
Defined.

(** * Further properties of the evaluators *)

(** X21. A parenthesis that is not closed is accepted: [safeArith] reads
    the expression after an opening parenthesis and asks for the closing
    one only if a token is left, so the text of an expression with one
    opening parenthesis before it has the value of the expression. *)
Theorem safeArith_unclosed_paren (s : string) (e : gExpr) :
  tokenize s = Some (TOp "(" :: tokensExpr e) → safeArith s = valueExpr e.
Proof.
  intros H. unfold safeArith. rewrite H, parseExpr_unclosed.
  destruct (isNaN (valueExpr e)) eqn:E; [|done].
  simpl. symmetry. by apply isNaN_eq.
Qed.

Lemma safeArith_unclosed_paren_witness :
  safeArith "(2 + 3 * 4" = num_of_Z 14.
Proof.
  etransitivity;
    [exact (safeArith_unclosed_paren "(2 + 3 * 4" tree_2_plus_3_times_4
              ltac:(vm_compute; reflexivity))|].
  vm_compute. reflexivity.
Defined.

(** X22. Comparisons of words as text, and the fall-back.  For two words,
    [-eq] and [-ne] compare the texts character by character, letter case
    included, and [-contains] tests whether the right word occurs in the
    left one; a word that is not an arithmetic text is its own value. *)
Theorem evalExpression_text (B : builtins) (vars : variables)
    (cwd l r : string) :
  isWordText l = true → isWordText r = true →
  evalExpression B vars cwd (l +:+ " -eq " +:+ r)
    = Some (if String.eqb l r then "true" else "false") ∧
  evalExpression B vars cwd (l +:+ " -ne " +:+ r)
    = Some (if String.eqb l r then "false" else "true") ∧
  evalExpression B vars cwd (l +:+ " -contains " +:+ r)
    = Some (if includes r l then "true" else "false") ∧
  (isArithText l = false → evalExpression B vars cwd l = Some l).
Proof.
  intros Hl Hr. split_and!.
  - change (" -eq " +:+ r) with (" " +:+ cmpOpName OpEq +:+ " " +:+ r).
    rewrite (evalExpression_words B vars cwd l OpEq r Hl Hr). simpl.
    by destruct (String.eqb l r).
  - change (" -ne " +:+ r) with (" " +:+ cmpOpName OpNe +:+ " " +:+ r).
    rewrite (evalExpression_words B vars cwd l OpNe r Hl Hr). simpl.
    by destruct (String.eqb l r).
  - change (" -contains " +:+ r) with (" " +:+ cmpOpName OpContains +:+ " " +:+ r).
    rewrite (evalExpression_words B vars cwd l OpContains r Hl Hr). simpl.
    by destruct (includes r l).
  - intros Ha. by apply evalExpression_word.
Qed.

Lemma evalExpression_text_witness :
  evalExpression sampleBuiltins ∅ "C:\Users" "abc -eq ABC" = Some "false" ∧
  evalExpression sampleBuiltins ∅ "C:\Users" "10 -eq 010" = Some "false" ∧
  evalExpression sampleBuiltins ∅ "C:\Users" "hello" = Some "hello".
Proof.
  pose proof (evalExpression_text sampleBuiltins ∅ "C:\Users" "abc" "ABC"
                ltac:(reflexivity) ltac:(reflexivity)) as (H1 & _).
  pose proof (evalExpression_text sampleBuiltins ∅ "C:\Users" "10" "010"
                ltac:(reflexivity) ltac:(reflexivity)) as (H2 & _).
  pose proof (evalExpression_text sampleBuiltins ∅ "C:\Users" "hello" "x"
                ltac:(reflexivity) ltac:(reflexivity)) as (_ & _ & _ & H3).
  split_and!; [exact H1|exact H2|exact (H3 ltac:(reflexivity))].
Defined.

(** * Further properties of the history *)

(** X23. [addHistory] keeps the history free of repetitions and sets the
    index behind the last entry; a blank command changes nothing. *)
Theorem addHistory_no_repetition (cmd : string) (st : historyState) :
  (trim cmd = "" → addHistory cmd st = st) ∧
  (trim cmd ≠ "" →
   last (history (addHistory cmd st)) = Some cmd ∧
   historyIndex (addHistory cmd st)
   = Z.of_nat (length (history (addHistory cmd st))) ∧
   (NoDup (history st) → NoDup (history (addHistory cmd st)))).
Proof.
  split; [apply addHistory_blank|]. intros Hne.
  destruct (addHistory_last cmd st Hne) as (l & Hl & Hsub).
  split_and!.
  - rewrite Hl. apply last_snoc.
  - by apply addHistory_index.
  - intros Hnd. rewrite Hl. apply NoDup_app. split_and!.
    + apply (sublist_NoDup _ (others cmd (history st)));
        [by apply others_NoDup|exact Hsub].
    + intros x Hx ->%list_elem_of_singleton.
      apply (others_not_elem cmd (history st)).
      by eapply elem_of_sublist.
    + apply NoDup_singleton.
Qed.

(** X24. Going through the history with the arrow keys.  After a command
    is added, ArrowUp recalls it; ArrowUp and ArrowDown change the index
    only, and keep it between -1 and the length of the history; ArrowUp at
    the first entry leaves the input as it is; and ArrowDown after ArrowUp
    from behind the last entry is back there, with an empty input. *)
Theorem history_navigation (cmd input : string) (st : historyState) :
  (trim cmd ≠ "" → snd (historyUp (addHistory cmd st) input) = cmd) ∧
  history (fst (historyUp st input)) = history st ∧
  history (fst (historyDown st input)) = history st ∧
  (-1 ≤ historyIndex st ≤ Z.of_nat (length (history st)) →
   -1 ≤ historyIndex (fst (historyUp st input))
     ≤ Z.of_nat (length (history st)) ∧
   0 ≤ historyIndex (fst (historyDown st input))
     ≤ Z.of_nat (length (history st))) ∧
  (historyIndex st ≤ 0 → historyUp st input = (st, input)) ∧
  (historyIndex st = Z.of_nat (length (history st)) → history st ≠ [] →
   historyDown (fst (historyUp st input)) (snd (historyUp st input))
   = (st, "")).
Proof.
  split_and!.
  - intros Hne. destruct (addHistory_last cmd st Hne) as (l & Hl & _).
    unfold historyUp. rewrite addHistory_index, Hl by done.
    destruct (0 <? Z.of_nat (length (l ++ [cmd]))) eqn:E.
    + simpl. apply historyAt_last.
    + apply Z.ltb_ge in E. rewrite length_app in E. simpl in E. lia.
  - unfold historyUp. by destruct (0 <? historyIndex st).
  - unfold historyDown. by destruct (historyIndex st <? _).
  - intros Hb. unfold historyUp, historyDown. split.
    + destruct (0 <? historyIndex st) eqn:E; simpl; [|lia].
      apply Z.ltb_lt in E. lia.
    + destruct (historyIndex st <? Z.of_nat (length (history st)) - 1)
        eqn:E; simpl; [|lia].
      apply Z.ltb_lt in E. lia.
  - intros Hi. unfold historyUp.
    destruct (0 <? historyIndex st) eqn:E; [|done].
    apply Z.ltb_lt in E. lia.
  - intros Hi Hne. unfold historyUp.
    assert (0 < length (history st))%nat as Hlen
      by (destruct (history st); [done|simpl; lia]).
    destruct (0 <? historyIndex st) eqn:E;
      [|apply Z.ltb_ge in E; lia].
    simpl. unfold historyDown. simpl.
    destruct (historyIndex st - 1 <? Z.of_nat (length (history st)) - 1)
      eqn:E2; [apply Z.ltb_lt in E2; lia|].
    destruct st as [h i]. simpl in *. by rewrite Hi.
Qed.

Lemma history_navigation_witness :
  snd (historyUp (addHistory "ls" (mkHistory ["ls"; "pwd"] 2)) "") = "ls".
Proof.
  refine (proj1 (history_navigation "ls" "" (mkHistory ["ls"; "pwd"] 2)) _).
  vm_compute. discriminate.
Defined.

(** * The cmdlets *)



(** X26. The guard of [Remove-Item].  Without [-Recurse] a directory with
    an entry directly below it is not removed: the store is unchanged and
    an error is written.  With [-Recurse] (or [-r]) the directory is
    deleted and has no entry any more, so that it exists only if its path
    is a name of the prototype; the working directory is no exception,
    and after its removal the interpreter is in a directory that does not
    exist. *)
Theorem cmdRemoveItem_guard (a : string) (ps : params) (pipe : value)
    (w : world) :
  ps !! "path" = None → ps !! "literalpath" = None →
  fsIsDir (resolvePath (w_cwd w) a) (w_vfs w) = true →
  (∀ name n,
     ps !! "recurse" ≠ Some PTrue → ps !! "r" ≠ Some PTrue →
     endsWith_char backslash (resolvePath (w_cwd w) a) = false →
     isSegment name = true →
     w_vfs w !! (resolvePath (w_cwd w) a +:+ "\" +:+ name) = Some n →
     cmdRemoveItem [a] ps pipe w
     = Some (VNull,
             writeError ("Directory '" +:+ resolvePath (w_cwd w) a +:+
                         "' is not empty. Use -Recurse to remove all items.")
                        w)) ∧
  (ps !! "recurse" = Some PTrue ∨ ps !! "r" = Some PTrue →
   ∃ w', cmdRemoveItem [a] ps pipe w = Some (VNull, w') ∧
         w_cwd w' = w_cwd w ∧
         w_vfs w' = snd (fsDelete (resolvePath (w_cwd w) a) (w_vfs w)) ∧
         fsExists (resolvePath (w_cwd w) a) (w_vfs w')
         = inherited (normPath (resolvePath (w_cwd w) a)) ∧
         (resolvePath (w_cwd w) a = normPath (w_cwd w) →
          fsExists (w_cwd w') (w_vfs w') = inherited (normPath (w_cwd w)))).
Proof.
  intros Hp1 Hp2 Hd.
  assert (resolveArg w (orElse (ps !! "path")
                          (orElse (ps !! "literalpath") (argAt [a] 0)))
          = Some (resolvePath (w_cwd w) a)) as Hr.
  { by rewrite Hp1, Hp2. }
  pose proof (fsIsDir_exists _ _ Hd) as Hex.
  split.
  - intros name n Hr1 Hr2 He Hseg Hn. unfold cmdRemoveItem.
    rewrite Hr, Hex, Hd. simpl.
    rewrite !bool_decide_eq_false_2 by done. simpl.
    assert (normPath (resolvePath (w_cwd w) a) = resolvePath (w_cwd w) a)
      as Hnorm.
    { destruct (resolvePath_normal_or (w_cwd w) a) as [|E]; [done|].
      by rewrite E in He. }
    rewrite <- Hnorm in He, Hn.
    by rewrite (fsListDir_nonempty _ _ _ _ He Hseg Hn).
  - intros Hrec. unfold cmdRemoveItem. rewrite Hr, Hex, Hd. simpl.
    assert (bool_decide (ps !! "recurse" = Some PTrue)
            || bool_decide (ps !! "r" = Some PTrue) = true) as ->.
    { destruct Hrec as [H|H]; rewrite (bool_decide_eq_true_2 _ H);
        [done|apply orb_true_r]. }
    simpl. eexists. split; [done|]. simpl.
    rewrite (fsDelete_dir _ _ (resolvePath_idem2 _ _) Hd). simpl.
    split_and!; [done|done| |].
    + unfold fsExists, hasKey. rewrite lookup_delete_dir.
      rewrite decide_True by (by left).
      rewrite bool_decide_eq_false_2; [done|]. by intros [? ?].
    + intros Heq. unfold fsExists, hasKey. rewrite lookup_delete_dir.
      rewrite decide_True; cycle 1.
      { rewrite Heq.
        destruct (decide (normPath (w_cwd w) = "SS:\")) as [->|Hne]; [by right|].
        left. by rewrite (normPath_idem _ Hne). }
      rewrite bool_decide_eq_false_2; [done|]. by intros [? ?].
Qed.

Lemma cmdRemoveItem_guard_witness :
  cmdRemoveItem ["."] ∅ VNull sampleWorld
  = Some (VNull,
          writeError
            "Directory 'C:\Users\PSUser' is not empty. Use -Recurse to remove all items."
            sampleWorld).
Proof.
  refine (proj1 (cmdRemoveItem_guard "." ∅ VNull sampleWorld _ _ _)
            "Desktop" (mkNode (Some Dir) None (Some sampleNow) sampleNow)
            _ _ _ _ _);
    try (vm_compute; reflexivity); by rewrite lookup_empty.
Defined.

(** X27. [Rename-Item].  In a working directory in normal form that does
    not end in a backslash, renaming the file of a plain name to another
    plain name that is taken by no directory moves the content to the new
    name; renaming the file to its own name reports success and loses the
    file, as the move copies the file onto itself and then deletes it. *)
Theorem cmdRenameItem_outcome (now name name' : string) (pipe : value)
    (w : world) :
  isPlainName name = true → isPlainName name' = true →
  normPath (w_cwd w) = w_cwd w → endsWith_char backslash (w_cwd w) = false →
  fsIsFile (w_cwd w +:+ "\" +:+ name) (w_vfs w) = true →
  (name' ≠ name → fsIsDir (w_cwd w +:+ "\" +:+ name') (w_vfs w) = false →
   ∃ w', cmdRenameItem now [name; name'] ∅ pipe w = Some (VNull, w') ∧
         fsExists (w_cwd w +:+ "\" +:+ name) (w_vfs w') = false ∧
         fsGetContent (w_cwd w +:+ "\" +:+ name') (w_vfs w')
         = fsGetContent (w_cwd w +:+ "\" +:+ name) (w_vfs w)) ∧
  cmdRenameItem now [name; name] ∅ pipe w
  = Some (VNull,
          writeLine ("Renamed to: " +:+ w_cwd w +:+ "\" +:+ name)
            "line-success"
            (setVfs (delete (w_cwd w +:+ "\" +:+ name) (w_vfs w)) w)).
Proof.
  intros Hp Hp' Hn He Hf.
  pose proof (isPlainName_segment _ Hp) as Hseg.
  pose proof (isPlainName_segment _ Hp') as Hseg'.
  pose proof Hseg as (c & t & Hname & _ & Hnb)%isSegment_inv.
  pose proof Hseg' as (c' & t' & Hname' & _ & _)%isSegment_inv.
  pose proof (normPath_join _ _ Hn He Hseg) as Hsrc.
  pose proof (normPath_join _ _ Hn He Hseg') as Hdst.
  assert (∀ x, x ≠ "" →
            cmdRenameItem now [name; x] ∅ pipe w
            = let src := w_cwd w +:+ "\" +:+ name in
              let dst := normPath (w_cwd w +:+ "\" +:+ x) in
              let '(ok, vfs') := fsMove now src dst (w_vfs w) in
              if negb ok
              then Some (VNull,
                         writeError ("Rename failed. '" +:+ src +:+
                                     "' not found.") w)
              else Some (VNull,
                         writeLine ("Renamed to: " +:+ dst) "line-success"
                           (setVfs vfs' w))) as Hren.
  { intros x Hx. unfold cmdRenameItem. rewrite !lookup_empty. simpl.
    rewrite resolvePath_child by done.
    rewrite sliceTo_join by done.
    destruct x; [done|]. done. }
  pose proof Hf as (n & Hlook & Hty)%fsIsFile_true.
  split.
  - intros Hne Hd. rewrite Hren by (by rewrite Hname'). cbv zeta.
    assert (normPath (w_cwd w +:+ "\" +:+ name')
            ≠ normPath (w_cwd w +:+ "\" +:+ name)) as Hdiff.
    { rewrite Hsrc, Hdst. intros Heq. apply str_app_inj_l in Heq.
      apply (str_app_inj_l "\") in Heq. done. }
    assert (normPath (w_cwd w +:+ "\" +:+ name') ≠ "__proto__") as Hproto.
    { rewrite Hdst. apply (not_proto_join (w_cwd w) name'). }
    rewrite Hdst.
    rewrite (fsMove_other _ _ _ _ _ ltac:(by rewrite !Hsrc)
               ltac:(by rewrite !Hdst) Hproto Hlook Hty Hd Hdiff).
    simpl. eexists. split; [done|]. simpl. split.
    + apply fsExists_false. split; [apply lookup_delete_eq|].
      rewrite Hsrc. apply (inherited_join (w_cwd w) name).
    + rewrite (fsGetContent_lookup _ _ (touch now (Some n))).
      * by rewrite (fsGetContent_lookup _ _ n).
      * rewrite lookup_delete_ne by done. apply lookup_insert_eq.
  - rewrite Hren by (by rewrite Hname). cbv zeta. rewrite Hsrc.
    rewrite fsMove_same; [by rewrite Hsrc|by rewrite !Hsrc|done|].
    unfold copyTarget. rewrite !Hsrc.
    by rewrite (fsIsDir_false_file _ _ Hf).
Qed.

Lemma cmdRenameItem_outcome_witness :
  cmdRenameItem sampleNow ["readme.txt"; "readme.txt"] ∅ VNull
    (setCwd "C:\Users\PSUser\Desktop" sampleWorld)
  = Some (VNull,
          writeLine "Renamed to: C:\Users\PSUser\Desktop\readme.txt"
            "line-success"
            (setVfs (delete "C:\Users\PSUser\Desktop\readme.txt"
                       (initFS sampleNow))
                    (setCwd "C:\Users\PSUser\Desktop" sampleWorld))).
Proof.
  refine (proj2 (cmdRenameItem_outcome sampleNow "readme.txt" "readme.txt"
                   VNull (setCwd "C:\Users\PSUser\Desktop" sampleWorld)
                   _ _ _ _ _)); vm_compute; reflexivity.
Defined.

(** * The command executor *)

(** X28. Dispatch.  A line of simple words joined by single spaces, whose
    first word is the name of a command, is run as one call: the cmdlet
    registered under the name in lower case is called with the positional
    arguments and the named parameters of the remaining words and with
    [null] as the piped value, and what it returns is what the executor
    returns.  A name that is not registered gives the two error lines and
    [null], with two exceptions that come from the prototype of the
    registry: [constructor] returns the array of the positional arguments
    and writes nothing, and [__proto__] throws.  A name registered with
    [reg] is found in any letter case. *)
Theorem executeCommand_dispatch (B : builtins) (CMDLETS : registry)
    (c : string) (ws : list string) (w : world) :
  isCommandWord c = true → Forall (λ a, isSimpleWord a = true) ws →
  executeCommand B CMDLETS (String.concat " " (c :: ws)) w
  = match CMDLETS !! toLowerCase c with
    | Some fn =>
        fn (snd (parseNamedParams ws)) (fst (parseNamedParams ws)) VNull w
    | None =>
        if String.eqb (toLowerCase c) "constructor"
        then Some (VArray (snd (parseNamedParams ws)), w)
        else if String.eqb (toLowerCase c) "__proto__" then None
        else Some (VNull, notRecognized c w)
    end ∧
  (∀ names fn n,
     n ∈ names → toLowerCase c = toLowerCase n →
     reg names fn CMDLETS !! toLowerCase c = Some fn).
Proof.
  intros Hc Hws. split.
  - destruct (simple_line_facts c ws Hc Hws)
      as (Ht & Hne & _ & _ & _ & H4 & _ & _).
    pose proof Hc as (a & t & Hceq & H1 & H2 & H3 & Hs)%isCommandWord_inv.
    pose proof Hs as (? & ? & _ & Hall)%isSimpleWord_inv.
    rewrite Hceq in Hall. simpl in Hall.
    apply andb_true_iff in Hall as [Ha _].
    apply isSimpleChar_facts in Ha as (_ & _ & Ha3 & _).
    destruct (concat_head a t ws) as [u Hu]. rewrite <- Hceq in Hu.
    rewrite (executeCommand_pipeline _ _ _ a u);
      [|by rewrite Ht|done..].
    rewrite <- Hu.
    rewrite parsePipeline_single by done.
    rewrite runSegments_simple by done.
    destruct (CMDLETS !! toLowerCase c) as [fn|]; [|done].
    by destruct (fn _ _ _ _) as [[v w']|].
  - intros names fn n Hn ->. by apply reg_lookup.
Qed.

Lemma executeCommand_dispatch_witness :
  executeCommand sampleBuiltins sampleRegistry "CD Desktop" sampleWorld
  = Some (VText "C:\Users\PSUser\Desktop",
          setCwd "C:\Users\PSUser\Desktop" sampleWorld).
Proof.
  etransitivity;
    [exact (proj1 (executeCommand_dispatch sampleBuiltins sampleRegistry
                     "CD" ["Desktop"] sampleWorld ltac:(reflexivity)
                     ltac:(repeat constructor)))|].
  vm_compute. reflexivity.
Defined.

(** X29. A name that is no cmdlet ends the pipeline.  When the first
    segment of a line is a command word that is not registered (and is not
    one of the two names of the prototype), the executor writes the two
    error lines and returns [null]; the segments after it are not run,
    whatever they are.  A reference with a colon in
    its name, which the expander leaves as it is, is looked up by the
    executor itself, in the variables first and in the built-in variables
    second, and its value is written and returned. *)
Theorem executeCommand_not_recognized (B : builtins) (CMDLETS : registry)
    (c rest : string) (w : world) :
  (isCommandWord c = true → CMDLETS !! toLowerCase c = None →
   toLowerCase c ≠ "constructor" → toLowerCase c ≠ "__proto__" →
   executeCommand B CMDLETS (c +:+ "|" +:+ rest) w
   = Some (VNull, notRecognized c w)) ∧
  (∀ a b,
     isIdentifier a = true → isWordText b = true →
     w_variables w !! a = None → inherited a = false →
     getBuiltinVar (w_cwd w) a = None →
     CMDLETS !! toLowerCase ("$" +:+ a +:+ ":" +:+ b) = None →
     executeCommand B CMDLETS ("$" +:+ a +:+ ":" +:+ b) w
     = match orElse (w_variables w !! toLowerCase (a +:+ ":" +:+ b))
                    (getBuiltinVar (w_cwd w) (toLowerCase (a +:+ ":" +:+ b)))
       with
       | Some val => Some (VText val, writeLine val "line-output" w)
       | None => Some (VNull, notRecognized ("$" +:+ a +:+ ":" +:+ b) w)
       end).
Proof.
  split.
  - intros Hc Hreg Hn1 Hn2.
    pose proof Hc as (a & t & Hceq & H1 & H2 & H3 & Hs)%isCommandWord_inv.
    pose proof Hs as (? & ? & _ & Hall)%isSimpleWord_inv.
    assert (∃ d, last_char (c +:+ "|") = Some d ∧ isSpace d = false) as
      (d & Hd & Hds).
    { exists "|"%char. by rewrite last_char_snoc. }
    pose proof Hall as Hall'. rewrite Hceq in Hall'. simpl in Hall'.
    apply andb_true_iff in Hall' as [Ha _].
    apply isSimpleChar_facts in Ha as (Ha1 & _ & Ha3 & _).
    assert (trim (c +:+ "|" +:+ rest) = c +:+ "|" +:+ trimEnd rest) as Ht.
    { rewrite <- !str_app_assoc. rewrite Hceq in Hd |- *.
      rewrite str_app_cons in Hd |- *. by apply (trim_head_tail _ _ _ d). }
    assert (trim (c +:+ "|" +:+ rest)
            = String a (t +:+ "|" +:+ trimEnd rest)) as Ht'.
    { rewrite Ht, Hceq. by rewrite str_app_cons. }
    rewrite (executeCommand_pipeline _ _ _ _ _ _ Ht') by done.
    replace (String a (t +:+ "|" +:+ trimEnd rest))
      with (c +:+ "|" +:+ trimEnd rest) by (by rewrite Hceq).
    rewrite parsePipeline_cut; cycle 1.
    { eapply all_chars_impl; [|exact Hall].
      by intros y (_ & _ & _ & ->)%isSimpleChar_facts. }
    { eapply all_chars_impl; [|exact Hall].
      by intros y (_ & -> & _)%isSimpleChar_facts. }
    assert (trim c = c) as ->.
    { destruct (simple_line_facts c [] Hc ltac:(constructor)) as (E & _).
      exact E. }
    assert (nonEmpty [c] = [c]) as ->
      by (by rewrite nonEmpty_single, Hceq).
    change ([c] ++ parsePipeline (trimEnd rest))
      with (String.concat " " [c] :: parsePipeline (trimEnd rest)).
    rewrite runSegments_simple by (done || constructor).
    rewrite Hreg.
    destruct (String.eqb_spec (toLowerCase c) "constructor"); [done|].
    by destruct (String.eqb_spec (toLowerCase c) "__proto__").
  - intros a b Hid Hb Hv Hin Hbi Hreg.
    pose proof (identifier_word _ Hid) as Hwa.
    pose proof Hb as (b0 & bs & Hbeq & Hb0 & Hbs)%wordText_inv.
    assert (all_chars isWord b = true) as Hwb
      by (rewrite Hbeq; simpl; by rewrite Hb0, Hbs).
    set (line := "$" +:+ a +:+ ":" +:+ b). fold line in Hreg.
    assert (line = String "$" (a +:+ String ":" b)) as Hline by done.
    assert (all_chars (λ x, isWord x || Ascii.eqb x ":") (a +:+ String ":" b)
            = true) as Hchars.
    { rewrite all_chars_app. cbn [all_chars].
      rewrite (all_chars_impl isWord _ a), (all_chars_impl isWord _ b);
        [done|by intros ? ->|done|by intros ? ->|done]. }
    assert (∃ d, last_char line = Some d ∧ isSpace d = false) as (d & Hd & Hds).
    { destruct (last_char_cons b0 bs) as [d Hd]. exists d.
      unfold line. rewrite <- !str_app_assoc, Hbeq, last_char_app.
      split; [done|]. rewrite <- Hbeq in Hd.
      apply (last_char_all _ _ _ Hwb) in Hd.
      by apply isWord_facts in Hd as (-> & _). }
    assert (trim line = line) as Ht.
    { rewrite Hline in Hd |- *. by apply (trim_fixed _ _ d). }
    assert (expandVariables (w_variables w) (w_cwd w) line = line) as Hexp.
    { apply expandVariables_undefined_prefix; [done|done| |done|done|done].
      unfold lacks. cbn [all_chars]. simpl negb. cbn [andb].
      eapply all_chars_impl; [|exact Hwb]. apply isWord_not_dollar. }
    assert (assignMatch line = None) as Hassign.
    { unfold assignMatch.
      destruct a as [|a0 ar]; [done|].
      pose proof Hid as [Ha0 Har]%andb_true_iff.
      unfold line. change (":" +:+ b) with (String ":" b).
      rewrite matchBare_ident by done.
      change ("$" +:+ String a0 ar +:+ String ":" b)
        with (String "$" (String a0 ar +:+ String ":" b)).
      cbn [drop_str]. rewrite drop_str_app. done. }
    assert (lacks "|" line = true ∧ all_chars isBareChar line = true)
      as [Hpipe Hbare].
    { rewrite Hline. unfold lacks. cbn [all_chars]. simpl negb. cbn [andb].
      split; (eapply all_chars_impl; [|exact Hchars]); intros x Hx.
      - apply orb_true_iff in Hx as [Hx| ->%Ascii.eqb_eq]; [|done].
        revert Hx. by ascii_cases x.
      - apply orb_true_iff in Hx as [Hx| ->%Ascii.eqb_eq]; [|done].
        unfold isBareChar.
        destruct (isWord_facts _ Hx) as (Hs & -> & _).
        rewrite orb_false_r. apply negb_true_iff.
        destruct (Ascii.eqb_spec x " ") as [->|]; done. }
    rewrite (executeCommand_dollar _ _ _ (a +:+ String ":" b))
      by (by rewrite Ht).
    rewrite <- Hline, Hassign.
    rewrite parsePipeline_single by (done || by rewrite Hline).
    cbn [runSegments]. cbv zeta. rewrite Hexp, Ht.
    rewrite Hline at 1.
    change (String.eqb (String "$" (a +:+ String ":" b)) "") with false.
    cbv iota.
    rewrite parseArgs_word by (unfold isBareWord; by rewrite Hline at 1).
    change (parseNamedParams []) with ((∅, []) : params * list string).
    cbv iota beta. rewrite Hreg.
    assert (toLowerCase line = String "$" (toLowerCase (a +:+ ":" +:+ b)))
      as -> by done.
    change (String.eqb (String "$" (toLowerCase (a +:+ ":" +:+ b)))
              "constructor") with false.
    change (String.eqb (String "$" (toLowerCase (a +:+ ":" +:+ b)))
              "__proto__") with false.
    cbv iota. rewrite startsWith_char_eq.
    change (drop_str 1 (String "$" (toLowerCase (a +:+ ":" +:+ b))))
      with (toLowerCase (a +:+ ":" +:+ b)).
    unfold variableOrBuiltin.
    rewrite (proj2 (inheritedText_None _) (inherited_colon a b)).
    destruct (w_variables w !! toLowerCase (a +:+ ":" +:+ b)); [done|].
    cbn [orElse].
    by destruct (getBuiltinVar (w_cwd w) (toLowerCase (a +:+ ":" +:+ b))).
Qed.

Lemma executeCommand_not_recognized_witness :
  executeCommand sampleBuiltins sampleRegistry "frobnicate|Get-Location"
    sampleWorld
  = Some (VNull, notRecognized "frobnicate" sampleWorld) ∧
  executeCommand sampleBuiltins sampleRegistry "$env:username" sampleWorld
  = Some (VText "PSUser", writeLine "PSUser" "line-output" sampleWorld).
Proof.
  pose proof (executeCommand_not_recognized sampleBuiltins sampleRegistry
                "frobnicate" "Get-Location" sampleWorld) as [H1 _].
  pose proof (executeCommand_not_recognized sampleBuiltins sampleRegistry
                "" "" sampleWorld) as [_ H2].
  split.
  - apply H1; try (vm_compute; reflexivity); discriminate.
  - apply (H2 "env" "username"); vm_compute; reflexivity.
Defined.

(** X30. Assignment.  The line [$name = value] for an identifier and a word
    that is no arithmetic text stores the word under the name and returns
    it, with or without quotes around the word, and writes nothing; no
    cmdlet is called.  A bare reference to the name then gives the word,
    unless the name is that of a built-in variable or is [__proto__], which
    is not stored at all. *)
Theorem executeCommand_assignment (B : builtins) (CMDLETS : registry)
    (name v : string) (w : world) :
  isIdentifier name = true → isWordText v = true → isArithText v = false →
  executeCommand B CMDLETS ("$" +:+ name +:+ " = " +:+ v) w
    = Some (VText v, setVariable name v w) ∧
  executeCommand B CMDLETS ("$" +:+ name +:+ " = '" +:+ v +:+ "'") w
    = Some (VText v, setVariable name v w) ∧
  w_output (setVariable name v w) = w_output w ∧
  (name ≠ "__proto__" → getBuiltinVar (w_cwd w) name = None →
   expandVariables (w_variables (setVariable name v w)) (w_cwd w)
     ("$" +:+ name) = v) ∧
  (name = "__proto__" → setVariable name v w = w).
Proof.
  intros Hid Hv Ha.
  pose proof (identifier_word _ Hid) as Hwn.
  pose proof Hv as (v0 & vs & Hveq & Hv0 & Hvs)%wordText_inv.
  assert (all_chars isWord v = true) as Hwv
    by (rewrite Hveq; simpl; by rewrite Hv0, Hvs).
  destruct (isWord_facts _ Hv0) as (Hsp0 & Hq0 & Hlt0 & _).
  destruct (last_char_cons v0 vs) as [d Hd].
  assert (isSpace d = false) as Hds.
  { rewrite <- Hveq in Hd. apply (last_char_all _ _ _ Hwv) in Hd.
    by apply isWord_facts in Hd as (-> & _). }
  assert (all_chars (λ x, negb (isLineTerminator x)) (String v0 vs) = true)
    as Hlt.
  { rewrite <- Hveq. eapply all_chars_impl; [|exact Hwv].
    intros x Hx. by apply isWord_facts in Hx as (_ & _ & -> & _). }
  assert (trim v = v) as Htv by (rewrite Hveq; by apply (trim_fixed _ _ d)).
  assert (stripQuotes v = v) as Hsv.
  { rewrite Hveq. apply stripQuotes_id; [done|].
    eapply all_chars_impl; [|exact Hvs].
    intros x Hx. by apply isWord_facts in Hx as (_ & -> & _). }
  assert (lacks "$" v = true) as Hdv.
  { eapply all_chars_impl; [|exact Hwv]. apply isWord_not_dollar. }
  split_and!.
  - rewrite (executeCommand_assign _ _ _ _ v0 vs d) by (done || by rewrite Hveq).
    rewrite Htv, Hsv, expandVariables_plain by done.
    by rewrite evalExpression_word.
  - assert (last_char ("'" +:+ v +:+ "'") = Some "'"%char) as Hq.
    { rewrite <- str_app_assoc. apply last_char_snoc. }
    change (" = '" +:+ v +:+ "'") with (" = " +:+ "'" +:+ v +:+ "'").
    rewrite (executeCommand_assign _ _ _ _ "'"%char (v +:+ "'") "'"%char);
      [|done|done|done|done|done|].
    + assert (trim ("'" +:+ v +:+ "'") = "'" +:+ v +:+ "'") as ->.
      { by apply (trim_fixed _ _ "'"). }
      rewrite (stripQuotes_quoted "'" v) by done.
      rewrite expandVariables_plain by done.
      by rewrite evalExpression_word.
    + change ("'" +:+ v +:+ "'") with (String "'" (v +:+ "'")).
      cbn [all_chars]. rewrite all_chars_app, Hveq, Hlt. done.
  - unfold setVariable. by destruct (String.eqb name "__proto__").
  - intros Hne Hb. rewrite expandVariables_bare by done.
    unfold bareValue, variableText. rewrite Hb. unfold setVariable.
    destruct (String.eqb_spec name "__proto__"); [done|]. simpl.
    by rewrite lookup_insert_eq.
  - intros ->. done.
Qed.

Lemma executeCommand_assignment_witness :
  executeCommand sampleBuiltins sampleRegistry "$greeting = 'hello'"
    sampleWorld
  = Some (VText "hello", setVariable "greeting" "hello" sampleWorld) ∧
  expandVariables (w_variables (setVariable "greeting" "hello" sampleWorld))
    "C:\Users\PSUser" "$greeting" = "hello".
Proof.
  pose proof (executeCommand_assignment sampleBuiltins sampleRegistry
                "greeting" "hello" sampleWorld ltac:(reflexivity)
                ltac:(reflexivity) ltac:(reflexivity))
    as (_ & H1 & _ & H2 & _).
  split; [exact H1|]. apply H2; [discriminate|reflexivity].
Defined.
